(** * Pink Reader PWA: media library, viewers and their persisted state

    A shallow embedding of the library manager ([js/app.js], class
    [MediaManager]), of the file-type helper ([js/utils.js], class
    [Utils]), of the PDF viewer and of the video player, together with the
    properties of the specification that concern them; and, for the
    further properties at the end, of the rest of [Utils] (identifiers,
    thumbnails, [debounce]), of the image viewer, of the navigation of the
    application shell and of the service worker ([sw.js]).

    Conventions of the embedding.
    - JavaScript objects that are shared by reference (the [MediaFile]
      records) live in an explicit heap; the file list and every
      "current file" field hold references, so that [!==] is reference
      inequality and an update in place is seen through every alias.
    - A function that may throw, or an [async] function whose promise may
      reject, returns a [Completion] next to the state it leaves behind:
      what was mutated before the exception stays mutated.
    - What the platform decides (the outcome of an IndexedDB request, of a
      [FileReader], the identifiers drawn by [Math.random], the clock) is
      passed in explicitly.
    - An [async] function is run from call to settlement without another
      task in between, except in the PDF viewer, whose rendering is split
      at its two [await]s because the properties are about what happens in
      between. *)

From Stdlib Require Import ZArith QArith Qminmax Qabs Qround Qfield Ascii Lia Lqa.
From stdpp Require Import base option list strings gmap pretty sorting.

Local Open Scope Z_scope.

(** ** JavaScript values shared by all components *)

(** An exception value: its [name] and [message] properties. *)
Module JsError.
Record t := mk { name : string; message : string }.
End JsError.
Abbreviation JsError := JsError.t.

(** How a call ends: normally with a value, or by throwing (a rejected
    promise for an [async] function). *)
Inductive Completion (A : Type) : Type :=
  | Normal (a : A)
  | Throw (e : JsError).
Arguments Normal {A} a.
Arguments Throw {A} e.

Definition isThrow {A} (c : Completion A) : bool :=
  match c with Throw _ => true | Normal _ => false end.

(** ** [Utils]: media type of a file name *)

Module Utils.

(** [String.prototype.toLowerCase] on the ASCII letters; the other code
    units are left as they are. *)
Definition toLowerCase_ascii (c : ascii) : ascii :=
  let n := nat_of_ascii c in
  if ((65 <=? n)%nat && (n <=? 90)%nat)%bool then ascii_of_nat (n + 32) else c.

Fixpoint toLowerCase (s : string) : string :=
  match s with
  | EmptyString => EmptyString
  | String c s' => String (toLowerCase_ascii c) (toLowerCase s')
  end.

(** [String.prototype.toLowerCase] itself belongs to the engine, which
    lower-cases by the Unicode tables it ships (the Kelvin sign becomes
    [k], for one). Where a result depends on it the function is passed
    in, with the one fact about it that is used: on a string of ASCII
    characters it is [toLowerCase] above. A string stands for the text
    whose UTF-8 encoding it is, so that the ASCII characters are the bytes
    below 128 and stand for themselves. *)
Definition isAscii_ascii (c : ascii) : bool := (nat_of_ascii c <? 128)%nat.

Fixpoint isAscii (s : string) : bool :=
  match s with
  | EmptyString => true
  | String c s' => isAscii_ascii c && isAscii s'
  end.

Class Engine := {
  String_toLowerCase : string -> string;
  String_toLowerCase_ascii :
    forall s, isAscii s = true -> String_toLowerCase s = toLowerCase s
}.

(** [s.split(sep)] for a one-character separator: never the empty array. *)
Fixpoint split (sep : ascii) (s : string) : list string :=
  match s with
  | EmptyString => [EmptyString]
  | String c s' =>
      if Ascii.eqb c sep then EmptyString :: split sep s'
      else match split sep s' with
           | h :: t => String c h :: t
           | [] => [String c EmptyString]
           end
  end.

(** [a.pop()] as used on a temporary array: its last element, [None]
    standing for [undefined]. *)
Definition pop (a : list string) : option string := last a.

(** [a.includes(x)] where [x] may be [undefined]. *)
Definition includes (a : list string) (x : option string) : bool :=
  match x with
  | Some s => bool_decide (s ∈ a)
  | None => false
  end.

Definition imageExtensions : list string :=
  ["jpg"; "jpeg"; "png"; "gif"; "webp"; "bmp"; "svg"].
Definition videoExtensions : list string :=
  ["mp4"; "webm"; "ogg"; "mov"; "avi"; "mkv"].
Definition pdfExtensions : list string := ["pdf"].

Definition extension `{!Engine} (fileName : string) : option string :=
  pop (split "."%char (String_toLowerCase fileName)).

Definition getMediaType `{!Engine} (fileName : string) : string :=
  let extension := extension fileName in
  if includes pdfExtensions extension then "pdf"
  else if includes imageExtensions extension then "image"
  else if includes videoExtensions extension then "video"
  else "pdf".

(** [s.startsWith(p)] and [s.includes(sub)] on strings. *)
Fixpoint startsWith (s p : string) : bool :=
  match p, s with
  | EmptyString, _ => true
  | String c p', String d s' => Ascii.eqb c d && startsWith s' p'
  | String _ _, EmptyString => false
  end.

Fixpoint String_includes (s sub : string) : bool :=
  startsWith s sub
  || match s with
     | EmptyString => false
     | String _ s' => String_includes s' sub
     end.

(** An extension the function knows. *)
Definition recognized `{!Engine} (fileName : string) : bool :=
  includes pdfExtensions (extension fileName)
  || includes imageExtensions (extension fileName)
  || includes videoExtensions (extension fileName).

(** *** Identifiers *)

(** [x | 0] on a number: its integer part, wrapped to 32 bits. *)
Definition truncate (q : Q) : Z := Z.quot (Qnum q) (Zpos (Qden q)).
Definition toInt32 (z : Z) : Z := (z + 2 ^ 31) mod 2 ^ 32 - 2 ^ 31.

Definition hexDigit (d : Z) : ascii :=
  match d with
  | 0 => "0" | 1 => "1" | 2 => "2" | 3 => "3" | 4 => "4" | 5 => "5"
  | 6 => "6" | 7 => "7" | 8 => "8" | 9 => "9" | 10 => "a" | 11 => "b"
  | 12 => "c" | 13 => "d" | 14 => "e" | _ => "f"
  end%char.

(** [v.toString(16)] on a 32-bit integer: at most eight digits. *)
Fixpoint digits16 (fuel : nat) (n : Z) (acc : string) : string :=
  match fuel with
  | O => acc
  | Datatypes.S fuel =>
      let acc := String (hexDigit (n mod 16)) acc in
      if n / 16 =? 0 then acc else digits16 fuel (n / 16) acc
  end.

Definition toString16 (v : Z) : string :=
  if v <? 0 then String "-"%char (digits16 8 (- v) EmptyString)
  else digits16 8 v EmptyString.

Definition uuidTemplate : string := "xxxxxxxx-xxxx-4xxx-yxxx-xxxxxxxxxxxx".

(** [template.replace(/[xy]/g, f)] with the function of [generateUUID]:
    the matches are replaced from left to right, each by what the
    function returns for it. [random] gives the values of the successive
    calls of [Math.random] and [calls] counts the calls made so far. *)
Fixpoint replaceXY (random : nat -> Q) (calls : nat) (template : string) : string :=
  match template with
  | EmptyString => EmptyString
  | String c rest =>
      if (Ascii.eqb c "x" || Ascii.eqb c "y")%bool then
        let r := toInt32 (truncate (random calls * 16)) in
        let v := if Ascii.eqb c "x" then r else Z.lor (Z.land r 3) 8 in
        toString16 v +:+ replaceXY random (Datatypes.S calls) rest
      else String c (replaceXY random calls rest)
  end.

Definition generateUUID (random : nat -> Q) : string :=
  replaceXY random 0 uuidTemplate.

(** *** Thumbnails *)

(** [Math.round] on a number, here an exact rational: halves go up. *)
Definition round (q : Q) : Z := Qfloor (q + (1 # 2)).

(** [calculateThumbnailSize(originalWidth, originalHeight, maxWidth,
    maxHeight)]; the result is [(width, height)]. The callers leave the
    last two arguments at their defaults, 100 and 140. The division is
    that of the rationals, which is the division of the code for an
    original width that is not 0. *)
Definition calculateThumbnailSize
    (originalWidth originalHeight maxWidth maxHeight : Q) : Z * Z :=
  let aspectRatio := (originalWidth / originalHeight)%Q in
  let width := maxWidth in
  let height := (maxWidth / aspectRatio)%Q in
  if negb (Qle_bool height maxHeight)
  then (round (maxHeight * aspectRatio)%Q, round maxHeight)
  else (round width, round height).

(** *** [debounce] *)

Section Debounce.

Context {A : Type}.
Variable wait : Z.

(** The closure that [debounce(func, wait)] returns. [timeout] is its
    pending timer: the time from which the platform may run it, and the
    arguments its callback [later] passes on. [executed] is not a part of
    the closure: it lists the calls of [func], each with its time and its
    arguments, oldest first. Times are in milliseconds. *)
Record Debounced := mkDebounced {
  timeout : option (Z * A);
  executed : list (Z * A)
}.

Definition debounce : Debounced := mkDebounced None [].

(** [executedFunction(...args)] at the time [now]: [clearTimeout], then
    [setTimeout(later, wait)], a negative delay counting as 0. *)
Definition executedFunction (now : Z) (args : A) (d : Debounced) : Debounced :=
  mkDebounced (Some (now + Z.max 0 wait, args)) (executed d).

(** The platform running the pending timer at the time [now], which it
    does only once the delay has passed: [later] calls [func] with the
    arguments of the call that set the timer. *)
Definition later (now : Z) (d : Debounced) : Debounced :=
  match timeout d with
  | Some (due, args) =>
      if bool_decide (due ≤ now)
      then mkDebounced None (executed d ++ [(now, args)])
      else d
  | None => d
  end.

Inductive TimerEvent :=
  | Call (now : Z) (args : A)
  | Elapse (now : Z).

Definition timerStep (d : Debounced) (e : TimerEvent) : Debounced :=
  match e with
  | Call now args => executedFunction now args d
  | Elapse now => later now d
  end.

Definition timerRun (events : list TimerEvent) : Debounced :=
  fold_left timerStep events debounce.

End Debounce.

End Utils.

(** ** The values the library handles *)

(** A [MediaFile] metadata object, as [addFile] builds it. Times are
    seconds; they are only compared, subtracted and stored, and are kept
    exact here. *)
Module MediaFile.
Record t := mk {
  id : string;
  fileName : string;
  displayName : string;
  mediaType : string;
  fileSize : Z;
  importDate : string;
  thumbnailDataUrl : string;
  pageCount : option Z;
  lastViewedPage : Z;
  lastViewedTime : Q;
  videoDuration : option Q
}.

Definition set_lastViewedPage (page : Z) (f : t) : t :=
  mk (id f) (fileName f) (displayName f) (mediaType f) (fileSize f)
     (importDate f) (thumbnailDataUrl f) (pageCount f) page
     (lastViewedTime f) (videoDuration f).

Definition set_lastViewedTime (time : Q) (f : t) : t :=
  mk (id f) (fileName f) (displayName f) (mediaType f) (fileSize f)
     (importDate f) (thumbnailDataUrl f) (pageCount f) (lastViewedPage f)
     time (videoDuration f).

Definition set_videoDuration (duration : Q) (f : t) : t :=
  mk (id f) (fileName f) (displayName f) (mediaType f) (fileSize f)
     (importDate f) (thumbnailDataUrl f) (pageCount f) (lastViewedPage f)
     (lastViewedTime f) (Some duration).

Definition undefined : t :=
  mk "" "" "" "" 0 "" "" None 0 0%Q None.
End MediaFile.

#[global] Instance MediaFile_inhabited : Inhabited MediaFile.t :=
  populate MediaFile.undefined.

(** A browser [File]: what the picker or a drop hands to the import. *)
Module File.
Record t := mk {
  name : string;
  size : Z;
  type : string;
  bytes : list Byte.byte
}.
End File.

(** A [Blob]: its bytes and its [type]. *)
Module Blob.
Record t := mk { bytes : list Byte.byte; type : string }.
End Blob.

(** References to [MediaFile] objects and the heap they live in. An object
    literal allocates at the end of the heap; nothing is ever freed. *)
Abbreviation ref := nat (only parsing).
Abbreviation Heap := (list MediaFile.t) (only parsing).

Definition alloc (h : Heap) (f : MediaFile.t) : ref * Heap :=
  (length h, h ++ [f]).

(** ** IndexedDB, as far as the library uses it *)

Module IDB.

(** A record of the [fileData] object store (key path [id]). *)
Record FileData := mkFileData {
  id : string;
  data : list Byte.byte;
  type : string;
  name : string
}.

(** An open connection; [closed] is set when the platform has closed it
    (storage cleared, version change), after which [transaction] throws. *)
Record Database := mkDatabase {
  closed : bool;
  fileData : gmap string FileData
}.

Definition nullDb : JsError :=
  JsError.mk "TypeError" "Cannot read properties of null (reading 'transaction')".
Definition invalidState : JsError :=
  JsError.mk "InvalidStateError" "The database connection is closing.".

(** [this.db.transaction(stores, mode)] on a field that may still be
    [null]. *)
Definition transaction (db : option Database) : Completion Database :=
  match db with
  | None => Throw nullDb
  | Some d => if closed d then Throw invalidState else Normal d
  end.

(** [store.put(record)], [store.get(key)], [store.delete(key)] on
    [fileData], when the request succeeds. *)
Definition put (r : FileData) (d : Database) : Database :=
  mkDatabase (closed d) (<[id r := r]> (fileData d)).
Definition get (key : string) (d : Database) : option FileData :=
  fileData d !! key.
Definition delete (key : string) (d : Database) : Database :=
  mkDatabase (closed d) (base.delete key (fileData d)).

(** [db.close()] *)
Definition close (d : Database) : Database := mkDatabase true (fileData d).

End IDB.

(** ** [MediaManager] *)

(** What [emit] hands to the listeners: the file list, the current file or
    the settings. *)
Inductive Payload :=
  | Files (files : list ref)
  | CurrentFile (file : option ref)
  | Settings (isTwoPageMode sidebarVisible : bool).

(** A registered listener: the debounced save that [setupAutoSave]
    subscribes to [filesChanged], or the [k]-th function subscribed by
    another component. *)
Inductive Callback :=
  | DebouncedSave
  | Subscriber (k : nat).

(** What the outside can observe of a run, oldest first. [Notify] marks a
    call of [emit], [Invoke] the call of one listener. *)
Inductive Effect :=
  | Notify (event : string) (data : Payload)
  | Invoke (cb : Callback) (data : Payload)
  | ConsoleError (label : string) (e : JsError)
  | Toast (message : string) (type : string).

#[global] Instance Payload_eq_dec : EqDecision Payload.
Proof. solve_decision. Defined.
#[global] Instance Callback_eq_dec : EqDecision Callback.
Proof. solve_decision. Defined.

(** [Utils.fileToArrayBuffer(file)]: the bytes of the file, unless the
    [FileReader] reports an error. *)
Definition fileToArrayBuffer (readError : option JsError) (file : File.t)
  : Completion (list Byte.byte) :=
  match readError with
  | Some e => Throw e
  | None => Normal (File.bytes file)
  end.

Module MediaManager.

(** What the platform answers during one [addFile]. *)
Record Import := mkImport {
  fileId : string;               (* [Utils.generateUUID()] *)
  importDate : string;           (* [new Date().toISOString()] *)
  thumbnail : Completion string; (* [await Utils.createThumbnail(file)] *)
  readError : option JsError;    (* [reader.onerror] in [fileToArrayBuffer] *)
  putError : option JsError;     (* [request.onerror] of [store.put] *)
  numPages : option Z;           (* [await this.getPDFPageCount(file)] *)
  trigger : string               (* the uuid drawn by [setCurrentFile] *)
}.

(** What a lookup in the [eventListeners] object finds. *)
Inductive Property :=
  | Own (listeners : list Callback)
  | Inherited
  | Undefined.

(** The property names every object inherits from [Object.prototype];
    none of them holds an array. *)
Definition objectPrototype : list string :=
  ["constructor"; "hasOwnProperty"; "isPrototypeOf"; "propertyIsEnumerable";
   "toLocaleString"; "toString"; "valueOf"; "__proto__";
   "__defineGetter__"; "__defineSetter__"; "__lookupGetter__";
   "__lookupSetter__"].

Definition notCallable (method : string) : JsError :=
  JsError.mk "TypeError"
    ("this.eventListeners[event]." +:+ method +:+ " is not a function").

Definition notFound : JsError := JsError.mk "Error" "File data not found".
Definition notAFunction : JsError :=
  JsError.mk "TypeError" "this.debouncedSave is not a function".

Section WithSubscribers.

(** The components that subscribe: their own state, and what the [k]-th
    subscribed function does with a payload: it updates that state and
    returns, or throws. Subscribers read the manager but do not call its
    mutators before they return (the viewers start an asynchronous
    load, the shell redraws). *)
Context {S : Type} `{engine : !Utils.Engine}.
Variable subscriber : nat -> Payload -> S -> S * option JsError.

(** The fields of [MediaManager] the modelled methods use, with the heap
    of file objects, the state of the subscribers and the trace. *)
Record World := mkWorld {
  heap : Heap;
  files : list ref;
  currentFile : option ref;
  forceUpdateTrigger : string;
  db : option IDB.Database;
  eventListeners : gmap string (list Callback);
  debouncedSave : bool;   (* [this.debouncedSave] is defined *)
  saveTimer : bool;       (* the timer of the debounced save is pending *)
  outside : S;
  trace : list Effect
}.

Definition set_heap (x : Heap) (w : World) : World :=
  mkWorld x (files w) (currentFile w) (forceUpdateTrigger w) (db w)
          (eventListeners w) (debouncedSave w) (saveTimer w) (outside w) (trace w).
Definition set_files (x : list ref) (w : World) : World :=
  mkWorld (heap w) x (currentFile w) (forceUpdateTrigger w) (db w)
          (eventListeners w) (debouncedSave w) (saveTimer w) (outside w) (trace w).
Definition set_currentFile (x : option ref) (w : World) : World :=
  mkWorld (heap w) (files w) x (forceUpdateTrigger w) (db w)
          (eventListeners w) (debouncedSave w) (saveTimer w) (outside w) (trace w).
Definition set_forceUpdateTrigger (x : string) (w : World) : World :=
  mkWorld (heap w) (files w) (currentFile w) x (db w)
          (eventListeners w) (debouncedSave w) (saveTimer w) (outside w) (trace w).
Definition set_db (x : option IDB.Database) (w : World) : World :=
  mkWorld (heap w) (files w) (currentFile w) (forceUpdateTrigger w) x
          (eventListeners w) (debouncedSave w) (saveTimer w) (outside w) (trace w).
Definition set_eventListeners (x : gmap string (list Callback)) (w : World)
  : World :=
  mkWorld (heap w) (files w) (currentFile w) (forceUpdateTrigger w) (db w)
          x (debouncedSave w) (saveTimer w) (outside w) (trace w).
Definition set_saveTimer (x : bool) (w : World) : World :=
  mkWorld (heap w) (files w) (currentFile w) (forceUpdateTrigger w) (db w)
          (eventListeners w) (debouncedSave w) x (outside w) (trace w).
Definition set_outside (x : S) (w : World) : World :=
  mkWorld (heap w) (files w) (currentFile w) (forceUpdateTrigger w) (db w)
          (eventListeners w) (debouncedSave w) (saveTimer w) x (trace w).
Definition log (e : Effect) (w : World) : World :=
  mkWorld (heap w) (files w) (currentFile w) (forceUpdateTrigger w) (db w)
          (eventListeners w) (debouncedSave w) (saveTimer w) (outside w)
          (trace w ++ [e]).

(** Statements run in a world and end normally or by throwing. *)
Definition M (A : Type) : Type := World -> Completion A * World.

Definition ret {A} (a : A) : M A := fun w => (Normal a, w).
Definition throw {A} (e : JsError) : M A := fun w => (Throw e, w).
Definition bind {A B} (m : M A) (k : A -> M B) : M B :=
  fun w => match m w with
           | (Normal a, w') => k a w'
           | (Throw e, w') => (Throw e, w')
           end.
Definition try_catch {A} (body : M A) (handler : JsError -> M A) : M A :=
  fun w => match body w with
           | (Normal a, w') => (Normal a, w')
           | (Throw e, w') => handler e w'
           end.
Definition modify (f : World -> World) : M unit := fun w => (Normal tt, f w).
Definition lift {A} (c : Completion A) : M A := fun w => (c, w).

Notation "x <- m ;; k" := (bind m (fun x => k))
  (at level 100, m at next level, right associativity).
Notation "m ;;; k" := (bind m (fun _ => k))
  (at level 100, right associativity).

(** The id of the object behind a reference. *)
Definition idOf (w : World) (f : ref) : string := MediaFile.id (heap w !!! f).

(** *** Events *)

(** Calling one listener. The debounced save (re)starts its timer and
    returns. *)
Definition invoke (cb : Callback) (data : Payload) : M unit :=
  fun w =>
    let w := log (Invoke cb data) w in
    match cb with
    | DebouncedSave => (Normal tt, set_saveTimer true w)
    | Subscriber k =>
        let '(s, r) := subscriber k data (outside w) in
        match r with
        | None => (Normal tt, set_outside s w)
        | Some e => (Throw e, set_outside s w)
        end
    end.

(** [array.forEach(f)]: in order, and an exception of [f] ends it. *)
Fixpoint forEach (f : Callback -> M unit) (l : list Callback) : M unit :=
  match l with
  | [] => ret tt
  | cb :: l' => f cb ;;; forEach f l'
  end.

Definition consoleError (label : string) (e : JsError) : M unit :=
  modify (log (ConsoleError label e)).
Definition showToast (message type : string) : M unit :=
  modify (log (Toast message type)).

(** [this.eventListeners[event]]: the own property, else what the
    object inherits from [Object.prototype], else [undefined]. *)
Definition listenersOf (w : World) (event : string) : Property :=
  match eventListeners w !! event with
  | Some listeners => Own listeners
  | None => if bool_decide (event ∈ objectPrototype) then Inherited else Undefined
  end.

Definition on (event : string) (callback : Callback) : M unit :=
  fun w =>
    match listenersOf w event with
    | Own listeners =>
        (Normal tt, set_eventListeners
                      (<[event := listeners ++ [callback]]> (eventListeners w)) w)
    | Undefined =>
        (Normal tt, set_eventListeners (<[event := [callback]]> (eventListeners w)) w)
    | Inherited => (Throw (notCallable "push"), w)
    end.

Definition emit (event : string) (data : Payload) : M unit :=
  modify (log (Notify event data)) ;;;
  fun w =>
    match listenersOf w event with
    | Own listeners =>
        forEach (fun callback =>
                   try_catch (invoke callback data)
                             (fun error => consoleError "Error in event listener:" error))
                listeners w
    | Inherited => (Throw (notCallable "forEach"), w)
    | Undefined => (Normal tt, w)
    end.

(** [setCurrentFile(file)]; [uuid] is what [Utils.generateUUID] draws. *)
Definition setCurrentFile (uuid : string) (file : option ref) : M unit :=
  fun w =>
    if bool_decide (currentFile w ≠ file) || bool_decide (file ≠ None) then
      (modify (set_currentFile file) ;;;
       modify (set_forceUpdateTrigger uuid) ;;;
       emit "currentFileChanged" (CurrentFile file)) w
    else (Normal tt, w).

(** *** Content of the files *)

(** [this.db.transaction(...)], an exception of which leaves this world. *)
Definition transaction : M IDB.Database :=
  fun w => (IDB.transaction (db w), w).

(** [storeFileData(fileId, file)]. The promise rejects when the reader
    fails, when the executor throws on [transaction], or when the put
    request fails. *)
Definition storeFileData (readError putError : option JsError)
    (fileId : string) (file : File.t) : M unit :=
  arrayBuffer <- lift (fileToArrayBuffer readError file) ;;
  store <- transaction ;;
  match putError with
  | Some e => throw e
  | None =>
      modify (set_db (Some (IDB.put
        (IDB.mkFileData fileId arrayBuffer (File.type file) (File.name file))
        store)))
  end.

(** [getFileData(fileId)]; [requestError] is [request.onerror]. *)
Definition getFileData (requestError : option JsError) (fileId : string)
  : M Blob.t :=
  store <- transaction ;;
  match requestError with
  | Some e => throw e
  | None =>
      match IDB.get fileId store with
      | Some result => ret (Blob.mk (IDB.data result) (IDB.type result))
      | None => throw notFound
      end
  end.

(** *** The library *)

(** The object literal of [addFile]. *)
Definition newMediaFile (env : Import) (file : File.t)
    (thumbnailDataUrl : string) : MediaFile.t :=
  let mediaType := Utils.getMediaType (File.name file) in
  MediaFile.mk (fileId env) (File.name file) (File.name file) mediaType
    (File.size file) (importDate env) thumbnailDataUrl
    (if bool_decide (mediaType = "pdf") then numPages env else None)
    1 0%Q None.

Definition new (f : MediaFile.t) : M ref :=
  fun w => let '(r, h) := alloc (heap w) f in (Normal r, set_heap h w).

Definition addFile (env : Import) (file : File.t) : M ref :=
  try_catch
    (thumbnailDataUrl <- lift (thumbnail env) ;;
     storeFileData (readError env) (putError env) (fileId env) file ;;;
     mediaFile <- new (newMediaFile env file thumbnailDataUrl) ;;
     modify (fun w => set_files (files w ++ [mediaFile]) w) ;;;
     setCurrentFile (trigger env) (Some mediaFile) ;;;
     (fun w => emit "filesChanged" (Files (files w)) w) ;;;
     showToast (File.name file +:+ " を追加しました") "success" ;;;
     ret mediaFile)
    (fun error =>
       consoleError "Failed to add file:" error ;;;
       showToast "ファイルの追加に失敗しました" "error" ;;;
       throw error).

(** [this.currentFile && this.currentFile.id === file.id] *)
Definition isCurrent (w : World) (file : ref) : bool :=
  match currentFile w with
  | Some c => bool_decide (idOf w c = idOf w file)
  | None => false
  end.

(** [removeFile(file)]. The delete request is not awaited; when it fails
    ([deleteFails]) the store keeps the record and nobody is told. *)
Definition removeFile (uuid : string) (deleteFails : bool) (file : ref)
  : M unit :=
  try_catch
    (modify (fun w =>
       set_files (filter (fun f => idOf w f ≠ idOf w file) (files w)) w) ;;;
     store <- transaction ;;
     modify (fun w =>
       if deleteFails then w
       else set_db (Some (IDB.delete (idOf w file) store)) w) ;;;
     (fun w =>
        if isCurrent w file then setCurrentFile uuid (head (files w)) w
        else (Normal tt, w)) ;;;
     (fun w => emit "filesChanged" (Files (files w)) w) ;;;
     (fun w => showToast (MediaFile.fileName (heap w !!! file) +:+ " を削除しました")
                         "success" w))
    (fun error =>
       consoleError "Failed to remove file:" error ;;;
       showToast "ファイルの削除に失敗しました" "error").

(** [removeAllFiles()]; [clearError] is a failure of one of the two
    clear requests. *)
Definition removeAllFiles (uuid : string) (clearError : option JsError)
  : M unit :=
  try_catch
    (modify (set_files []) ;;;
     setCurrentFile uuid None ;;;
     store <- transaction ;;
     match clearError with
     | Some e => throw e
     | None => modify (set_db (Some (IDB.mkDatabase (IDB.closed store) ∅)))
     end ;;;
     (fun w => emit "filesChanged" (Files (files w)) w) ;;;
     showToast "すべてのファイルを削除しました" "success")
    (fun error =>
       consoleError "Failed to remove all files:" error ;;;
       showToast "ファイルの削除に失敗しました" "error").

(** *** Viewing positions *)

(** [this.debouncedSave()]: restarts the timer; a [TypeError] while
    [setupAutoSave] has not run. *)
Definition callDebouncedSave : M unit :=
  fun w => if debouncedSave w then (Normal tt, set_saveTimer true w)
           else (Throw notAFunction, w).

(** The common shape of [updateLastViewedPage] and [updateLastViewedTime]:
    find the entry by id, assign the field through the list entry and,
    when it is the same file, through [currentFile], then ask for a save. *)
Definition updateField (assign : MediaFile.t -> MediaFile.t) (file : ref)
  : M unit :=
  fun w =>
    match list_find (fun f => idOf w f = idOf w file) (files w) with
    | Some (fileIndex, entry) =>
        (modify (fun w => set_heap (alter assign entry (heap w)) w) ;;;
         (fun w => match currentFile w with
                   | Some c =>
                       if bool_decide (idOf w c = idOf w file)
                       then (Normal tt, set_heap (alter assign c (heap w)) w)
                       else (Normal tt, w)
                   | None => (Normal tt, w)
                   end) ;;;
         callDebouncedSave) w
    | None => (Normal tt, w)
    end.

Definition updateLastViewedPage (file : ref) (page : Z) : M unit :=
  updateField (MediaFile.set_lastViewedPage page) file.

Definition updateLastViewedTime (file : ref) (time : Q) : M unit :=
  updateField (MediaFile.set_lastViewedTime time) file.

Definition updateVideoDuration (file : ref) (duration : Q) : M unit :=
  updateField (MediaFile.set_videoDuration duration) file.

(** *** Subscriptions, continued *)

(** [off(event, callback)]: [indexOf], then [splice(index, 1)] when the
    callback is found. *)
Definition off (event : string) (callback : Callback) : M unit :=
  fun w =>
    match listenersOf w event with
    | Own listeners =>
        match list_find (fun c => c = callback) listeners with
        | Some (index, _) =>
            (Normal tt, set_eventListeners
                          (<[event := delete index listeners]> (eventListeners w)) w)
        | None => (Normal tt, w)
        end
    | Undefined => (Normal tt, w)
    | Inherited => (Throw (notCallable "indexOf"), w)
    end.

(** [dispose()] *)
Definition dispose : M unit :=
  modify (set_eventListeners ∅) ;;;
  modify (fun w => match db w with
                   | Some d => set_db (Some (IDB.close d)) w
                   | None => w
                   end).

(** *** Queries *)

(** [getFileById(id)]; [None] is [undefined]. *)
Definition getFileById (id : string) (w : World) : option ref :=
  snd <$> list_find (fun file => idOf w file = id) (files w).

Definition getFilesByType (mediaType : string) (w : World) : list ref :=
  filter (fun file => MediaFile.mediaType (heap w !!! file) = mediaType) (files w).

(** [searchFiles(query)]; names and queries are ASCII text here, which
    [toLowerCase] lower-cases letter by letter. *)
Definition searchFiles (query : string) (w : World) : list ref :=
  let lowerQuery := Utils.toLowerCase query in
  filter (fun file =>
            Utils.String_includes
              (Utils.toLowerCase (MediaFile.fileName (heap w !!! file))) lowerQuery
            || Utils.String_includes
                 (Utils.toLowerCase (MediaFile.displayName (heap w !!! file))) lowerQuery)
         (files w).

(** *** Settings *)

(** The two flags of the manager and the [settings] object store of its
    database (key to value), kept beside the world. *)
Record Prefs := mkPrefs {
  isTwoPageMode : bool;
  sidebarVisible : bool;
  settings : gmap string bool
}.

(** The manager the constructor builds has these flags. *)
Definition defaultPrefs (stored : gmap string bool) : Prefs :=
  mkPrefs false true stored.

(** [saveSetting(key, value)]; [putError] is [request.onerror]. *)
Definition saveSetting (putError : option JsError) (key : string) (value : bool)
    (p : Prefs) (w : World) : Completion unit * Prefs :=
  match IDB.transaction (db w) with
  | Throw e => (Throw e, p)
  | Normal _ =>
      match putError with
      | Some e => (Throw e, p)
      | None =>
          (Normal tt,
           mkPrefs (isTwoPageMode p) (sidebarVisible p) (<[key := value]> (settings p)))
      end
  end.

(** [getSetting(key)]: the stored record, [None] for [undefined]. *)
Definition getSetting (requestError : option JsError) (key : string)
    (p : Prefs) (w : World) : Completion (option bool) :=
  match IDB.transaction (db w) with
  | Throw e => Throw e
  | Normal _ =>
      match requestError with
      | Some e => Throw e
      | None => Normal (settings p !! key)
      end
  end.

Definition settingsPayload (p : Prefs) : Payload :=
  Settings (isTwoPageMode p) (sidebarVisible p).

(** [toggleTwoPageMode()] and [toggleSidebar()]: the flag is flipped, the
    save awaited, and only then the notification emitted. *)
Definition toggleTwoPageMode (putError : option JsError) (st : Prefs * World)
  : Completion unit * (Prefs * World) :=
  let '(p, w) := st in
  let p := mkPrefs (negb (isTwoPageMode p)) (sidebarVisible p) (settings p) in
  match saveSetting putError "isTwoPageMode" (isTwoPageMode p) p w with
  | (Throw e, p) => (Throw e, (p, w))
  | (Normal _, p) =>
      let '(r, w) := emit "settingsChanged" (settingsPayload p) w in (r, (p, w))
  end.

Definition toggleSidebar (putError : option JsError) (st : Prefs * World)
  : Completion unit * (Prefs * World) :=
  let '(p, w) := st in
  let p := mkPrefs (isTwoPageMode p) (negb (sidebarVisible p)) (settings p) in
  match saveSetting putError "sidebarVisible" (sidebarVisible p) p w with
  | (Throw e, p) => (Throw e, (p, w))
  | (Normal _, p) =>
      let '(r, w) := emit "settingsChanged" (settingsPayload p) w in (r, (p, w))
  end.

(** [loadSettings()]: both reads must succeed for anything to be assigned;
    a missing record gives the default ([?? false], [?? true]). *)
Definition loadSettings (requestError0 requestError1 : option JsError)
    (st : Prefs * World) : Completion unit * (Prefs * World) :=
  let '(p, w) := st in
  let failed error :=
    (Normal tt, (p, log (ConsoleError "Failed to load settings:" error) w)) in
  match IDB.transaction (db w) with
  | Throw e => failed e
  | Normal _ =>
      match getSetting requestError0 "isTwoPageMode" p w,
            getSetting requestError1 "sidebarVisible" p w with
      | Normal s0, Normal s1 =>
          let p := mkPrefs (default false s0) (default true s1) (settings p) in
          match emit "settingsChanged" (settingsPayload p) w with
          | (Normal _, w) => (Normal tt, (p, w))
          | (Throw error, w) =>
              (Normal tt, (p, log (ConsoleError "Failed to load settings:" error) w))
          end
      | Throw e, _ => failed e
      | _, Throw e => failed e
      end
  end.

(** *** The stored library *)

(** The [files] object store (key path [id]) is kept beside the world,
    like the settings. [store.getAll()] returns its records in the order
    of their keys. *)
Definition byId (a b : MediaFile.t) : Prop :=
  String.leb (MediaFile.id a) (MediaFile.id b) = true.

#[global] Instance byId_dec : RelDecision byId.
Proof. intros a b. unfold byId. apply _. Defined.

Definition getAll (stored : gmap string MediaFile.t) : list MediaFile.t :=
  merge_sort byId (snd <$> map_to_list stored).

Definition constraintError : JsError :=
  JsError.mk "ConstraintError" "Key already exists in the object store.".

(** The loop of [saveFiles]: [store.add(file)] for each file of the list,
    which fails on a key the store already has, or when the platform makes
    the request fail ([addError]). *)
Fixpoint addAll (addError : ref -> option JsError) (h : Heap) (l : list ref)
    (stored : gmap string MediaFile.t) : Completion (gmap string MediaFile.t) :=
  match l with
  | [] => Normal stored
  | file :: l =>
      let record := h !!! file in
      match stored !! MediaFile.id record with
      | Some _ => Throw constraintError
      | None =>
          match addError file with
          | Some e => Throw e
          | None => addAll addError h l (<[MediaFile.id record := record]> stored)
          end
      end
  end.

(** [saveFiles()]: the store is cleared and refilled in one transaction;
    a request that fails aborts the transaction, which undoes what it
    wrote. Nothing is thrown. *)
Definition saveFiles (clearError : option JsError) (addError : ref -> option JsError)
    (stored : gmap string MediaFile.t) (w : World)
  : gmap string MediaFile.t * World :=
  let failed error := (stored, log (ConsoleError "Failed to save files:" error) w) in
  match IDB.transaction (db w) with
  | Throw e => failed e
  | Normal _ =>
      match clearError with
      | Some e => failed e
      | None =>
          match addAll addError (heap w) (files w) ∅ with
          | Normal stored => (stored, w)
          | Throw e => failed e
          end
      end
  end.

(** [loadFiles()]: the records read become new objects. The promise of
    the request is returned from inside the [try] without being awaited,
    so that its rejection is not caught here. *)
Definition loadFiles (getAllError : option JsError)
    (stored : gmap string MediaFile.t) : M unit :=
  fun w =>
    match IDB.transaction (db w) with
    | Throw e =>
        (Normal tt, set_files [] (log (ConsoleError "Failed to load files:" e) w))
    | Normal _ =>
        match getAllError with
        | Some e => (Throw e, w)
        | None =>
            let result := getAll stored in
            let w := set_files (seq (length (heap w)) (length result))
                               (set_heap (heap w ++ result) w) in
            emit "filesChanged" (Files (files w)) w
        end
    end.

(** [initDB()]; [opened] is what the request of [indexedDB.open] ends
    with. *)
Definition initDB (opened : Completion IDB.Database) : M unit :=
  fun w =>
    match opened with
    | Normal d => (Normal tt, set_db (Some d) w)
    | Throw e => (Throw e, w)
    end.

Definition setupAutoSave : M unit :=
  modify (fun w => mkWorld (heap w) (files w) (currentFile w) (forceUpdateTrigger w)
                           (db w) (eventListeners w) true (saveTimer w)
                           (outside w) (trace w)) ;;;
  on "filesChanged" DebouncedSave.

(** The manager as the constructor leaves it when it calls [init]. *)
Definition constructed (s : S) (uuid : string) : World :=
  mkWorld [] [] None uuid None
          (<["filesChanged" := []]>
           (<["currentFileChanged" := []]> (<["settingsChanged" := []]> ∅)))
          false false s [].

Definition init (opened : Completion IDB.Database)
    (getAllError requestError0 requestError1 : option JsError)
    (stored : gmap string MediaFile.t) (st : Prefs * World)
  : Completion unit * (Prefs * World) :=
  let '(p, w) := st in
  let failed error p w :=
    (Normal tt,
     (p, snd ((consoleError "Failed to initialize MediaManager:" error ;;;
               showToast "初期化に失敗しました" "error") w))) in
  match initDB opened w with
  | (Throw e, w) => failed e p w
  | (Normal _, w) =>
      match loadFiles getAllError stored w with
      | (Throw e, w) => failed e p w
      | (Normal _, w) =>
          match loadSettings requestError0 requestError1 (p, w) with
          | (Throw e, (p, w)) => failed e p w
          | (Normal _, (p, w)) =>
              match setupAutoSave w with
              | (Throw e, w) => failed e p w
              | (Normal _, w) => (Normal tt, (p, w))
              end
          end
      end
  end.

End WithSubscribers.

(** *** Listeners that subscribe and unsubscribe *)

(** The listeners above leave the registry alone while they run. A
    listener may also call [on] and [off] of the manager, as one that
    unsubscribes itself on its first call does; the [forEach] of [emit]
    then runs over an array that changes under it, [off] splicing and
    [on] pushing in place. *)
Module Reentrant.

Inductive Call :=
  | On (event : string) (callback : Callback)
  | Off (event : string) (callback : Callback).

Section WithListeners.

Context {S : Type}.

(** The [k]-th subscribed function: what it does to the state of its
    component, the calls of [on] and [off] it then makes, and the
    exception it throws at its end, if any. It does not catch what [on]
    and [off] throw. *)
Variable listener : nat -> Payload -> S -> S * list Call * option JsError.

Notation "m ;;; k" := (bind m (fun _ => k))
  (at level 100, right associativity).

Definition call (c : Call) : M (S:=S) unit :=
  match c with
  | On event callback => on event callback
  | Off event callback => off event callback
  end.

Fixpoint calls (cs : list Call) : M (S:=S) unit :=
  match cs with
  | [] => ret tt
  | c :: cs => call c ;;; calls cs
  end.

Definition invoke (cb : Callback) (data : Payload) : M unit :=
  fun w =>
    let w := log (Invoke cb data) w in
    match cb with
    | DebouncedSave => (Normal tt, set_saveTimer true w)
    | Subscriber k =>
        let '(s, cs, r) := listener k data (outside w) in
        (calls cs ;;;
         match r with
         | None => ret tt
         | Some e => throw e
         end) (set_outside s w)
    end.

(** [array.forEach(f)] on the array of [event]: its length is read once,
    at the start; the element at an index is read when its turn comes,
    from the array as it is then, and an index the array no longer has is
    passed over. [k] is the index and [remaining] the number of indices
    still to visit. *)
Fixpoint forEach (event : string) (f : Callback -> M (S:=S) unit)
    (k remaining : nat) : M unit :=
  match remaining with
  | O => ret tt
  | Datatypes.S remaining =>
      fun w =>
        match default [] (eventListeners w !! event) !! k with
        | Some cb => (f cb ;;; forEach event f (Datatypes.S k) remaining) w
        | None => forEach event f (Datatypes.S k) remaining w
        end
  end.

Definition emit (event : string) (data : Payload) : M unit :=
  modify (log (Notify event data)) ;;;
  fun w =>
    match listenersOf w event with
    | Own listeners =>
        forEach event
                (fun callback =>
                   try_catch (invoke callback data)
                             (fun error => consoleError "Error in event listener:" error))
                0 (length listeners) w
    | Inherited => (Throw (notCallable "forEach"), w)
    | Undefined => (Normal tt, w)
    end.

(** A listener of the kind above, which makes no calls. *)
Definition plain (subscriber : nat -> Payload -> S -> S * option JsError)
  : nat -> Payload -> S -> S * list Call * option JsError :=
  fun k data s => let '(s', r) := subscriber k data s in (s', [], r).

End WithListeners.

End Reentrant.

End MediaManager.

(** ** [PinkReaderApp]: the check made before an import *)

Module PinkReaderApp.

Definition isValidFile `{!Utils.Engine} (file : File.t) : bool :=
  let mediaType := Utils.getMediaType (File.name file) in
  Utils.includes ["pdf"; "image"; "video"] (Some mediaType).

Section WithSubscribers.

Context {S : Type} `{engine : !Utils.Engine}.
Variable subscriber : nat -> Payload -> S -> S * option JsError.

Abbreviation World := (@MediaManager.World S).

(** [importFiles(files)]: each file is imported under its own [try]; the
    loop counts successes and failures and the toasts at the end show the
    counts. Each file comes with what the platform answers during its
    import. The two counters are returned here. *)
Fixpoint importLoop (jobs : list (MediaManager.Import * File.t))
    (importedCount errorCount : nat) (w : World) : nat * nat * World :=
  match jobs with
  | [] => (importedCount, errorCount, w)
  | (env, file) :: jobs =>
      match MediaManager.addFile subscriber env file w with
      | (Normal _, w) => importLoop jobs (Datatypes.S importedCount) errorCount w
      | (Throw error, w) =>
          importLoop jobs importedCount (Datatypes.S errorCount)
            (MediaManager.log
               (ConsoleError ("Failed to import " +:+ File.name file +:+ ":") error) w)
      end
  end.

Definition importFiles (jobs : list (MediaManager.Import * File.t)) (w : World)
  : nat * nat * World :=
  let '(importedCount, errorCount, w) := importLoop jobs 0 0 w in
  let w :=
    if bool_decide (0 < importedCount)%nat then
      MediaManager.log
        (Toast (match jobs with
                | [(_, file)] => File.name file +:+ " を追加しました"
                | _ => pretty importedCount +:+ "個のファイルを追加しました"
                end) "success") w
    else w in
  let w :=
    if bool_decide (0 < errorCount)%nat then
      MediaManager.log
        (Toast (pretty errorCount +:+ "個のファイルの追加に失敗しました") "error") w
    else w in
  (importedCount, errorCount, w).

(** [handleFileInput(e)]: only the files that pass [isValidFile] are
    handed on. *)
Definition handleFileInput (jobs : list (MediaManager.Import * File.t)) (w : World)
  : World :=
  let validFiles := filter (fun job => isValidFile (snd job) = true) jobs in
  if bool_decide (0 < length validFiles)%nat
  then snd (importFiles validFiles w) else w.

(** [selectFile(file)] *)
Definition selectFile (uuid : string) (file : option ref)
  : World -> Completion unit * World :=
  MediaManager.setCurrentFile subscriber uuid file.

(** The index both navigation functions start from: that of the first
    file with the id of the current file, or -1. *)
Definition currentIndex (w : World) : Z :=
  match MediaManager.currentFile w with
  | Some c =>
      match list_find (fun f => MediaManager.idOf w f = MediaManager.idOf w c)
                      (MediaManager.files w) with
      | Some (i, _) => Z.of_nat i
      | None => -1
      end
  | None => -1
  end.

Definition selectNextFile (uuid : string) (w : World) : Completion unit * World :=
  let files := MediaManager.files w in
  if bool_decide (length files = 0%nat) then (Normal tt, w)
  else
    let nextIndex := Z.rem (currentIndex w + 1) (Z.of_nat (length files)) in
    selectFile uuid (files !! Z.to_nat nextIndex) w.

Definition selectPreviousFile (uuid : string) (w : World) : Completion unit * World :=
  let files := MediaManager.files w in
  if bool_decide (length files = 0%nat) then (Normal tt, w)
  else
    let prevIndex := if bool_decide (currentIndex w <= 0)
                     then Z.of_nat (length files) - 1
                     else currentIndex w - 1 in
    selectFile uuid (files !! Z.to_nat prevIndex) w.

End WithSubscribers.
End PinkReaderApp.

(** ** [PDFViewer] *)

Module PDFViewer.

Definition cancelled : JsError :=
  JsError.mk "RenderingCancelledException" "Rendering cancelled".

(** A [renderPage] suspended at one of its two [await]s, with the number
    of the page it asked the document for; for the second, whether
    [cancel] was called on its render task in the meantime. *)
Inductive Pending :=
  | AwaitGetPage (pageNumber : Z)
  | AwaitRender (pageNumber : Z) (cancelRequested : bool).

(** The fields of the viewer that pagination uses. [pdfDocument] holds
    the page count of the loaded document and [renderTask] the page its
    task paints. [pageInfo], [canvas] and [pending] are not fields of the
    class: the numbers shown by [updatePageInfo], the page last painted
    completely on the canvas, and the suspended [renderPage]. *)
Record t := mk {
  pdfDocument : option Z;
  currentPage : Z;
  totalPages : Z;
  isRendering : bool;
  currentFile : option ref;
  renderTask : option Z;
  pageInfo : Z * Z;
  canvas : option Z;
  pending : option Pending
}.

(** The viewer the constructor builds. *)
Definition initial : t := mk None 1 1 false None None (1, 1) None None.

Definition set_currentPage (x : Z) (v : t) : t :=
  mk (pdfDocument v) x (totalPages v) (isRendering v) (currentFile v)
     (renderTask v) (pageInfo v) (canvas v) (pending v).
Definition set_isRendering (x : bool) (v : t) : t :=
  mk (pdfDocument v) (currentPage v) (totalPages v) x (currentFile v)
     (renderTask v) (pageInfo v) (canvas v) (pending v).
Definition set_renderTask (x : option Z) (v : t) : t :=
  mk (pdfDocument v) (currentPage v) (totalPages v) (isRendering v)
     (currentFile v) x (pageInfo v) (canvas v) (pending v).
Definition set_canvas (x : option Z) (v : t) : t :=
  mk (pdfDocument v) (currentPage v) (totalPages v) (isRendering v)
     (currentFile v) (renderTask v) (pageInfo v) x (pending v).
Definition set_pending (x : option Pending) (v : t) : t :=
  mk (pdfDocument v) (currentPage v) (totalPages v) (isRendering v)
     (currentFile v) (renderTask v) (pageInfo v) (canvas v) x.

Definition updatePageInfo (v : t) : t :=
  mk (pdfDocument v) (currentPage v) (totalPages v) (isRendering v)
     (currentFile v) (renderTask v) (currentPage v, totalPages v)
     (canvas v) (pending v).

(** [this.renderTask.cancel()]: it reaches a render only if that render
    is still awaited. *)
Definition cancelRenderTask (v : t) : t :=
  match pending v with
  | Some (AwaitRender p _) => set_pending (Some (AwaitRender p true)) v
  | _ => v
  end.

(** What happens to an event of the viewer's life. *)
Inductive Event :=
  | LoadPDF (file : ref) (numPages : Z) (* [loadPDF], its awaits fulfilled *)
  | ClearPDF
  | GoToPage (pageNumber : Z)
  | RenderPage                          (* resize, change of layout *)
  | GetPageSettled (failure : option JsError)
  | RenderSettled (failure : option JsError).

Section WithSubscribers.

Context {S : Type}.

Abbreviation World := (@MediaManager.World S).
Abbreviation State := (t * World)%type.

(** [renderPage()] from its call to its first [await]. *)
Definition renderPage (st : State) : State :=
  let '(v, w) := st in
  if negb (bool_decide (is_Some (pdfDocument v))) || isRendering v then st
  else
    let v := set_isRendering true v in
    let v := if bool_decide (is_Some (renderTask v)) then cancelRenderTask v else v in
    (set_pending (Some (AwaitGetPage (currentPage v))) v, w).

(** The [catch] and [finally] of [renderPage]. *)
Definition renderPage_catch (error : JsError) (st : State) : State :=
  let '(v, w) := st in
  let w := if bool_decide (JsError.name error ≠ "RenderingCancelledException")
           then MediaManager.log (ConsoleError "Failed to render page:" error) w
           else w in
  (set_isRendering false (set_pending None v), w).

(** [renderPage()] resumed with the page: it starts the render task and
    awaits it. *)
Definition renderPage_gotPage (pageNumber : Z) (st : State) : State :=
  let '(v, w) := st in
  (set_pending (Some (AwaitRender pageNumber false))
               (set_renderTask (Some pageNumber) v), w).

(** [renderPage()] resumed after the render: the page is on the canvas,
    the current page is handed to the library (the promise of
    [updateLastViewedPage] is dropped). *)
Definition renderPage_rendered (pageNumber : Z) (st : State) : State :=
  let '(v, w) := st in
  let v := set_renderTask None (set_canvas (Some pageNumber) v) in
  let w := match currentFile v with
           | Some file =>
               snd (MediaManager.updateLastViewedPage file (currentPage v) w)
           | None => w
           end in
  (set_isRendering false (set_pending None v), w).

Definition goToPage (pageNumber : Z) (st : State) : State :=
  let '(v, w) := st in
  if negb (bool_decide (is_Some (pdfDocument v))) then st
  else
    let page := Z.max 1 (Z.min pageNumber (totalPages v)) in
    if bool_decide (page = currentPage v) then st
    else renderPage (updatePageInfo (set_currentPage page v), w).

Definition previousPage (st : State) : State :=
  if bool_decide (1 < currentPage (fst st))
  then goToPage (currentPage (fst st) - 1) st else st.

Definition nextPage (st : State) : State :=
  if bool_decide (currentPage (fst st) < totalPages (fst st))
  then goToPage (currentPage (fst st) + 1) st else st.

Definition clearPDF (st : State) : State :=
  let '(v, w) := st in
  let v := if bool_decide (is_Some (renderTask v))
           then set_renderTask None (cancelRenderTask v) else v in
  (updatePageInfo
     (mk None 1 1 (isRendering v) None (renderTask v) (pageInfo v) None (pending v)),
   w).

(** [loadPDF(file)] once the content and the document have arrived. *)
Definition loadPDF (file : ref) (numPages : Z) (st : State) : State :=
  let '(v, w) := st in
  let lastViewedPage := MediaFile.lastViewedPage (MediaManager.heap w !!! file) in
  let v := mk (Some numPages)
              (if bool_decide (lastViewedPage = 0) then 1 else lastViewedPage)
              numPages (isRendering v) (Some file) (renderTask v)
              (pageInfo v) (canvas v) (pending v) in
  renderPage (updatePageInfo v, w).

Definition step (e : Event) (st : State) : State :=
  match e, pending (fst st) with
  | LoadPDF file numPages, _ => loadPDF file numPages st
  | ClearPDF, _ => clearPDF st
  | GoToPage n, _ => goToPage n st
  | RenderPage, _ => renderPage st
  | GetPageSettled None, Some (AwaitGetPage p) => renderPage_gotPage p st
  | GetPageSettled (Some error), Some (AwaitGetPage p) => renderPage_catch error st
  | RenderSettled _, Some (AwaitRender p true) => renderPage_catch cancelled st
  | RenderSettled None, Some (AwaitRender p false) => renderPage_rendered p st
  | RenderSettled (Some error), Some (AwaitRender p false) => renderPage_catch error st
  | _, _ => st
  end.

Definition run (events : list Event) (st : State) : State :=
  fold_left (fun st e => step e st) events st.

End WithSubscribers.
End PDFViewer.

(** ** [VideoPlayer] *)

Module VideoPlayer.

(** [a > b] on times. *)
Definition gt (a b : Q) : bool := negb (Qle_bool a b).

(** The fields of the player that positions use; [videoElement] holds the
    [currentTime] of the element. *)
Record t := mk {
  videoElement : option Q;
  currentFile : option ref;
  currentTime : Q;
  duration : Q;
  isSeeking : bool;
  lastSavedPosition : Q
}.

(** The player the constructor builds, its element found in the page. *)
Definition initial : t := mk (Some 0%Q) None 0 0 false 0.

Section WithSubscribers.

Context {S : Type}.

Abbreviation World := (@MediaManager.World S).
Abbreviation State := (t * World)%type.

Definition saveCurrentPosition (st : State) : State :=
  let '(p, w) := st in
  match currentFile p with
  | Some file =>
      if gt (Qabs (currentTime p - lastSavedPosition p)) 1 then
        (mk (videoElement p) (currentFile p) (currentTime p) (duration p)
            (isSeeking p) (currentTime p),
         snd (MediaManager.updateLastViewedTime file (currentTime p) w))
      else st
  | None => st
  end.

Definition seek (time : Q) (st : State) : State :=
  let '(p, w) := st in
  match videoElement p, currentFile p with
  | Some _, Some _ =>
      let clampedTime := Qmax 0 (Qmin (duration p) time) in
      saveCurrentPosition
        (mk (Some clampedTime) (currentFile p) (currentTime p) (duration p)
            (isSeeking p) (lastSavedPosition p), w)
  | _, _ => st
  end.

Definition rewind (st : State) : State := seek (currentTime (fst st) - 10)%Q st.

Definition forward (st : State) : State := seek (currentTime (fst st) + 10)%Q st.

Definition startSeeking (st : State) : State :=
  let '(p, w) := st in
  (mk (videoElement p) (currentFile p) (currentTime p) (duration p) true
      (lastSavedPosition p), w).

Definition endSeeking (st : State) : State :=
  let '(p, w) := st in
  (mk (videoElement p) (currentFile p) (currentTime p) (duration p) false
      (lastSavedPosition p), w).

(** [onSliderInput(e)] and [onSliderChange(e)]; [value] is
    [parseFloat(e.target.value)], the slider running from 0 to 100. *)
Definition onSliderInput (value : Q) (st : State) : State :=
  let '(p, w) := st in
  match videoElement p, currentFile p with
  | Some _, Some _ =>
      let time := (value / 100 * duration p)%Q in
      (mk (videoElement p) (currentFile p) time (duration p) (isSeeking p)
          (lastSavedPosition p), w)
  | _, _ => st
  end.

Definition onSliderChange (value : Q) (st : State) : State :=
  let '(p, w) := st in
  match videoElement p, currentFile p with
  | Some _, Some _ =>
      let time := (value / 100 * duration p)%Q in
      seek time st
  | _, _ => st
  end.

(** [loadVideo(file)] once the content has arrived and the element has
    taken the new source: its position is 0. The cached fields are not
    reset here. *)
Definition loadVideo (file : ref) (st : State) : State :=
  let '(p, w) := st in
  (mk (Some 0%Q) (Some file) (currentTime p) (duration p) (isSeeking p)
      (lastSavedPosition p), w).

(** [file.lastViewedTime] is read through the reference; 0 is falsy. *)
Definition restoreSavedPosition (st : State) : State :=
  let '(p, w) := st in
  match currentFile p with
  | Some file =>
      let lastViewedTime := MediaFile.lastViewedTime (MediaManager.heap w !!! file) in
      if negb (Qeq_bool lastViewedTime 0) then
        let savedTime := Qmin lastViewedTime (duration p) in
        if gt savedTime 5 then seek savedTime st else st
      else st
  | None => st
  end.

(** The [durationchange] event; [elementDuration] is what the element
    reports ([|| 0] maps a missing duration to 0). *)
Definition onDurationChange (elementDuration : Q) (st : State) : State :=
  let '(p, w) := st in
  let p := mk (videoElement p) (currentFile p) (currentTime p) elementDuration
              (isSeeking p) (lastSavedPosition p) in
  let w := match currentFile p with
           | Some file =>
               snd (MediaManager.updateVideoDuration file elementDuration w)
           | None => w
           end in
  restoreSavedPosition (p, w).

(** The [timeupdate] event of the element, delivered after the task that
    moved the position has ended. *)
Definition onTimeUpdate (st : State) : State :=
  let '(p, w) := st in
  match videoElement p with
  | Some t =>
      if isSeeking p then st
      else (mk (videoElement p) (currentFile p) t (duration p)
               (isSeeking p) (lastSavedPosition p), w)
  | None => st
  end.

End WithSubscribers.
End VideoPlayer.

(** ** The service worker *)

Module ServiceWorker.

Definition CACHE_NAME : string := "pink-reader-v1".
Definition RUNTIME_CACHE : string := "pink-reader-runtime".

Definition CORE_FILES : list string :=
  ["./"; "./index.html"; "./manifest.json"; "./css/styles.css"; "./js/app.js";
   "./js/media-manager.js"; "./js/pdf-viewer.js"; "./js/image-viewer.js";
   "./js/video-player.js"; "./js/utils.js"; "./icons/app_icon.png";
   "./icons/icon-32x32.png"; "./icons/icon-72x72.png"; "./icons/icon-96x96.png";
   "./icons/icon-128x128.png"; "./icons/icon-144x144.png";
   "./icons/icon-152x152.png"; "./icons/icon-192x192.png";
   "./icons/icon-384x384.png"; "./icons/icon-512x512.png"].

Definition EXTERNAL_DEPS : list string :=
  ["https://cdnjs.cloudflare.com/ajax/libs/pdf.js/3.11.174/pdf.min.js";
   "https://cdnjs.cloudflare.com/ajax/libs/pdf.js/3.11.174/pdf.worker.min.js"].

(** A request, with the parts that [new URL(request.url)] has. *)
Record Request := mkRequest {
  url : string;
  protocol : string;
  origin : string;
  pathname : string;
  method : string;
  mode : string
}.

Record Response := mkResponse {
  status : Z;
  statusText : string;
  body : string
}.

(** [response.ok] *)
Definition ok (r : Response) : bool := (200 <=? status r) && (status r <=? 299).

(** A cache holds responses under the URLs of GET requests ([Vary]
    headers are left out); the cache storage holds caches under names. *)
Abbreviation Cache := (gmap string Response) (only parsing).
Abbreviation CacheStorage := (gmap string (gmap string Response)) (only parsing).

(** [caches.open(name)] creates the cache when there is none of that
    name. *)
Definition open (name : string) (caches : CacheStorage) : CacheStorage :=
  match caches !! name with
  | Some _ => caches
  | None => <[name := ∅]> caches
  end.

Definition cacheOf (name : string) (caches : CacheStorage) : Cache :=
  default ∅ (caches !! name).

(** [cache.match(request)]: only a GET request matches. *)
Definition cacheMatch (request : Request) (cache : Cache) : option Response :=
  if bool_decide (method request = "GET") then cache !! url request else None.

(** Whether [cache.put] and [cache.add] store a response: not a partial
    one (status 206); their promise rejects instead. *)
Definition storable (response : Response) : bool := negb (status response =? 206).

(** [cache.put(request, response.clone())] on the cache [name], its
    promise dropped: for a request that is not a GET, or a response that
    is not storable, the promise rejects unobserved and nothing is
    stored. *)
Definition cachePut (name : string) (request : Request) (response : Response)
    (caches : CacheStorage) : CacheStorage :=
  if bool_decide (method request = "GET") && storable response
  then <[name := <[url request := response]> (cacheOf name caches)]> caches
  else caches.

(** The three strategies; [network] is what [fetch(request)] ends with,
    and [None] stands for [undefined]. *)
Definition cacheFirst (network : Completion Response) (request : Request)
    (caches : CacheStorage) : Completion (option Response) * CacheStorage :=
  let caches := open CACHE_NAME caches in
  match cacheMatch request (cacheOf CACHE_NAME caches) with
  | Some cachedResponse => (Normal (Some cachedResponse), caches)
  | None =>
      match network with
      | Normal networkResponse =>
          (Normal (Some networkResponse),
           if ok networkResponse
           then cachePut CACHE_NAME request networkResponse caches
           else caches)
      | Throw error => (Throw error, caches)
      end
  end.

Definition networkFirst (network : Completion Response) (request : Request)
    (caches : CacheStorage) : Completion (option Response) * CacheStorage :=
  let caches := open RUNTIME_CACHE caches in
  match network with
  | Normal networkResponse =>
      (Normal (Some networkResponse),
       if ok networkResponse && bool_decide (method request = "GET")
       then cachePut RUNTIME_CACHE request networkResponse caches
       else caches)
  | Throw error =>
      match cacheMatch request (cacheOf RUNTIME_CACHE caches) with
      | Some cachedResponse => (Normal (Some cachedResponse), caches)
      | None => (Throw error, caches)
      end
  end.

Definition staleWhileRevalidate (network : Completion Response) (request : Request)
    (caches : CacheStorage) : Completion (option Response) * CacheStorage :=
  let caches := open CACHE_NAME caches in
  let cachedResponse := cacheMatch request (cacheOf CACHE_NAME caches) in
  let fetched :=
    match network with
    | Normal response => Some response
    | Throw error => None
    end in
  let caches :=
    match network with
    | Normal response =>
        if ok response then cachePut CACHE_NAME request response caches else caches
    | Throw error => caches
    end in
  (Normal (match cachedResponse with
           | Some r => Some r
           | None => fetched
           end), caches).

(** [s.replace(pattern, replacement)] for a pattern that is a string: the
    first occurrence is replaced. *)
Fixpoint dropChars (n : nat) (s : string) : string :=
  match n, s with
  | Datatypes.S n, String _ s' => dropChars n s'
  | _, _ => s
  end.

Fixpoint replaceFirst (pattern replacement s : string) : string :=
  if Utils.startsWith s pattern
  then replacement +:+ dropChars (String.length pattern) s
  else match s with
       | EmptyString => EmptyString
       | String c s' => String c (replaceFirst pattern replacement s')
       end.

Section WithLocation.

(** [self.location.origin], and the directory of the worker's script,
    against which its relative URLs are resolved. *)
Variable selfOrigin : string.
Variable base : string.

(** The URL a file of the lists stands for: the relative ones start with
    [./], the others are absolute. *)
Definition resolve (file : string) : string :=
  if Utils.startsWith file "./" then base +:+ dropChars 2 file else file.

Definition isCoreFile (request : Request) : bool :=
  if bool_decide (origin request = selfOrigin) then
    existsb (fun file =>
               let normalizedFile := replaceFirst "./" "/" file in
               bool_decide (pathname request = normalizedFile)
               || bool_decide (pathname request = file))
            CORE_FILES
  else false.

Definition isExternalDependency (request : Request) : bool :=
  existsb (fun dep => Utils.String_includes (url request) dep
                      || Utils.startsWith (url request) dep)
          EXTERNAL_DEPS.

Definition isImageOrMedia (request : Request) : bool :=
  let extension := Utils.toLowerCase <$> Utils.pop (Utils.split "."%char (pathname request)) in
  let imageExtensions := ["jpg"; "jpeg"; "png"; "gif"; "webp"; "svg"; "bmp"] in
  let mediaExtensions := ["mp4"; "webm"; "ogg"; "avi"; "mov"] in
  Utils.includes imageExtensions extension || Utils.includes mediaExtensions extension.

Definition isDynamicContent (request : Request) : bool :=
  if Utils.startsWith (pathname request) "/api/" then true
  else if bool_decide (origin request ≠ selfOrigin) then true
  else existsb (fun pattern => Utils.String_includes (pathname request) pattern)
               ["/user/"; "/admin/"; "/dashboard/"].

(** [handleFetch(request)]: it never rejects. *)
Definition handleFetch (network : Completion Response) (request : Request)
    (caches : CacheStorage) : option Response * CacheStorage :=
  let attempt :=
    if isCoreFile request then cacheFirst network request caches
    else if isExternalDependency request then staleWhileRevalidate network request caches
    else if isImageOrMedia request then cacheFirst network request caches
    else if isDynamicContent request then networkFirst network request caches
    else networkFirst network request caches in
  match attempt with
  | (Normal response, caches) => (response, caches)
  | (Throw error, caches) =>
      if bool_decide (mode request = "navigate") then
        let caches := open CACHE_NAME caches in
        (cacheOf CACHE_NAME caches !! resolve "./index.html", caches)
      else (Some (mkResponse 408 "Request Timeout" ""), caches)
  end.

(** The [fetch] event: [None] when the worker leaves the request to the
    browser. *)
Definition onFetch (network : Completion Response) (request : Request)
    (caches : CacheStorage) : option (option Response * CacheStorage) :=
  if negb (Utils.startsWith (protocol request) "http") then None
  else if bool_decide (protocol request = "chrome-extension:")
          || bool_decide (protocol request = "moz-extension:") then None
  else Some (handleFetch network request caches).

(** [cache.addAll(files)]: every file is fetched, and either all the
    responses are stored or, one fetch failing or one response being not
    [ok] or not storable, none is. [fetchUrl] is what the fetch of a URL
    ends with. *)
Fixpoint addAll (fetchUrl : string -> Completion Response) (files : list string)
    (cache : Cache) : option Cache :=
  match files with
  | [] => Some cache
  | file :: files =>
      match fetchUrl (resolve file) with
      | Normal response =>
          if ok response && storable response
          then addAll fetchUrl files (<[resolve file := response]> cache)
          else None
      | Throw _ => None
      end
  end.

(** The [install] event. *)
Definition install (fetchUrl : string -> Completion Response)
    (caches : CacheStorage) : CacheStorage :=
  let caches := open CACHE_NAME caches in
  match addAll fetchUrl CORE_FILES (cacheOf CACHE_NAME caches) with
  | Some cache =>
      let cache :=
        fold_left (fun cache url =>
                     match addAll fetchUrl [url] cache with
                     | Some cache => cache
                     | None => cache
                     end)
                  EXTERNAL_DEPS cache in
      <[CACHE_NAME := cache]> caches
  | None => caches
  end.

(** The [activate] event: the caches of earlier versions are deleted. *)
Definition oldCache (name : string) : bool :=
  Utils.startsWith name "pink-reader-"
  && negb (bool_decide (name = CACHE_NAME))
  && negb (bool_decide (name = RUNTIME_CACHE)).

Definition activate (caches : CacheStorage) : CacheStorage :=
  filter (fun entry => oldCache (fst entry) = false) caches.

End WithLocation.

End ServiceWorker.

(** ** [ImageViewer] *)

Module ImageViewer.

(** [a > b] on numbers. *)
Definition gt (a b : Q) : bool := negb (Qle_bool a b).

(** The fields of the viewer that zooming and panning use; sizes, offsets
    and points are pairs [(x, y)], resp. [(width, height)]. Numbers are
    exact rationals: the comparisons, [Math.min] and [Math.max] are as on
    the numbers of the platform, while its products, quotients and
    differences are rounded, so that of the scale only its bounds, and of
    the pan offset no exact value, is stated below. *)
Record t := mk {
  currentFile : option ref;
  scale : Q;
  minScale : Q;
  maxScale : Q;
  panOffset : Q * Q;
  imageNaturalSize : Q * Q;
  containerSize : Q * Q;
  isDragging : bool;
  lastPointerPos : Q * Q
}.

(** The viewer the constructor builds. *)
Definition initial : t :=
  mk None 1 (1 # 10) 5 (0, 0)%Q (0, 0)%Q (0, 0)%Q false (0, 0)%Q.

Definition set_currentFile (x : option ref) (v : t) : t :=
  mk x (scale v) (minScale v) (maxScale v) (panOffset v) (imageNaturalSize v)
     (containerSize v) (isDragging v) (lastPointerPos v).
Definition set_scale (x : Q) (v : t) : t :=
  mk (currentFile v) x (minScale v) (maxScale v) (panOffset v)
     (imageNaturalSize v) (containerSize v) (isDragging v) (lastPointerPos v).
Definition set_panOffset (x : Q * Q) (v : t) : t :=
  mk (currentFile v) (scale v) (minScale v) (maxScale v) x
     (imageNaturalSize v) (containerSize v) (isDragging v) (lastPointerPos v).
Definition set_pointer (dragging : bool) (pos : Q * Q) (v : t) : t :=
  mk (currentFile v) (scale v) (minScale v) (maxScale v) (panOffset v)
     (imageNaturalSize v) (containerSize v) dragging pos.

(** [setScale(newScale, zoomCenter)]; [None] is the default [null]. *)
Definition setScale (newScale : Q) (zoomCenter : option (Q * Q)) (v : t) : t :=
  let clampedScale := Qmax (minScale v) (Qmin (maxScale v) newScale) in
  if Qeq_bool clampedScale (scale v) then v
  else
    let v :=
      match zoomCenter with
      | Some (x, y) =>
          let scaleRatio := (clampedScale / scale v)%Q in
          set_panOffset ((x - (x - fst (panOffset v)) * scaleRatio)%Q,
                         (y - (y - snd (panOffset v)) * scaleRatio)%Q) v
      | None => v
      end in
    set_scale clampedScale v.

Definition fitImageToContainer (v : t) : t :=
  let '(imageWidth, imageHeight) := imageNaturalSize v in
  let '(containerWidth, containerHeight) := containerSize v in
  if (Qeq_bool imageWidth 0 || Qeq_bool imageHeight 0
      || Qeq_bool containerWidth 0 || Qeq_bool containerHeight 0)%bool
  then v
  else
    let containerAspect := (containerWidth / containerHeight)%Q in
    let imageAspect := (imageWidth / imageHeight)%Q in
    let fitScale := if gt imageAspect containerAspect
                    then ((containerWidth - 40) / imageWidth)%Q
                    else ((containerHeight - 40) / imageHeight)%Q in
    let fitScale := Qmin fitScale 3 in
    let fitScale := Qmax fitScale (1 # 10) in
    setScale fitScale None v.

(** [centerImage()], the elements of the viewer being in the page. *)
Definition centerImage (v : t) : t :=
  let scaledWidth := (fst (imageNaturalSize v) * scale v)%Q in
  let scaledHeight := (snd (imageNaturalSize v) * scale v)%Q in
  let centerX := ((fst (containerSize v) - scaledWidth) / 2)%Q in
  let centerY := ((snd (containerSize v) - scaledHeight) / 2)%Q in
  set_panOffset (centerX, centerY) v.

Definition resetTransform (v : t) : t :=
  set_panOffset (0, 0)%Q (set_scale 1 v).

Definition containerCenter (v : t) : Q * Q :=
  ((fst (containerSize v) / 2)%Q, (snd (containerSize v) / 2)%Q).

Definition zoomIn (v : t) : t :=
  setScale (scale v * (5 # 4)) (Some (containerCenter v)) v.

Definition zoomOut (v : t) : t :=
  setScale (scale v * (4 # 5)) (Some (containerCenter v)) v.

Definition resetZoom (v : t) : t := centerImage (fitImageToContainer v).

(** [handleWheel(e)]; [zoomCenter] is the pointer relative to the image. *)
Definition handleWheel (deltaY : Q) (zoomCenter : Q * Q) (v : t) : t :=
  match currentFile v with
  | None => v
  | Some _ =>
      let zoomFactor := (if gt deltaY 0 then 9 # 10 else 11 # 10)%Q in
      setScale (scale v * zoomFactor) (Some zoomCenter) v
  end.

Definition handleDoubleClick (clickPoint : Q * Q) (v : t) : t :=
  match currentFile v with
  | None => v
  | Some _ =>
      if gt (scale v) (3 # 2) then fitImageToContainer v
      else setScale 2 (Some clickPoint) v
  end.

(** Dragging: [client] is the position of the pointer. *)
Definition handlePointerStart (client : Q * Q) (v : t) : t :=
  match currentFile v with
  | None => v
  | Some _ => set_pointer true client v
  end.

Definition handlePointerMove (client : Q * Q) (v : t) : t :=
  match currentFile v with
  | Some _ =>
      if isDragging v then
        let dx := (fst client - fst (lastPointerPos v))%Q in
        let dy := (snd client - snd (lastPointerPos v))%Q in
        set_pointer true client
          (set_panOffset ((fst (panOffset v) + dx)%Q, (snd (panOffset v) + dy)%Q) v)
      else v
  | None => v
  end.

Definition handlePointerEnd (v : t) : t := set_pointer false (lastPointerPos v) v.

(** [loadImage(file)] up to its first [await]; the [load] event of the
    element with the sizes it finds (the timer the handler sets does what
    [resetZoom] does); and [clearImage()]. *)
Definition loadImage (file : ref) (v : t) : t :=
  resetTransform (set_currentFile (Some file) v).

Definition onImageLoad (naturalSize rectSize : Q * Q) (v : t) : t :=
  mk (currentFile v) (scale v) (minScale v) (maxScale v) (panOffset v)
     naturalSize (Qmax (fst rectSize) 300, Qmax (snd rectSize) 200)%Q
     (isDragging v) (lastPointerPos v).

Definition clearImage (v : t) : t := resetTransform (set_currentFile None v).

(** What the user and the page do to the viewer. A step of a pinch is
    given by the scale it asks for and its centre. *)
Inductive Event :=
  | LoadImage (file : ref)
  | ImageLoaded (naturalSize rectSize : Q * Q)
  | ClearImage
  | ZoomIn
  | ZoomOut
  | ResetZoom   (* the button, the key 0, and the timer set by [onImageLoad] *)
  | Fit         (* the key f *)
  | Wheel (deltaY : Q) (zoomCenter : Q * Q)
  | DoubleClick (clickPoint : Q * Q)
  | Pinch (newScale : Q) (zoomCenter : Q * Q)
  | PointerStart (client : Q * Q)
  | PointerMove (client : Q * Q)
  | PointerEnd.

Definition step (v : t) (e : Event) : t :=
  match e with
  | LoadImage file => loadImage file v
  | ImageLoaded naturalSize rectSize => onImageLoad naturalSize rectSize v
  | ClearImage => clearImage v
  | ZoomIn => zoomIn v
  | ZoomOut => zoomOut v
  | ResetZoom => resetZoom v
  | Fit => fitImageToContainer v
  | Wheel deltaY zoomCenter => handleWheel deltaY zoomCenter v
  | DoubleClick clickPoint => handleDoubleClick clickPoint v
  | Pinch newScale zoomCenter => setScale newScale (Some zoomCenter) v
  | PointerStart client => handlePointerStart client v
  | PointerMove client => handlePointerMove client v
  | PointerEnd => handlePointerEnd v
  end.

Definition run (events : list Event) : t := fold_left step events initial.

End ImageViewer.

(** ** Observations and scenarios used by the properties *)

Import MediaManager.

(** The [emit] calls of a trace, and the listener calls of a trace. *)
Definition notifications (tr : list Effect) : list (string * Payload) :=
  omap (fun e => match e with Notify ev d => Some (ev, d) | _ => None end) tr.
Definition invocations (tr : list Effect) : list (Callback * Payload) :=
  omap (fun e => match e with Invoke cb d => Some (cb, d) | _ => None end) tr.
Definition events (tr : list Effect) : list string := (notifications tr).*1.

(** The part of a world that subscribers and logging leave alone. *)
Definition sameLibrary {S} (w w' : @World S) : Prop :=
  heap w' = heap w ∧ files w' = files w ∧ currentFile w' = currentFile w
  ∧ forceUpdateTrigger w' = forceUpdateTrigger w ∧ db w' = db w
  ∧ eventListeners w' = eventListeners w ∧ debouncedSave w' = debouncedSave w.

(** "The current file is none or is an element of the file list." *)
Definition currentInList {S} (w : @World S) : Prop :=
  match currentFile w with
  | Some c => c ∈ files w
  | None => True
  end.

(** A suspended [renderPage] of the PDF viewer holds [isRendering]. *)
Definition renderingWhilePending (v : PDFViewer.t) : Prop :=
  is_Some (PDFViewer.pending v) → PDFViewer.isRendering v = true.

(** The scenarios below are run with the lower-casing of the ASCII
    letters: their file names are ASCII, and on those every engine gives
    what this one gives. *)
#[global] Instance asciiEngine : Utils.Engine :=
  {| Utils.String_toLowerCase := Utils.toLowerCase;
     Utils.String_toLowerCase_ascii := fun s _ => eq_refl |}.

(** An engine that knows one upper-case letter outside ASCII, the Kelvin
    sign U+212A (the bytes 226, 132, 170), which it lower-cases to [k] as
    the engines do. *)
Fixpoint lowerKelvin (s : string) : string :=
  match s with
  | EmptyString => EmptyString
  | String c s' =>
      if Utils.isAscii_ascii c
      then String (Utils.toLowerCase_ascii c) (lowerKelvin s')
      else
        match s' with
        | String c2 (String c3 s'') =>
            if ((nat_of_ascii c =? 226)%nat && (nat_of_ascii c2 =? 132)%nat
                && (nat_of_ascii c3 =? 170)%nat)%bool
            then String "k" (lowerKelvin s'')
            else String c (lowerKelvin s')
        | _ => String c (lowerKelvin s')
        end
  end.

Definition kelvinEngine : Utils.Engine.
Proof.
  refine {| Utils.String_toLowerCase := lowerKelvin |}.
  induction s as [|c s IH]; [reflexivity|].
  cbn [Utils.isAscii lowerKelvin Utils.toLowerCase].
  intros [Hc Hs]%andb_true_iff. rewrite Hc, IH by exact Hs. reflexivity.
Defined.

(** Listeners of which the one numbered 1 unsubscribes itself from
    [currentFileChanged] when it is called, as a handler that is meant to
    run once does; each counts its call and none throws. *)
Definition once : nat -> Payload -> nat -> nat * list Reentrant.Call * option JsError :=
  fun k _ calls =>
    (Datatypes.S calls,
     if bool_decide (k = 1%nat)
     then [Reentrant.Off "currentFileChanged" (Subscriber 1)] else [],
     None).

(** Listeners of which the one numbered 1, when called, subscribes a
    further listener to [currentFileChanged] and unsubscribes the shell
    from [filesChanged], and the one numbered 2 throws; each counts its
    call. *)
Definition subscribing : nat -> Payload -> nat -> nat * list Reentrant.Call * option JsError :=
  fun k _ calls =>
    (Datatypes.S calls,
     if bool_decide (k = 1%nat)
     then [Reentrant.On "currentFileChanged" (Subscriber 7);
           Reentrant.Off "filesChanged" (Subscriber 0)]
     else [],
     if bool_decide (k = 2%nat) then Some (JsError.mk "Error" "viewer failed") else None).

(** Subscribers that return, and subscribers of which the one numbered 2
    throws. *)
Definition quiet : nat -> Payload -> unit -> unit * option JsError :=
  fun _ _ s => (s, None).
Definition faulty : nat -> Payload -> nat -> nat * option JsError :=
  fun k _ calls =>
    (Datatypes.S calls,
     if bool_decide (k = 2%nat) then Some (JsError.mk "Error" "viewer failed") else None).

(** The registry once the manager is initialised and the shell and the
    viewers have subscribed. *)
Definition registry : gmap string (list Callback) :=
  <["filesChanged" := [DebouncedSave; Subscriber 0]]>
  (<["currentFileChanged" := [Subscriber 1; Subscriber 2; Subscriber 3; Subscriber 4]]>
  (<["settingsChanged" := [Subscriber 5; Subscriber 6]]> ∅)).

Definition openDb : IDB.Database := IDB.mkDatabase false ∅.

(** An initialised manager with an empty library. *)
Definition emptyLibrary {S} (s : S) : @World S :=
  mkWorld [] [] None "00000000-0000-4000-8000-000000000000" (Some openDb)
          registry true false s [].

(** The platform closes the connection (the site's storage is cleared). *)
Definition connectionLost {S} (w : @World S) : @World S :=
  set_db (match db w with
          | Some d => Some (IDB.mkDatabase true (IDB.fileData d))
          | None => None
          end) w.

Definition aPdf : File.t :=
  File.mk "a.pdf" 4 "application/pdf" [Byte.x25; Byte.x50; Byte.x44; Byte.x46].
Definition aVideo : File.t :=
  File.mk "c.mp4" 3 "video/mp4" [Byte.x00; Byte.x01; Byte.xff].

(** An import in which the platform succeeds throughout. *)
Definition importOk (fileId : string) (numPages : option Z) : Import :=
  mkImport fileId "2024-01-01T00:00:00.000Z" (Normal "data:image/jpeg;base64,")
           None None numPages "11111111-1111-4111-8111-111111111111".

(** An import whose put request fails. *)
Definition quotaExceeded : JsError := JsError.mk "QuotaExceededError" "".
Definition importFull (fileId : string) : Import :=
  mkImport fileId "2024-01-01T00:00:00.000Z" (Normal "data:image/jpeg;base64,")
           None (Some quotaExceeded) None "11111111-1111-4111-8111-111111111111".

(** The library after the import of one three-page PDF, resp. one video. *)
Definition onePdf : @World unit :=
  snd (addFile quiet (importOk "id-a" (Some 3)) aPdf (emptyLibrary tt)).
Definition oneVideo : @World unit :=
  snd (addFile quiet (importOk "id-c" None) aVideo (emptyLibrary tt)).

(** The library after the import of the PDF and then of the video. *)
Definition twoFiles : @World unit :=
  snd (addFile quiet (importOk "id-c" None) aVideo onePdf).

(** The PDF viewer showing page 1 of that file, its first render done. *)
Definition pdfShown : PDFViewer.t * @World unit :=
  PDFViewer.run
    [PDFViewer.LoadPDF 0%nat 3; PDFViewer.GetPageSettled None;
     PDFViewer.RenderSettled None]
    (PDFViewer.initial, onePdf).

(** That viewer asked for page 2, the page fetched and its render under
    way. *)
Definition pdfRendering : PDFViewer.t * @World unit :=
  PDFViewer.run [PDFViewer.GoToPage 2; PDFViewer.GetPageSettled None] pdfShown.

(** The video player on that video, which the element reports to be 120
    seconds long: at its start, nothing played yet. *)
Definition videoShown : VideoPlayer.t * @World unit :=
  VideoPlayer.onDurationChange 120
    (VideoPlayer.loadVideo 0%nat (VideoPlayer.initial, oneVideo)).

(** The flags a new manager ends up with when its [loadSettings] reads
    the settings store [stored] without a failure. *)
Definition reloaded {S} (subscriber : nat -> Payload -> S -> S * option JsError)
    (stored : gmap string bool) (w : @World S) : Prefs :=
  fst (snd (loadSettings subscriber None None (defaultPrefs stored, w))).

(** What may stand in an identifier at a place of the template: a
    hexadecimal digit for [x], one of 8, 9, a, b for [y], and the
    character of the template itself elsewhere. *)
Definition hexDigits : list ascii :=
  ["0"; "1"; "2"; "3"; "4"; "5"; "6"; "7"; "8"; "9"; "a"; "b"; "c"; "d"; "e"; "f"]%char.
Definition fills (t c : ascii) : Prop :=
  if Ascii.eqb t "x" then c ∈ hexDigits
  else if Ascii.eqb t "y" then c ∈ ["8"; "9"; "a"; "b"]%char
  else c = t.

(** A call of the debounced function's [func], at the time [x.1] with the
    arguments [x.2], answers a call of the debounced function in
    [events]: that call was made with these arguments at least [wait]
    before, and between the two nothing happened but the clock moving on
    within the delay. *)
Definition answersCall {A} (wait : Z) (events : list (@Utils.TimerEvent A))
    (x : Z * A) : Prop :=
  ∃ pre mid post t0,
    events = pre ++ Utils.Call t0 x.2 :: mid ++ Utils.Elapse x.1 :: post
    ∧ t0 + Z.max 0 wait ≤ x.1
    ∧ Forall (fun e => ∃ t', e = Utils.Elapse t' ∧ t' < t0 + Z.max 0 wait) mid.

(** The zoom of the image viewer is within the bounds the constructor
    sets. *)
Definition scaleInRange (v : ImageViewer.t) : Prop :=
  ImageViewer.minScale v = (1 # 10)%Q ∧ ImageViewer.maxScale v = 5%Q
  ∧ ((1 # 10) <= ImageViewer.scale v)%Q ∧ (ImageViewer.scale v <= 5)%Q.

(** The records a list of files stands for. *)
Definition recordsOf {S} (w : @World S) : list MediaFile.t :=
  (fun file => heap w !!! file) <$> files w.

(** A site served at the root of its origin, every fetch of which is
    answered with status 200; the worker installed and activated there;
    and two requests of a page of that site. *)
Definition siteOnline : string -> Completion ServiceWorker.Response :=
  fun url => Normal (ServiceWorker.mkResponse 200 "OK" url).
Definition installed : gmap string (gmap string ServiceWorker.Response) :=
  ServiceWorker.activate
    (ServiceWorker.install "https://reader.example/" siteOnline ∅).
Definition indexRequest : ServiceWorker.Request :=
  ServiceWorker.mkRequest "https://reader.example/index.html" "https:"
    "https://reader.example" "/index.html" "GET" "navigate".
Definition aboutRequest : ServiceWorker.Request :=
  ServiceWorker.mkRequest "https://reader.example/about" "https:"
    "https://reader.example" "/about" "GET" "navigate".
Definition offline : JsError := JsError.mk "TypeError" "Failed to fetch".

(** Every file of the list is an object of the heap whose media type is
    one of the three the application knows. *)
Definition wellTyped {S} (w : @World S) : Prop :=
  Forall (fun file => (file < length (heap w))%nat
                      ∧ MediaFile.mediaType (heap w !!! file)
                        ∈ ["pdf"; "image"; "video"])
         (files w).

(** * Properties *)

(** Closed statements about the scenarios are settled by evaluation, one
    conjunct at a time. *)
Ltac by_computation :=
  repeat match goal with |- _ ∧ _ => split end; vm_compute; reflexivity.

(** ** Events *)

Section EventFacts.

Context {S : Type} `{engine : !Utils.Engine}.
Variable subscriber : nat -> Payload -> S -> S * option JsError.

Lemma sameLibrary_refl (w : @World S) : sameLibrary w w.
Proof. by repeat split. Qed.

Lemma sameLibrary_trans (w1 w2 w3 : @World S) :
  sameLibrary w1 w2 → sameLibrary w2 w3 → sameLibrary w1 w3.
Proof.
  unfold sameLibrary. intros (?&?&?&?&?&?&?) (?&?&?&?&?&?&?).
  repeat split; congruence.
Qed.

Lemma notifications_app tr1 tr2 :
  notifications (tr1 ++ tr2) = notifications tr1 ++ notifications tr2.
Proof. apply omap_app. Qed.

Lemma invocations_app tr1 tr2 :
  invocations (tr1 ++ tr2) = invocations tr1 ++ invocations tr2.
Proof. apply omap_app. Qed.

(** One listener called under the [try]/[catch] of [emit]: the call
    happens, nothing is thrown, the library is as before. *)
Lemma guarded_invoke cb data label (w : @World S) :
  ∃ w' added,
    try_catch (invoke subscriber cb data)
              (fun error => consoleError label error) w = (Normal tt, w')
    ∧ sameLibrary w w'
    ∧ trace w' = trace w ++ Invoke cb data :: added
    ∧ notifications added = [] ∧ invocations added = []
    ∧ saveTimer w' = saveTimer w || bool_decide (cb = DebouncedSave).
Proof.
  unfold try_catch, invoke. destruct cb as [|k]; simpl.
  - eexists _, []. repeat split; simpl; by rewrite ?orb_true_r.
  - destruct (subscriber k data (outside w)) as [s [e|]]; simpl.
    + eexists _, [ConsoleError label e]. repeat split; simpl.
      * by rewrite <- app_assoc.
      * by rewrite orb_false_r.
    + eexists _, []. repeat split; simpl. by rewrite orb_false_r.
Qed.

Lemma forEach_guarded data label listeners : ∀ w : @World S,
  ∃ w' added,
    forEach (fun callback =>
               try_catch (invoke subscriber callback data)
                         (fun error => consoleError label error))
            listeners w = (Normal tt, w')
    ∧ sameLibrary w w'
    ∧ trace w' = trace w ++ added
    ∧ notifications added = []
    ∧ invocations added = map (fun cb => (cb, data)) listeners
    ∧ saveTimer w' = saveTimer w || bool_decide (DebouncedSave ∈ listeners).
Proof.
  induction listeners as [|cb listeners IH]; intros w; simpl.
  - exists w, []. repeat split; simpl; rewrite ?app_nil_r, ?orb_false_r; done.
  - destruct (guarded_invoke cb data label w)
      as (w1 & a1 & E1 & L1 & T1 & N1 & I1 & D1).
    destruct (IH w1) as (w2 & a2 & E2 & L2 & T2 & N2 & I2 & D2).
    exists w2, (Invoke cb data :: a1 ++ a2).
    unfold bind. rewrite E1, E2. split; [done|].
    split; [by eapply sameLibrary_trans|].
    split; [rewrite T2, T1, <- app_assoc; done|].
    split; [simpl; fold (notifications (a1 ++ a2));
            by rewrite notifications_app, N1, N2|].
    split; [simpl; fold (invocations (a1 ++ a2));
            by rewrite invocations_app, I1, I2|].
    rewrite D2, D1, <- orb_assoc. f_equal.
    rewrite <- bool_decide_or. apply bool_decide_ext.
    rewrite elem_of_cons. split; intros [?|?]; auto.
Qed.

(** [emit] on an event that has listeners of its own, or that is not a
    name of [Object.prototype]. *)
Lemma emit_spec event data (w : @World S) :
  is_Some (eventListeners w !! event) ∨ event ∉ objectPrototype →
  let listeners := default [] (eventListeners w !! event) in
  ∃ w' added,
    emit subscriber event data w = (Normal tt, w')
    ∧ sameLibrary w w'
    ∧ trace w' = trace w ++ Notify event data :: added
    ∧ notifications added = []
    ∧ invocations added = map (fun cb => (cb, data)) listeners
    ∧ saveTimer w' = saveTimer w || bool_decide (DebouncedSave ∈ listeners).
Proof.
  intros Hev listeners. unfold emit, bind, modify, listenersOf.
  subst listeners. cbn [eventListeners log].
  destruct (eventListeners w !! event) as [ls|] eqn:El; cbn [default].
  - destruct (forEach_guarded data "Error in event listener:" ls
                (log (Notify event data) w))
      as (w' & added & E & L & T & N & I & D).
    exists w', added. rewrite E. repeat split; try apply L; try done.
    rewrite T. simpl. by rewrite <- app_assoc.
  - destruct Hev as [[? ?]|Hev]; [done|].
    rewrite bool_decide_eq_false_2 by done.
    eexists _, []. repeat split; simpl; rewrite ?orb_false_r; done.
Qed.

Lemma currentFileChanged_own_or_absent :
  "currentFileChanged" ∉ objectPrototype.
Proof. eapply bool_decide_eq_false_1. reflexivity. Qed.

Lemma filesChanged_own_or_absent : "filesChanged" ∉ objectPrototype.
Proof. eapply bool_decide_eq_false_1. reflexivity. Qed.

End EventFacts.

Section EmitProperties.

Context {S : Type} `{engine : !Utils.Engine}.
Variable subscriber : nat -> Payload -> S -> S * option JsError.

(** With listeners that leave the registry alone: for an event that has
    an array of listeners and every payload, [emit] calls the listeners in
    subscription order, each with that payload, whatever any of them
    throws: the calls recorded during [emit] are exactly one per listener,
    in order; and [emit] itself returns normally. *)
Theorem emit_calls_every_listener_in_order
    event listeners data (w : @World S) :
  eventListeners w !! event = Some listeners →
  fst (emit subscriber event data w) = Normal tt
  ∧ invocations (trace (snd (emit subscriber event data w)))
    = invocations (trace w) ++ map (fun cb => (cb, data)) listeners.
Proof.
  intros Hl.
  destruct (emit_spec subscriber event data w) as (w' & added & E & _ & T & _ & I & _).
  { left. by eexists. }
  rewrite E. simpl. split; [done|].
  rewrite T, invocations_app. simpl. fold (invocations added).
  by rewrite I, Hl.
Qed.

(** C4, as amended. [setCurrentFile] returns normally and leaves the
    current pointer equal to its argument. It emits one
    [currentFileChanged] notification carrying the argument whenever the
    argument is a file (the file that is already current included) or the
    current file is not none; when the argument is none and the current
    file is already none it changes nothing and emits nothing. *)
Theorem setCurrentFile_notifies_unless_none_to_none
    uuid file (w : @World S) :
  let w' := snd (setCurrentFile subscriber uuid file w) in
  fst (setCurrentFile subscriber uuid file w) = Normal tt
  ∧ currentFile w' = file
  ∧ (file ≠ None ∨ currentFile w ≠ None →
     notifications (trace w')
     = notifications (trace w) ++ [("currentFileChanged", CurrentFile file)])
  ∧ (file = None → currentFile w = None → w' = w).
Proof.
  cbv zeta. unfold setCurrentFile.
  destruct (bool_decide (currentFile w ≠ file) || bool_decide (file ≠ None))
    eqn:Hguard.
  - unfold bind, modify. cbn beta iota.
    set (w1 := set_forceUpdateTrigger uuid (set_currentFile file w)).
    destruct (emit_spec subscriber "currentFileChanged" (CurrentFile file) w1)
      as (w' & added & E & L & T & N & _).
    { right. apply currentFileChanged_own_or_absent. }
    rewrite E. cbn [fst snd]. split; [done|]. split.
    { destruct L as (_ & _ & Hc & _). by rewrite Hc. }
    split.
    + intros _. rewrite T, notifications_app. simpl.
      fold (notifications added). by rewrite N.
    + intros -> Hc. rewrite Hc in Hguard.
      by rewrite !bool_decide_eq_false_2 in Hguard by (intros ?; done).
  - cbn [fst snd]. apply orb_false_iff in Hguard as [H1 H2].
    apply bool_decide_eq_false in H1, H2.
    apply dec_stable in H1, H2. subst file.
    repeat split; try done. intros [?|?]; done.
Qed.

End EmitProperties.

(** With a third viewer that throws, the fourth listener still runs and
    the failure only reaches the console. *)
Example emit_isolates_failing_listener :
  emit faulty "currentFileChanged" (CurrentFile None) (emptyLibrary 0%nat)
  = (Normal tt,
     mkWorld [] [] None "00000000-0000-4000-8000-000000000000" (Some openDb)
       registry true false 4%nat
       [Notify "currentFileChanged" (CurrentFile None);
        Invoke (Subscriber 1) (CurrentFile None);
        Invoke (Subscriber 2) (CurrentFile None);
        ConsoleError "Error in event listener:" (JsError.mk "Error" "viewer failed");
        Invoke (Subscriber 3) (CurrentFile None);
        Invoke (Subscriber 4) (CurrentFile None)]).
Proof. reflexivity. Qed.

(** An event named like a property of [Object.prototype] has no array of
    listeners, and [emit] on it throws. *)
Example emit_inherited_property :
  fst (emit quiet "toString" (CurrentFile None) (emptyLibrary tt))
  = Throw (notCallable "forEach").
Proof. reflexivity. Qed.

Lemma emit_calls_every_listener_in_order_witness :
  eventListeners (emptyLibrary 0%nat) !! "currentFileChanged"
  = Some [Subscriber 1; Subscriber 2; Subscriber 3; Subscriber 4]
  ∧ fst (emit faulty "currentFileChanged" (CurrentFile None) (emptyLibrary 0%nat))
    = Normal tt
  ∧ invocations (trace (snd (emit faulty "currentFileChanged" (CurrentFile None)
                                  (emptyLibrary 0%nat))))
    = invocations (trace (emptyLibrary 0%nat))
      ++ map (fun cb => (cb, CurrentFile None))
             [Subscriber 1; Subscriber 2; Subscriber 3; Subscriber 4].
Proof.
  split; [reflexivity|].
  apply (emit_calls_every_listener_in_order faulty "currentFileChanged").
  reflexivity.
Defined.

(** C4, as stated, fails: with no current file, [setCurrentFile(null)]
    emits no notification at all. *)
Lemma setCurrentFile_none_to_none_is_silent :
  currentFile (emptyLibrary tt) = None
  ∧ notifications
      (trace (snd (setCurrentFile quiet "22222222-2222-4222-8222-222222222222"
                                  None (emptyLibrary tt)))) = [].
Proof. split; reflexivity. Qed.

(** Re-selecting the current file of [onePdf] notifies again. *)
Lemma setCurrentFile_notifies_unless_none_to_none_witness :
  (Some 0%nat ≠ None ∨ currentFile onePdf ≠ None)
  ∧ notifications
      (trace (snd (setCurrentFile quiet "22222222-2222-4222-8222-222222222222"
                                  (Some 0%nat) onePdf)))
    = notifications (trace onePdf)
      ++ [("currentFileChanged", CurrentFile (Some 0%nat))].
Proof.
  assert (H : Some 0%nat ≠ (None : option nat) ∨ currentFile onePdf ≠ None)
    by (left; discriminate).
  split; [exact H|].
  exact (proj1 (proj2 (proj2
    (setCurrentFile_notifies_unless_none_to_none quiet
       "22222222-2222-4222-8222-222222222222" (Some 0%nat) onePdf))) H).
Defined.

(** ** Listeners that unsubscribe while an event is dispatched *)

Section ReentrantFacts.

Context {S : Type}.
Variable subscriber : nat -> Payload -> S -> S * option JsError.

(** The listeners that leave the registry alone are those of the richer
    kind that make no calls: on them the two descriptions of [emit]
    agree. *)
Lemma invoke_plain cb data (w : @World S) :
  Reentrant.invoke (Reentrant.plain subscriber) cb data w
  = invoke subscriber cb data w.
Proof.
  unfold Reentrant.invoke, invoke, Reentrant.plain. destruct cb as [|k]; [done|].
  destruct (subscriber k data (outside (log (Invoke (Subscriber k) data) w)))
    as [s [e|]]; reflexivity.
Qed.

Lemma forEach_plain event data label all : ∀ ls k (w : @World S),
  eventListeners w !! event = Some all → drop k all = ls →
  Reentrant.forEach event
    (fun cb => try_catch (Reentrant.invoke (Reentrant.plain subscriber) cb data)
                         (fun error => consoleError label error))
    k (length ls) w
  = forEach (fun cb => try_catch (invoke subscriber cb data)
                                 (fun error => consoleError label error))
            ls w.
Proof.
  induction ls as [|cb ls IH]; intros k w Hall Hdrop; [done|].
  cbn [length Reentrant.forEach forEach]. rewrite Hall. simpl default.
  assert (Hk : all !! k = Some cb).
  { rewrite <- (Nat.add_0_r k), <- lookup_drop, Hdrop. done. }
  rewrite Hk. unfold bind.
  assert (Hf : try_catch (Reentrant.invoke (Reentrant.plain subscriber) cb data)
                         (fun error => consoleError label error) w
               = try_catch (invoke subscriber cb data)
                           (fun error => consoleError label error) w)
    by (unfold try_catch; by rewrite invoke_plain).
  rewrite Hf.
  destruct (guarded_invoke subscriber cb data label w)
    as (w1 & added & E & L & _).
  rewrite E. apply IH.
  - destruct L as (_ & _ & _ & _ & _ & He & _). by rewrite He.
  - rewrite (drop_S _ _ _ Hk) in Hdrop. by injection Hdrop.
Qed.

Lemma emit_plain event data (w : @World S) :
  Reentrant.emit (Reentrant.plain subscriber) event data w
  = emit subscriber event data w.
Proof.
  unfold Reentrant.emit, emit, bind, modify. cbn beta iota.
  unfold listenersOf. cbn [eventListeners log].
  destruct (eventListeners w !! event) as [ls|] eqn:El.
  - by apply (forEach_plain event data _ ls).
  - by case_bool_decide.
Qed.

End ReentrantFacts.

Section LiveDispatch.

Context {S : Type}.
Variable listener : nat -> Payload -> S -> S * list Reentrant.Call * option JsError.
Implicit Types (w : @World S) (cs : list Reentrant.Call).

(** The calls a listener makes keep the listeners of [event] and append
    to them, unless one is an [off] of that event; a call that throws
    ends them. *)
Lemma call_appends event c w cur :
  (∀ callback, c ≠ Reentrant.Off event callback) →
  eventListeners w !! event = Some cur →
  ∃ r w' extra,
    Reentrant.call c w = (r, w')
    ∧ eventListeners w' !! event = Some (cur ++ extra)
    ∧ trace w' = trace w.
Proof.
  intros Hoff Hcur. destruct c as [ev cb|ev cb]; cbn [Reentrant.call].
  - unfold on, listenersOf. destruct (decide (ev = event)) as [->|Hne].
    + rewrite Hcur. eexists _, _, [cb]. split; [done|].
      cbn. by rewrite lookup_insert_eq.
    + destruct (eventListeners w !! ev) as [ls|]; [|case_bool_decide];
        eexists _, _, []; (split; [done|]); cbn;
        rewrite ?lookup_insert_ne by done; by rewrite app_nil_r.
  - assert (Hne : ev ≠ event) by (intros ->; by eapply Hoff).
    unfold off, listenersOf.
    destruct (eventListeners w !! ev) as [ls|];
      [destruct (list_find _ ls) as [[index ?]|]|case_bool_decide];
      eexists _, _, []; (split; [done|]); cbn;
      rewrite ?lookup_insert_ne by done; by rewrite app_nil_r.
Qed.

Lemma calls_append event cs : ∀ w cur,
  (∀ callback, Reentrant.Off event callback ∉ cs) →
  eventListeners w !! event = Some cur →
  ∃ r w' extra,
    Reentrant.calls cs w = (r, w')
    ∧ eventListeners w' !! event = Some (cur ++ extra)
    ∧ trace w' = trace w.
Proof.
  induction cs as [|c cs IH]; intros w cur Hoff Hcur; cbn [Reentrant.calls].
  - eexists _, _, []. by rewrite app_nil_r.
  - destruct (call_appends event c w cur) as (r & w1 & e1 & E1 & L1 & T1);
      [|done|].
    { intros callback ->. eapply Hoff. left. }
    unfold bind. rewrite E1. destruct r as [[]|e].
    + destruct (IH w1 (cur ++ e1)) as (r & w2 & e2 & E2 & L2 & T2); [|done|].
      { intros callback Hin. eapply Hoff. right. exact Hin. }
      exists r, w2, (e1 ++ e2). rewrite E2, L2, T2, T1, app_assoc. done.
    + by exists (Throw e), w1, e1.
Qed.

(** One listener called under the [try]/[catch] of [emit]. *)
Lemma guarded_invoke_live event cb data label w cur :
  (∀ k s callback, cb = Subscriber k →
     Reentrant.Off event callback ∉ snd (fst (listener k data s))) →
  eventListeners w !! event = Some cur →
  ∃ w' extra added,
    try_catch (Reentrant.invoke listener cb data)
              (fun error => consoleError label error) w = (Normal tt, w')
    ∧ eventListeners w' !! event = Some (cur ++ extra)
    ∧ trace w' = trace w ++ Invoke cb data :: added
    ∧ notifications added = [] ∧ invocations added = [].
Proof.
  intros Hoff Hcur. unfold try_catch, Reentrant.invoke. destruct cb as [|k].
  - eexists _, [], []. cbn. by rewrite app_nil_r.
  - specialize (Hoff k (outside (log (Invoke (Subscriber k) data) w))).
    destruct (listener k data (outside (log (Invoke (Subscriber k) data) w)))
      as [[s cs] r]. cbn [fst snd] in Hoff.
    destruct (calls_append event cs
                (set_outside s (log (Invoke (Subscriber k) data) w)) cur)
      as (c & w1 & extra & E & L & T); [by intros; apply Hoff|done|].
    unfold bind. rewrite E. cbn [trace set_outside log] in T.
    destruct c as [[]|e]; [destruct r as [e|]|].
    + eexists _, extra, [ConsoleError label e]. split; [reflexivity|].
      cbn. by rewrite L, T, <- app_assoc.
    + eexists _, extra, []. split; [reflexivity|]. by rewrite L, T.
    + eexists _, extra, [ConsoleError label e]. split; [reflexivity|].
      cbn. by rewrite L, T, <- app_assoc.
Qed.

(** [forEach] over the live array visits the listeners that were
    subscribed when it started, as long as they stay at their places. *)
Lemma forEach_live event data label orig :
  (∀ k s callback, Subscriber k ∈ orig →
     Reentrant.Off event callback ∉ snd (fst (listener k data s))) →
  ∀ remaining k w extra,
    (k + remaining = length orig)%nat →
    eventListeners w !! event = Some (orig ++ extra) →
    ∃ w' extra',
      Reentrant.forEach event
        (fun cb => try_catch (Reentrant.invoke listener cb data)
                             (fun error => consoleError label error))
        k remaining w = (Normal tt, w')
      ∧ eventListeners w' !! event = Some (orig ++ extra')
      ∧ invocations (trace w')
        = invocations (trace w) ++ map (fun cb => (cb, data)) (drop k orig)
      ∧ notifications (trace w') = notifications (trace w).
Proof.
  intros Hoff. induction remaining as [|remaining IH];
    intros k w extra Hlen Hcur; cbn [Reentrant.forEach].
  - exists w, extra. rewrite drop_ge by lia. by rewrite app_nil_r.
  - rewrite Hcur. simpl default.
    destruct (lookup_lt_is_Some_2 orig k) as [cb Hcb]; [lia|].
    rewrite (lookup_app_l_Some _ _ _ _ Hcb).
    destruct (guarded_invoke_live event cb data label w (orig ++ extra))
      as (w1 & e1 & added & E & L & T & N & I); [|done|].
    { intros j s callback ->. apply Hoff. by eapply list_elem_of_lookup_2. }
    unfold bind. rewrite E. rewrite <- app_assoc in L.
    destruct (IH (Datatypes.S k) w1 (extra ++ e1)) as (w2 & e2 & E2 & L2 & I2 & N2);
      [lia|done|].
    exists w2, e2. rewrite E2, L2, I2, N2, T, (drop_S _ _ _ Hcb).
    rewrite invocations_app, notifications_app. cbn.
    fold (invocations added) (notifications added).
    by rewrite I, N, app_nil_r, <- app_assoc.
Qed.

(** C10, as amended. For an event that has listeners, or whose name is
    not that of a property inherited from [Object.prototype], for
    listeners none of which, when called, unsubscribes a listener of that
    event (they may subscribe more, to any event, and unsubscribe from
    other events), and for every payload: [emit] calls the listeners
    subscribed when it starts, in subscription order, each with that
    payload, whatever any of them throws, and itself returns normally. A
    listener subscribed during the dispatch is not called by it. *)
Theorem emit_calls_the_listeners_that_stay_subscribed event data w :
  is_Some (eventListeners w !! event) ∨ event ∉ objectPrototype →
  (∀ k s callback,
     Subscriber k ∈ default [] (eventListeners w !! event) →
     Reentrant.Off event callback ∉ snd (fst (listener k data s))) →
  fst (Reentrant.emit listener event data w) = Normal tt
  ∧ invocations (trace (snd (Reentrant.emit listener event data w)))
    = invocations (trace w)
      ++ map (fun cb => (cb, data)) (default [] (eventListeners w !! event))
  ∧ notifications (trace (snd (Reentrant.emit listener event data w)))
    = notifications (trace w) ++ [(event, data)].
Proof.
  intros Hev Hoff. unfold Reentrant.emit, bind, modify, listenersOf.
  cbn [eventListeners log].
  destruct (eventListeners w !! event) as [ls|] eqn:El; cbn [default] in *.
  - destruct (forEach_live event data "Error in event listener:" ls Hoff
                (length ls) 0%nat (log (Notify event data) w) [])
      as (w' & extra & E & _ & I & N); [done|by rewrite app_nil_r|].
    rewrite E. cbn [fst snd]. rewrite I, N. cbn [trace log].
    rewrite invocations_app, notifications_app, drop_0. cbn.
    by rewrite app_nil_r.
  - destruct Hev as [[? [=]]|Hev]. rewrite bool_decide_eq_false_2 by done.
    cbn. rewrite invocations_app, notifications_app. cbn.
    by rewrite !app_nil_r.
Qed.

End LiveDispatch.

(** The first of four listeners subscribes a fifth during the dispatch
    and the second throws: the four are called, in order, and the fifth,
    subscribed by then, is not. *)
Lemma emit_calls_the_listeners_that_stay_subscribed_witness :
  let w := emptyLibrary 0%nat in
  let data := CurrentFile None in
  let w' := snd (Reentrant.emit subscribing "currentFileChanged" data w) in
  (is_Some (eventListeners w !! "currentFileChanged")
   ∨ "currentFileChanged" ∉ objectPrototype)
  ∧ (∀ k s callback,
       Subscriber k ∈ default [] (eventListeners w !! "currentFileChanged") →
       Reentrant.Off "currentFileChanged" callback
       ∉ snd (fst (subscribing k data s)))
  ∧ fst (Reentrant.emit subscribing "currentFileChanged" data w) = Normal tt
  ∧ invocations (trace w')
    = [(Subscriber 1, data); (Subscriber 2, data); (Subscriber 3, data);
       (Subscriber 4, data)]
  ∧ eventListeners w' !! "currentFileChanged"
    = Some [Subscriber 1; Subscriber 2; Subscriber 3; Subscriber 4; Subscriber 7]
  ∧ eventListeners w' !! "filesChanged" = Some [DebouncedSave].
Proof.
  cbv zeta.
  assert (H1 : is_Some (eventListeners (emptyLibrary 0%nat) !! "currentFileChanged")
               ∨ "currentFileChanged" ∉ objectPrototype)
    by (left; by eexists).
  assert (H2 : ∀ k s callback,
             Subscriber k
             ∈ default [] (eventListeners (emptyLibrary 0%nat)
                             !! "currentFileChanged") →
             Reentrant.Off "currentFileChanged" callback
             ∉ snd (fst (subscribing k (CurrentFile None) s))).
  { intros k s callback _. cbn. case_bool_decide; [|apply not_elem_of_nil].
    intros Hin. repeat (apply elem_of_cons in Hin as [Hin|Hin]; [done|]).
    by apply elem_of_nil in Hin. }
  split; [exact H1|]. split; [exact H2|].
  destruct (emit_calls_the_listeners_that_stay_subscribed subscribing
              "currentFileChanged" (CurrentFile None) (emptyLibrary 0%nat) H1 H2)
    as (Hreturns & Hcalls & _).
  split; [exact Hreturns|]. split; [rewrite Hcalls; reflexivity|].
  split; by_computation.
Defined.

(** C10, as stated, fails. [emit] calls [forEach] on the array of the
    event, the array that [off] splices. With four listeners subscribed
    to [currentFileChanged], the first of which unsubscribes itself when
    it is called and none of which throws, [emit] calls the first, the
    third and the fourth: the second, still subscribed, is not called,
    because after the splice it sits at the index that has just been
    visited. And on an event named like a property of [Object.prototype],
    to which nobody can subscribe since [on] throws, [emit] itself throws
    a [TypeError]. *)
Theorem emit_skips_the_listener_after_one_that_unsubscribes :
  let w := emptyLibrary 0%nat in
  let data := CurrentFile None in
  let w' := snd (Reentrant.emit once "currentFileChanged" data w) in
  eventListeners w !! "currentFileChanged"
  = Some [Subscriber 1; Subscriber 2; Subscriber 3; Subscriber 4]
  ∧ fst (Reentrant.emit once "currentFileChanged" data w) = Normal tt
  ∧ trace w'
    = [Notify "currentFileChanged" data; Invoke (Subscriber 1) data;
       Invoke (Subscriber 3) data; Invoke (Subscriber 4) data]
  ∧ outside w' = 3%nat
  ∧ eventListeners w' !! "currentFileChanged"
    = Some [Subscriber 2; Subscriber 3; Subscriber 4]
  ∧ fst (on "toString" (Subscriber 1) w) = Throw (notCallable "push")
  ∧ fst (Reentrant.emit once "toString" data w) = Throw (notCallable "forEach")
  ∧ fst (emit (S:=nat) faulty "toString" data w) = Throw (notCallable "forEach").
Proof. cbv zeta. by_computation. Qed.

(** ** The store *)

Lemma get_put r d : IDB.get (IDB.id r) (IDB.put r d) = Some r.
Proof. unfold IDB.get, IDB.put. simpl. apply lookup_insert_eq. Qed.

Lemma get_delete key d : IDB.get key (IDB.delete key d) = None.
Proof. unfold IDB.get, IDB.delete. simpl. apply lookup_delete_eq. Qed.

Lemma transaction_open db d :
  IDB.transaction db = Normal d ↔ db = Some d ∧ IDB.closed d = false.
Proof.
  unfold IDB.transaction. destruct db as [d0|].
  - destruct (IDB.closed d0) eqn:Hc.
    + split; [discriminate | intros [[= ->] ?]; congruence].
    + split; [by intros [= ->] | by intros [[= ->] _]].
  - split; [discriminate | intros [? _]; discriminate].
Qed.

Lemma transaction_put r d :
  IDB.closed d = false →
  IDB.transaction (Some (IDB.put r d)) = Normal (IDB.put r d).
Proof. intros Hc. apply transaction_open. by split. Qed.

Lemma transaction_delete key d :
  IDB.closed d = false →
  IDB.transaction (Some (IDB.delete key d)) = Normal (IDB.delete key d).
Proof. intros Hc. apply transaction_open. by split. Qed.

(** ** The library *)

Section LibraryFacts.

Context {S : Type} `{engine : !Utils.Engine}.
Variable subscriber : nat -> Payload -> S -> S * option JsError.

(** [setCurrentFile] in general: it returns normally, touches only the
    current pointer and the trigger, and notifies under its guard. *)
Lemma setCurrentFile_spec uuid file (w : @World S) :
  ∃ w' added,
    setCurrentFile subscriber uuid file w = (Normal tt, w')
    ∧ heap w' = heap w ∧ files w' = files w ∧ db w' = db w
    ∧ eventListeners w' = eventListeners w
    ∧ debouncedSave w' = debouncedSave w
    ∧ currentFile w' = file
    ∧ trace w' = trace w ++ added
    ∧ notifications added
      = if bool_decide (currentFile w ≠ file) || bool_decide (file ≠ None)
        then [("currentFileChanged", CurrentFile file)] else [].
Proof.
  unfold setCurrentFile.
  destruct (bool_decide (currentFile w ≠ file) || bool_decide (file ≠ None))
    eqn:Hguard.
  - unfold bind, modify. cbn beta iota.
    set (w1 := set_forceUpdateTrigger uuid (set_currentFile file w)).
    destruct (emit_spec subscriber "currentFileChanged" (CurrentFile file) w1)
      as (w' & added & E & L & T & N & _).
    { right. apply currentFileChanged_own_or_absent. }
    destruct L as (Hh & Hf & Hc & _ & Hd & He & Hs).
    exists w', (Notify "currentFileChanged" (CurrentFile file) :: added).
    rewrite E, Hh, Hf, Hc, Hd, He, Hs, T. simpl.
    fold (notifications added). rewrite N. by repeat split.
  - exists w, []. apply orb_false_iff in Hguard as [H1 H2].
    apply bool_decide_eq_false in H1, H2.
    apply dec_stable in H1. rewrite app_nil_r. by repeat split.
Qed.

(** A content write that fails leaves the world as it was. *)
Lemma storeFileData_throw re pe fileId file (w : @World S) e :
  fst (storeFileData re pe fileId file w) = Throw e →
  storeFileData re pe fileId file w = (Throw e, w).
Proof.
  unfold storeFileData, bind, lift, transaction, fileToArrayBuffer, throw, modify.
  destruct re; simpl; [by intros [= ->]|].
  destruct (IDB.transaction (db w)); simpl; [|by intros [= ->]].
  destruct pe; simpl; [by intros [= ->] | done].
Qed.

(** A content write that succeeds found the store open and put the
    record under the given id. *)
Lemma storeFileData_normal re pe fileId file (w : @World S) :
  fst (storeFileData re pe fileId file w) = Normal tt →
  ∃ d, db w = Some d ∧ IDB.closed d = false ∧ re = None ∧ pe = None
       ∧ storeFileData re pe fileId file w
         = (Normal tt,
            set_db (Some (IDB.put (IDB.mkFileData fileId (File.bytes file)
                                     (File.type file) (File.name file)) d)) w).
Proof.
  unfold storeFileData, bind, lift, transaction, fileToArrayBuffer, throw, modify.
  destruct re; simpl; [done|].
  unfold IDB.transaction. destruct (db w) as [d|]; simpl; [|done].
  destruct (IDB.closed d) eqn:Hc; simpl; [done|].
  destruct pe; simpl; [done|]. intros _. by exists d.
Qed.

Lemma bind_normal {A B} (m : @M S A) (k : A → @M S B) w a w' :
  m w = (Normal a, w') → bind m k w = k a w'.
Proof. unfold bind. by intros ->. Qed.

Lemma bind_throw {A B} (m : @M S A) (k : A → @M S B) w e w' :
  m w = (Throw e, w') → bind m k w = (Throw e, w').
Proof. unfold bind. by intros ->. Qed.

Lemma try_catch_normal {A} (body : @M S A) handler w a w' :
  body w = (Normal a, w') → try_catch body handler w = (Normal a, w').
Proof. unfold try_catch. by intros ->. Qed.

Lemma try_catch_throw {A} (body : @M S A) handler w e w' :
  body w = (Throw e, w') → try_catch body handler w = handler e w'.
Proof. unfold try_catch. by intros ->. Qed.

(** C5, as amended. For every raw file whose import succeeds, [addFile]
    persists the content, allocates the new [MediaFile], appends it to
    the in-memory list, sets it as the current file and emits
    [currentFileChanged] (inside [setCurrentFile]) before it emits
    [filesChanged]: these are the two notifications of the call, in this
    order. The metadata is not written by [addFile]: its write is left to
    the debounced save, whose timer the [filesChanged] notification
    starts when that listener is subscribed. *)
Theorem addFile_notifies_current_then_files
    env file thumbnailDataUrl d (w : @World S) :
  thumbnail env = Normal thumbnailDataUrl →
  readError env = None → putError env = None →
  IDB.transaction (db w) = Normal d →
  let mediaFile := length (heap w) in
  ∃ w',
    addFile subscriber env file w = (Normal mediaFile, w')
    ∧ heap w' = heap w ++ [newMediaFile env file thumbnailDataUrl]
    ∧ files w' = files w ++ [mediaFile]
    ∧ currentFile w' = Some mediaFile
    ∧ db w' = Some (IDB.put (IDB.mkFileData (fileId env) (File.bytes file)
                               (File.type file) (File.name file)) d)
    ∧ notifications (trace w')
      = notifications (trace w)
        ++ [("currentFileChanged", CurrentFile (Some mediaFile));
            ("filesChanged", Files (files w ++ [mediaFile]))]
    ∧ (DebouncedSave ∈ default [] (eventListeners w !! "filesChanged") →
       saveTimer w' = true).
Proof.
  intros Hth Hre Hpe Htx mediaFile.
  set (record := IDB.mkFileData (fileId env) (File.bytes file)
                   (File.type file) (File.name file)).
  set (w1 := set_db (Some (IDB.put record d)) w).
  set (w2 := set_heap (heap w ++ [newMediaFile env file thumbnailDataUrl]) w1).
  set (w3 := set_files (files w ++ [mediaFile]) w2).
  assert (Hst : storeFileData (readError env) (putError env) (fileId env) file w
                = (Normal tt, w1)).
  { rewrite Hre, Hpe.
    unfold storeFileData, bind, lift, transaction, fileToArrayBuffer, modify.
    simpl. by rewrite Htx. }
  destruct (setCurrentFile_spec (trigger env) (Some mediaFile) w3)
    as (w4 & a1 & E4 & Hh4 & Hf4 & Hd4 & He4 & Hs4 & Hc4 & T4 & N4).
  rewrite orb_true_r in N4.
  destruct (emit_spec subscriber "filesChanged" (Files (files w4)) w4)
    as (w5 & a2 & E5 & L5 & T5 & N5 & _ & D5).
  { right. apply filesChanged_own_or_absent. }
  destruct L5 as (Hh5 & Hf5 & Hc5 & _ & Hd5 & He5 & _).
  exists (log (Toast (File.name file +:+ " を追加しました") "success") w5).
  split.
  { unfold addFile. apply try_catch_normal.
    erewrite bind_normal by (rewrite Hth; reflexivity).
    erewrite bind_normal by exact Hst.
    erewrite bind_normal by reflexivity.
    erewrite bind_normal by reflexivity.
    erewrite bind_normal by exact E4.
    erewrite bind_normal by exact E5.
    reflexivity. }
  cbn [log heap files currentFile db trace saveTimer].
  rewrite Hh5, Hf5, Hc5, Hd5, Hh4, Hf4, Hc4, Hd4.
  repeat split; try done.
  - rewrite !notifications_app, T5, !notifications_app, T4, notifications_app.
    simpl. fold (notifications a2). rewrite N5, N4, Hf4. simpl.
    by rewrite <- !app_assoc.
  - intros Hin. rewrite D5, He4. cbn [eventListeners w3 w2 w1 set_files set_heap set_db].
    rewrite (bool_decide_eq_true_2 _ Hin). apply orb_true_r.
Qed.

(** C1. If persisting the content fails during [addFile], then [addFile]
    fails, with the error of the write when the thumbnail step had
    passed, and the library is as before: the list, the current pointer,
    the heap of file objects and the store are unchanged, and no
    notification is emitted. *)
Theorem addFile_fails_when_content_write_fails env file e (w : @World S) :
  fst (storeFileData (readError env) (putError env) (fileId env) file w)
  = Throw e →
  ∃ e' w',
    addFile subscriber env file w = (Throw e', w')
    ∧ (isThrow (thumbnail env) = false → e' = e)
    ∧ sameLibrary w w'
    ∧ notifications (trace w') = notifications (trace w).
Proof.
  intros Hst%storeFileData_throw.
  unfold addFile.
  destruct (thumbnail env) as [th|e0] eqn:Hth.
  - exists e. eexists. split.
    { erewrite try_catch_throw.
      2:{ erewrite bind_normal by reflexivity.
          erewrite bind_throw by exact Hst. reflexivity. }
      reflexivity. }
    split; [done|]. split; [by repeat split|].
    cbn [log trace]. by rewrite !notifications_app, !app_nil_r.
  - exists e0. eexists. split.
    { erewrite try_catch_throw by (erewrite bind_throw by reflexivity; reflexivity).
      reflexivity. }
    split; [done|]. split; [by repeat split|].
    cbn [log trace]. by rewrite !notifications_app, !app_nil_r.
Qed.

(** [removeFile] when the delete transaction opens. *)
Lemma removeFile_store_open uuid deleteFails file d (w : @World S) :
  IDB.transaction (db w) = Normal d →
  let remaining := filter (fun f => idOf w f ≠ idOf w file) (files w) in
  ∃ w',
    removeFile subscriber uuid deleteFails file w = (Normal tt, w')
    ∧ heap w' = heap w
    ∧ files w' = remaining
    ∧ currentFile w' = (if isCurrent w file then head remaining else currentFile w)
    ∧ db w' = (if deleteFails then db w else Some (IDB.delete (idOf w file) d)).
Proof.
  intros Htx remaining.
  set (w1 := set_files remaining w).
  set (w2 := if deleteFails then w1
             else set_db (Some (IDB.delete (idOf w1 file) d)) w1).
  assert (H2 : heap w2 = heap w ∧ files w2 = remaining
               ∧ currentFile w2 = currentFile w
               ∧ db w2 = (if deleteFails then db w
                          else Some (IDB.delete (idOf w file) d))).
  { subst w2. by destruct deleteFails. }
  destruct H2 as (Hh2 & Hf2 & Hc2 & Hd2).
  assert (Hcur : isCurrent w2 file = isCurrent w file).
  { unfold isCurrent, idOf. by rewrite Hc2, Hh2. }
  assert (∃ w3, (if isCurrent w2 file
                 then setCurrentFile subscriber uuid (head (files w2)) w2
                 else (Normal tt, w2)) = (Normal tt, w3)
                ∧ heap w3 = heap w2 ∧ files w3 = files w2 ∧ db w3 = db w2
                ∧ currentFile w3 = (if isCurrent w file then head remaining
                                    else currentFile w))
    as (w3 & E3 & Hh3 & Hf3 & Hd3 & Hc3).
  { rewrite Hcur. destruct (isCurrent w file).
    - destruct (setCurrentFile_spec uuid (head (files w2)) w2)
        as (w3 & a & E & Hh & Hf & Hd & _ & _ & Hc & _).
      exists w3. repeat split; try assumption. by rewrite Hc, Hf2.
    - exists w2. by repeat split. }
  destruct (emit_spec subscriber "filesChanged" (Files (files w3)) w3)
    as (w4 & a & E4 & L4 & _).
  { right. apply filesChanged_own_or_absent. }
  destruct L4 as (Hh4 & Hf4 & Hc4 & _ & Hd4 & _).
  eexists. split.
  { unfold removeFile. apply try_catch_normal.
    erewrite bind_normal by reflexivity.
    erewrite bind_normal by (unfold transaction; cbn [db set_files]; rewrite Htx; reflexivity).
    erewrite bind_normal by reflexivity.
    erewrite bind_normal by exact E3.
    erewrite bind_normal by exact E4.
    reflexivity. }
  cbn [log heap files currentFile db].
  rewrite Hh4, Hf4, Hc4, Hd4, Hh3, Hf3, Hd3, Hc3. done.
Qed.

(** [removeFile] when the delete transaction cannot be opened: the list
    has lost the file, and nothing else has happened. *)
Lemma removeFile_store_fails uuid deleteFails file e (w : @World S) :
  IDB.transaction (db w) = Throw e →
  ∃ w',
    removeFile subscriber uuid deleteFails file w = (Normal tt, w')
    ∧ files w' = filter (fun f => idOf w f ≠ idOf w file) (files w)
    ∧ currentFile w' = currentFile w
    ∧ notifications (trace w') = notifications (trace w).
Proof.
  intros Htx. eexists. split.
  { unfold removeFile. erewrite try_catch_throw.
    2:{ erewrite bind_normal by reflexivity.
        erewrite bind_throw
          by (unfold transaction; cbn [db set_files]; rewrite Htx; reflexivity).
        reflexivity. }
    reflexivity. }
  cbn [log files currentFile trace set_files].
  by rewrite !notifications_app, !app_nil_r.
Qed.

(** When the store answers, [removeFile] keeps the current file in the
    list, and a removed current file is replaced by the first remaining
    file, or none. *)
Lemma removeFile_keeps_current_in_list uuid deleteFails file d (w : @World S) :
  IDB.transaction (db w) = Normal d →
  currentInList w →
  let w' := snd (removeFile subscriber uuid deleteFails file w) in
  currentInList w'
  ∧ (isCurrent w file = true → currentFile w' = head (files w')).
Proof.
  intros Htx Hinv.
  destruct (removeFile_store_open uuid deleteFails file d w Htx)
    as (w' & E & Hh & Hf & Hc & _).
  cbv zeta. rewrite E. cbn [snd]. split.
  - unfold currentInList. rewrite Hc, Hf.
    destruct (isCurrent w file) eqn:Hcur.
    + destruct (head _) as [c|] eqn:Hhd; [|done].
      by eapply head_Some_elem_of.
    + unfold currentInList, isCurrent in *.
      destruct (currentFile w) as [c|]; [|done].
      apply bool_decide_eq_false in Hcur.
      apply list_elem_of_filter. by split.
  - intros Hcur. by rewrite Hc, Hf, Hcur.
Qed.

(** C3. Content round-trips through the store: after a content write that
    succeeded, [getFileData] on the same id returns the bytes of the file
    that was written, with its declared type. For an id under which the
    store holds nothing, because nothing was written or because
    [removeFile] deleted it, [getFileData] never returns a value, and
    what it fails with, when the store itself answers, is the error
    "File data not found". *)
Theorem content_round_trip :
  (∀ re pe fileId file (w : @World S),
     fst (storeFileData re pe fileId file w) = Normal tt →
     let w' := snd (storeFileData re pe fileId file w) in
     getFileData None fileId w'
     = (Normal (Blob.mk (File.bytes file) (File.type file)), w'))
  ∧ (∀ requestError fileId (w : @World S),
       (∀ d, db w = Some d → IDB.fileData d !! fileId = None) →
       isThrow (fst (getFileData requestError fileId w)) = true)
  ∧ (∀ fileId d (w : @World S),
       IDB.transaction (db w) = Normal d →
       IDB.fileData d !! fileId = None →
       getFileData None fileId w = (Throw notFound, w))
  ∧ (∀ uuid file d (w : @World S),
       IDB.transaction (db w) = Normal d →
       let w' := snd (removeFile subscriber uuid false file w) in
       getFileData None (idOf w file) w' = (Throw notFound, w')).
Proof.
  repeat split.
  - intros re pe fileId file w (d & Hdb & Hcl & -> & -> & E)%storeFileData_normal.
    cbv zeta. rewrite E. cbn [snd].
    unfold getFileData, bind, transaction. cbn [db set_db].
    rewrite transaction_put by done.
    by rewrite (get_put (IDB.mkFileData fileId _ _ _)).
  - intros requestError fileId w Hnone.
    unfold getFileData, bind, transaction, IDB.transaction.
    destruct (db w) as [d|] eqn:Hdb; [|done].
    destruct (IDB.closed d); [done|].
    destruct requestError; [done|].
    unfold IDB.get. by rewrite (Hnone d eq_refl).
  - intros fileId d w Htx Hnone.
    unfold getFileData, bind, transaction. rewrite Htx.
    unfold IDB.get. by rewrite Hnone.
  - intros uuid file d w Htx.
    destruct (removeFile_store_open uuid false file d w Htx)
      as (w' & E & _ & _ & _ & Hd).
    cbv zeta. rewrite E. cbn [snd].
    unfold getFileData, bind, transaction. rewrite Hd.
    apply transaction_open in Htx as [_ Hcl].
    rewrite transaction_delete by done. by rewrite get_delete.
Qed.

End LibraryFacts.

Lemma addFile_fails_when_content_write_fails_witness :
  fst (storeFileData (readError (importFull "id-x")) (putError (importFull "id-x"))
         (fileId (importFull "id-x")) aPdf (emptyLibrary tt))
  = Throw quotaExceeded
  ∧ ∃ e' w',
      addFile quiet (importFull "id-x") aPdf (emptyLibrary tt) = (Throw e', w')
      ∧ (isThrow (thumbnail (importFull "id-x")) = false → e' = quotaExceeded)
      ∧ sameLibrary (emptyLibrary tt) w'
      ∧ notifications (trace w') = notifications (trace (emptyLibrary tt)).
Proof.
  split; [reflexivity|].
  apply (addFile_fails_when_content_write_fails quiet (importFull "id-x") aPdf
           quotaExceeded (emptyLibrary tt)).
  reflexivity.
Defined.

(** After the failed import the list is still empty and nothing is current. *)
Example addFile_quota_exceeded :
  let r := addFile quiet (importFull "id-x") aPdf (emptyLibrary tt) in
  fst r = Throw quotaExceeded
  ∧ files (snd r) = [] ∧ currentFile (snd r) = None ∧ heap (snd r) = []
  ∧ db (snd r) = Some openDb.
Proof. repeat split; reflexivity. Qed.

Lemma content_round_trip_witness :
  fst (storeFileData None None "id-a" aPdf (emptyLibrary tt)) = Normal tt
  ∧ fst (getFileData None "id-a"
           (snd (storeFileData None None "id-a" aPdf (emptyLibrary tt))))
    = Normal (Blob.mk [Byte.x25; Byte.x50; Byte.x44; Byte.x46] "application/pdf").
Proof.
  split; [reflexivity|].
  pose proof (proj1 (content_round_trip quiet) None None "id-a" aPdf
                (emptyLibrary tt) eq_refl) as H.
  cbv zeta in H. rewrite H. reflexivity.
Defined.

(** C5, as stated, fails: in the trace of a successful [addFile] the
    notification [currentFileChanged] comes first and [filesChanged]
    second. *)
Lemma addFile_emits_currentFileChanged_first :
  fst (addFile quiet (importOk "id-a" (Some 3)) aPdf (emptyLibrary tt))
  = Normal 0%nat
  ∧ events (trace (snd (addFile quiet (importOk "id-a" (Some 3)) aPdf
                          (emptyLibrary tt))))
    = ["currentFileChanged"; "filesChanged"].
Proof. split; reflexivity. Qed.

Lemma addFile_notifies_current_then_files_witness :
  thumbnail (importOk "id-a" (Some 3)) = Normal "data:image/jpeg;base64,"
  ∧ readError (importOk "id-a" (Some 3)) = None
  ∧ putError (importOk "id-a" (Some 3)) = None
  ∧ IDB.transaction (db (emptyLibrary tt)) = Normal openDb
  ∧ ∃ w',
      addFile quiet (importOk "id-a" (Some 3)) aPdf (emptyLibrary tt)
      = (Normal 0%nat, w')
      ∧ files w' = [0%nat] ∧ currentFile w' = Some 0%nat
      ∧ notifications (trace w')
        = [("currentFileChanged", CurrentFile (Some 0%nat));
           ("filesChanged", Files [0%nat])]
      ∧ saveTimer w' = true.
Proof.
  repeat (split; [reflexivity|]).
  destruct (addFile_notifies_current_then_files quiet (importOk "id-a" (Some 3))
              aPdf "data:image/jpeg;base64," openDb (emptyLibrary tt)
              eq_refl eq_refl eq_refl eq_refl)
    as (w' & E & _ & Hf & Hc & _ & Hn & Hs).
  exists w'. repeat split; try assumption.
  apply Hs. cbn. left.
Defined.

(** C2 fails on the code. After an import, when the platform has closed
    the connection, removing the current file empties the list but leaves
    the removed file current, and neither notification is emitted:
    [this.db.transaction] throws after the list was filtered and before
    the selection is updated, and the [catch] only reports. The sibling
    [removeAllFiles] resets the selection before it touches the store. *)
Theorem removeFile_leaves_removed_file_current :
  let w := connectionLost onePdf in
  let w' := snd (removeFile quiet "22222222-2222-4222-8222-222222222222"
                            false 0%nat w) in
  currentInList w
  ∧ isCurrent w 0%nat = true
  ∧ files w' = [] ∧ currentFile w' = Some 0%nat
  ∧ ¬ currentInList w'
  ∧ notifications (trace w') = notifications (trace w).
Proof.
  cbv zeta.
  assert (Hc : currentFile (connectionLost onePdf) = Some 0%nat)
    by (vm_compute; reflexivity).
  assert (Hf : files (connectionLost onePdf) = [0%nat])
    by (vm_compute; reflexivity).
  set (w' := snd (removeFile quiet _ false 0%nat (connectionLost onePdf))).
  assert (Hc' : currentFile w' = Some 0%nat) by (vm_compute; reflexivity).
  assert (Hf' : files w' = []) by (vm_compute; reflexivity).
  unfold currentInList. rewrite Hc, Hf, Hc', Hf'.
  split; [by left|]. split; [vm_compute; reflexivity|].
  split; [done|]. split; [done|].
  split; [by intros ?%elem_of_nil|]. vm_compute; reflexivity.
Qed.

(** The same removal on an open connection selects none. *)
Example removeFile_only_file :
  let w' := snd (removeFile quiet "22222222-2222-4222-8222-222222222222"
                            false 0%nat onePdf) in
  files w' = [] ∧ currentFile w' = None
  ∧ events (trace w') = events (trace onePdf) ++ ["currentFileChanged"; "filesChanged"]
  ∧ fst (getFileData None "id-a" w') = Throw notFound.
Proof. cbv zeta. by_computation. Qed.

(** [removeAllFiles] on a closed connection still clears the selection. *)
Example removeAllFiles_connection_lost :
  let w' := snd (removeAllFiles quiet "22222222-2222-4222-8222-222222222222"
                                None (connectionLost onePdf)) in
  files w' = [] ∧ currentFile w' = None.
Proof. cbv zeta. split; vm_compute; reflexivity. Qed.

(** ** Media types *)

Section MediaTypeFacts.

Context `{engine : !Utils.Engine}.

Lemma split_nonempty sep s : Utils.split sep s ≠ [].
Proof. destruct s as [|c s]; simpl; repeat case_match; done. Qed.

(** A file name always has an extension in the sense of [getMediaType]:
    the part after its last dot, or the whole name. *)
Lemma extension_is_Some fileName : is_Some (Utils.extension fileName).
Proof.
  unfold Utils.extension, Utils.pop. apply last_is_Some, split_nonempty.
Qed.

(** [recognized] says that the extension is in one of the three lists. *)
Lemma recognized_iff fileName :
  Utils.recognized fileName = true ↔
  ∃ e, Utils.extension fileName = Some e
       ∧ e ∈ Utils.pdfExtensions ++ Utils.imageExtensions ++ Utils.videoExtensions.
Proof.
  unfold Utils.recognized.
  destruct (extension_is_Some fileName) as [e ->]. unfold Utils.includes.
  rewrite !orb_true_iff, !bool_decide_eq_true. split.
  - intros H. exists e. split; [done|]. rewrite !elem_of_app. tauto.
  - intros (e' & [= <-] & H). rewrite !elem_of_app in H. tauto.
Qed.

(** On a name of ASCII characters the media type is the one computed
    with the lower-casing of the ASCII letters, whatever the engine. *)
Lemma getMediaType_ascii fileName :
  Utils.isAscii fileName = true →
  Utils.getMediaType fileName = @Utils.getMediaType asciiEngine fileName.
Proof.
  intros Hascii. unfold Utils.getMediaType, Utils.extension.
  by rewrite Utils.String_toLowerCase_ascii.
Qed.

End MediaTypeFacts.

Section MediaTypeProperties.

Context `{engine : !Utils.Engine}.

(** C9. Whatever [toLowerCase] the engine has, [getMediaType] is a total
    function from file names onto [pdf], [image], [video]; on every name
    whose extension is none of the recognized ones its value is [pdf];
    and the validity check of the import accepts every file. *)
Theorem getMediaType_defaults_to_pdf :
  (∀ fileName, Utils.getMediaType fileName ∈ ["pdf"; "image"; "video"])
  ∧ (∀ mediaType, mediaType ∈ ["pdf"; "image"; "video"] →
       ∃ fileName, Utils.getMediaType fileName = mediaType)
  ∧ (∀ fileName, Utils.recognized fileName = false →
       Utils.getMediaType fileName = "pdf")
  ∧ (∀ file, PinkReaderApp.isValidFile file = true).
Proof.
  assert (Hrange : ∀ fileName,
             Utils.getMediaType fileName ∈ ["pdf"; "image"; "video"]).
  { intros fileName. unfold Utils.getMediaType.
    repeat case_match; set_solver. }
  split; [exact Hrange|]. split; [|split].
  - intros mediaType Hin.
    apply elem_of_cons in Hin as [->|Hin];
      [exists "a.pdf"; by rewrite getMediaType_ascii|].
    apply elem_of_cons in Hin as [->|Hin];
      [exists "b.png"; by rewrite getMediaType_ascii|].
    apply elem_of_cons in Hin as [->|Hin];
      [exists "c.mp4"; by rewrite getMediaType_ascii|].
    by apply elem_of_nil in Hin.
  - intros fileName. unfold Utils.recognized, Utils.getMediaType.
    intros H. apply orb_false_iff in H as [H Hv].
    apply orb_false_iff in H as [Hp Hi]. by rewrite Hp, Hi, Hv.
  - intros file. unfold PinkReaderApp.isValidFile, Utils.includes.
    apply bool_decide_eq_true_2, Hrange.
Qed.

(** What the function answers on some names, whatever the engine. *)
Example getMediaType_png : Utils.getMediaType "b.PNG" = "image".
Proof. by rewrite getMediaType_ascii. Qed.
Example getMediaType_nested_dots : Utils.getMediaType "dir.v1/c.tar.mp4" = "video".
Proof. by rewrite getMediaType_ascii. Qed.
Example getMediaType_no_dot : Utils.getMediaType "README" = "pdf".
Proof. by rewrite getMediaType_ascii. Qed.
Example getMediaType_bare_extension : Utils.getMediaType "png" = "image".
Proof. by rewrite getMediaType_ascii. Qed.
Example isValidFile_executable :
  PinkReaderApp.isValidFile (File.mk "setup.exe" 0 "application/octet-stream" []) = true.
Proof.
  unfold PinkReaderApp.isValidFile, Utils.includes, Utils.getMediaType.
  apply bool_decide_eq_true_2. repeat case_match; set_solver.
Qed.

End MediaTypeProperties.

(** An upper-case letter outside ASCII: with an engine that lower-cases
    the Kelvin sign to [k], the file below is a video. *)
Example getMediaType_kelvin_sign :
  @Utils.String_toLowerCase kelvinEngine "a.mKv" = "a.mkv"
  ∧ @Utils.recognized kelvinEngine "a.mKv" = true
  ∧ @Utils.getMediaType kelvinEngine "a.mKv" = "video".
Proof. by_computation. Qed.

Lemma getMediaType_defaults_to_pdf_witness :
  Utils.recognized "notes.txt" = false ∧ Utils.getMediaType "notes.txt" = "pdf".
Proof.
  split; [reflexivity|].
  apply (proj1 (proj2 (proj2 getMediaType_defaults_to_pdf))). reflexivity.
Defined.

(** ** The PDF viewer *)

Section PDFViewerFacts.

Context {S : Type} `{engine : !Utils.Engine}.
Implicit Types (v : PDFViewer.t) (w : @World S).

Lemma renderPage_currentPage st :
  PDFViewer.currentPage (fst (PDFViewer.renderPage (S:=S) st))
  = PDFViewer.currentPage (fst st).
Proof.
  destruct st as [v w]. unfold PDFViewer.renderPage.
  repeat case_match; try done.
  unfold PDFViewer.cancelRenderTask. simpl. by repeat case_match.
Qed.

(** [goToPage(n)] on a loaded document leaves the current page at [n]
    clamped to [1, totalPages]. *)
Lemma goToPage_clamps n numPages v w :
  PDFViewer.pdfDocument v = Some numPages →
  PDFViewer.currentPage (fst (PDFViewer.goToPage n (v, w)))
  = Z.max 1 (Z.min n (PDFViewer.totalPages v)).
Proof.
  intros Hdoc. unfold PDFViewer.goToPage. rewrite Hdoc.
  rewrite bool_decide_eq_true_2 by by eexists. cbn [negb].
  case_bool_decide as Heq; [done|].
  by rewrite renderPage_currentPage.
Qed.

Lemma clamp_in_range n total :
  1 ≤ total → 1 ≤ Z.max 1 (Z.min n total) ≤ total.
Proof. lia. Qed.

(** [goToPage(n)] is a no-op when the clamped value is the current page:
    no field changes, nothing is rendered, nothing reaches the library. *)
Lemma goToPage_noop n v w :
  Z.max 1 (Z.min n (PDFViewer.totalPages v)) = PDFViewer.currentPage v →
  PDFViewer.goToPage n (v, w) = (v, w).
Proof.
  intros Heq. unfold PDFViewer.goToPage.
  destruct (negb _); [done|]. by rewrite bool_decide_eq_true_2.
Qed.

Lemma cancelRenderTask_isRendering v :
  PDFViewer.isRendering (PDFViewer.cancelRenderTask v) = PDFViewer.isRendering v.
Proof. unfold PDFViewer.cancelRenderTask. by repeat case_match. Qed.

(** The guard of [renderPage]. *)
Lemma renderPage_guarded v w :
  PDFViewer.isRendering v = true → PDFViewer.renderPage (v, w) = (v, w).
Proof.
  intros Hr. unfold PDFViewer.renderPage. by rewrite Hr, orb_true_r.
Qed.

(** While [isRendering] is set, a request changes the page number and
    what [updatePageInfo] shows, and nothing else: the suspended render,
    its task and the canvas stay as they are. *)
Lemma goToPage_while_rendering n v w :
  PDFViewer.isRendering v = true →
  let v' := fst (PDFViewer.goToPage n (v, w)) in
  PDFViewer.pending v' = PDFViewer.pending v
  ∧ PDFViewer.renderTask v' = PDFViewer.renderTask v
  ∧ PDFViewer.canvas v' = PDFViewer.canvas v
  ∧ PDFViewer.isRendering v' = true
  ∧ snd (PDFViewer.goToPage n (v, w)) = w.
Proof.
  intros Hr. unfold PDFViewer.goToPage.
  destruct (negb (bool_decide (is_Some (PDFViewer.pdfDocument v)))); [done|].
  case_bool_decide; [done|].
  by rewrite renderPage_guarded.
Qed.

(** A suspended [renderPage] holds [isRendering]: the guard of
    [renderPage] is passed only when no render is awaited, so the
    [cancel] behind the guard never reaches a render in flight. *)
Lemma renderPage_renderingWhilePending st :
  renderingWhilePending (fst st) →
  renderingWhilePending (fst (PDFViewer.renderPage (S:=S) st)).
Proof.
  destruct st as [v w]. unfold PDFViewer.renderPage, renderingWhilePending.
  intros Hinv. destruct (negb _ || _) eqn:Hg; [done|].
  intros _. cbn [fst PDFViewer.set_pending PDFViewer.isRendering].
  destruct (bool_decide (is_Some (PDFViewer.renderTask _)));
    [rewrite cancelRenderTask_isRendering|]; done.
Qed.

Lemma step_renderingWhilePending e st :
  renderingWhilePending (fst st) →
  renderingWhilePending (fst (PDFViewer.step (S:=S) e st)).
Proof.
  intros Hinv. destruct st as [v w].
  destruct e as [file numPages| |n| |failure|failure];
    unfold PDFViewer.step; cbn [fst].
  - unfold PDFViewer.loadPDF. apply renderPage_renderingWhilePending.
    exact Hinv.
  - unfold PDFViewer.clearPDF, renderingWhilePending in *. simpl.
    unfold PDFViewer.cancelRenderTask.
    repeat case_match; simpl in *; auto.
  - unfold PDFViewer.goToPage. repeat case_match; try exact Hinv.
    apply renderPage_renderingWhilePending. exact Hinv.
  - apply renderPage_renderingWhilePending. exact Hinv.
  - unfold renderingWhilePending in *. cbn [fst] in Hinv.
    destruct (PDFViewer.pending v) as [[p|p c]|] eqn:Hp, failure;
      simpl; rewrite ?Hp; try exact Hinv; try (by intros [? [=]]).
    intros _. apply Hinv. by eexists.
  - unfold renderingWhilePending in *. cbn [fst] in Hinv.
    destruct (PDFViewer.pending v) as [[p|p [|]]|] eqn:Hp, failure;
      simpl; rewrite ?Hp; try exact Hinv; by intros [? [=]].
Qed.

Lemma run_renderingWhilePending events : ∀ st,
  renderingWhilePending (fst st) →
  renderingWhilePending (fst (PDFViewer.run (S:=S) events st)).
Proof.
  induction events as [|e events IH]; intros st Hinv; [done|].
  apply IH, step_renderingWhilePending, Hinv.
Qed.

End PDFViewerFacts.

(** ** Viewing positions in the library *)

Section PositionFacts.

Context {S : Type} `{engine : !Utils.Engine}.
Implicit Types (w : @World S).

Lemma unique_id_inj w f g :
  NoDup (idOf w <$> files w) →
  f ∈ files w → g ∈ files w → idOf w f = idOf w g → f = g.
Proof.
  generalize (files w). intros l. induction l as [|x l IH]; intros Hnd Hf Hg Hid.
  - by apply elem_of_nil in Hf.
  - rewrite fmap_cons in Hnd. apply NoDup_cons in Hnd as [Hx Hnd].
    apply elem_of_cons in Hf as [->|Hf], Hg as [->|Hg]; auto.
    + exfalso. apply Hx. rewrite Hid. by apply list_elem_of_fmap_2.
    + exfalso. apply Hx. rewrite <- Hid. by apply list_elem_of_fmap_2.
Qed.

(** For a file of the list, with ids unique in the list, the update
    reaches the object of that file and asks for a save. *)
Lemma updateField_listed assign file w :
  file ∈ files w → (file < length (heap w))%nat →
  NoDup (idOf w <$> files w) →
  (∀ f, MediaFile.id (assign f) = MediaFile.id f) →
  (∀ f, assign (assign f) = assign f) →
  let w' := snd (updateField assign file w) in
  heap w' !!! file = assign (heap w !!! file)
  ∧ files w' = files w ∧ currentFile w' = currentFile w
  ∧ (debouncedSave w = true → saveTimer w' = true).
Proof.
  intros Hin Hlt Hnd Hid Hidem. cbv zeta. unfold updateField.
  destruct (list_find_elem_of (fun f => idOf w f = idOf w file) (files w) file)
    as [[i entry] Hfind]; [done..|].
  rewrite Hfind.
  apply list_find_Some in Hfind as (Hi & Hsame & _).
  assert (entry = file) as ->.
  { apply (unique_id_inj w); [done| |done..]. by eapply list_elem_of_lookup_2. }
  unfold bind, modify, callDebouncedSave. cbn [set_heap currentFile heap].
  set (h1 := alter assign file (heap w)).
  assert (H1 : h1 !!! file = assign (heap w !!! file))
    by by apply list_lookup_total_alter_eq.
  destruct (currentFile w) as [c|] eqn:Hc.
  - unfold idOf at 1 2. cbn [heap].
    destruct (bool_decide _) eqn:Hb; cbn [debouncedSave set_heap heap].
    + assert (H2 : alter assign c h1 !!! file = assign (heap w !!! file)).
      { rewrite list_lookup_total_alter.
        destruct (decide (c = file ∧ (c < length h1)%nat)) as [[-> _]|];
          [by rewrite H1, Hidem | done]. }
      destruct (debouncedSave w); cbn; rewrite ?Hc; repeat split; try done.
    + destruct (debouncedSave w); cbn; rewrite ?Hc; repeat split; try done.
  - cbn [debouncedSave set_heap heap].
    destruct (debouncedSave w); cbn; rewrite ?Hc; repeat split; try done.
Qed.

End PositionFacts.

(** ** Rendering and the persisted page *)

Section RenderFacts.

Context {S : Type} `{engine : !Utils.Engine}.
Implicit Types (v : PDFViewer.t) (w : @World S).

(** A render that completes paints the page it had fetched and hands the
    viewer's current page, as it is then, to the library. *)
Lemma renderPage_rendered_persists_current_page p file v w :
  PDFViewer.currentFile v = Some file →
  file ∈ files w → (file < length (heap w))%nat →
  NoDup (idOf w <$> files w) →
  let st' := PDFViewer.renderPage_rendered p (v, w) in
  PDFViewer.canvas (fst st') = Some p
  ∧ MediaFile.lastViewedPage (heap (snd st') !!! file) = PDFViewer.currentPage v
  ∧ PDFViewer.isRendering (fst st') = false
  ∧ PDFViewer.pending (fst st') = None.
Proof.
  intros Hfile Hin Hlt Hnd. cbv zeta. unfold PDFViewer.renderPage_rendered.
  cbn [fst snd PDFViewer.set_isRendering PDFViewer.set_pending
       PDFViewer.set_renderTask PDFViewer.set_canvas PDFViewer.canvas
       PDFViewer.isRendering PDFViewer.pending PDFViewer.currentFile
       PDFViewer.currentPage].
  rewrite Hfile. repeat split.
  unfold updateLastViewedPage.
  destruct (updateField_listed (MediaFile.set_lastViewedPage (PDFViewer.currentPage v))
              file w Hin Hlt Hnd) as (Hh & _); [done..|].
  by rewrite Hh.
Qed.

End RenderFacts.

(** The scenario of the specification, each request left to complete:
    after [goToPage(2)] the library holds page 2, after [goToPage(99)]
    page 3, and the canvas shows it. *)
Example goToPage_one_at_a_time :
  let st2 := PDFViewer.run [PDFViewer.GoToPage 2; PDFViewer.GetPageSettled None;
                            PDFViewer.RenderSettled None] pdfShown in
  let st3 := PDFViewer.run [PDFViewer.GoToPage 99; PDFViewer.GetPageSettled None;
                            PDFViewer.RenderSettled None] st2 in
  MediaFile.lastViewedPage (heap (snd pdfShown) !!! 0%nat) = 1
  ∧ MediaFile.lastViewedPage (heap (snd st2) !!! 0%nat) = 2
  ∧ PDFViewer.canvas (fst st2) = Some 2
  ∧ PDFViewer.currentPage (fst st3) = 3
  ∧ MediaFile.lastViewedPage (heap (snd st3) !!! 0%nat) = 3
  ∧ PDFViewer.canvas (fst st3) = Some 3.
Proof. cbv zeta. by_computation. Qed.

(** C8 fails on the code. On a three-page document showing page 1, the
    requests [goToPage(2)] and then, before the page has arrived,
    [goToPage(3)]: the second finds [isRendering] set and returns at the
    guard of [renderPage], so the render of page 2 is neither cancelled nor
    replaced. When it completes the canvas shows page 2 while the viewer
    and the library say page 3, and no render is left to repair it. *)
Theorem earlier_render_wins_the_canvas :
  let requested := PDFViewer.run [PDFViewer.GoToPage 2; PDFViewer.GoToPage 3]
                                 pdfShown in
  let settled := PDFViewer.run [PDFViewer.GetPageSettled None;
                                PDFViewer.RenderSettled None] requested in
  PDFViewer.pending (fst requested) = Some (PDFViewer.AwaitGetPage 2)
  ∧ PDFViewer.currentPage (fst requested) = 3
  ∧ PDFViewer.canvas (fst settled) = Some 2
  ∧ PDFViewer.currentPage (fst settled) = 3
  ∧ PDFViewer.pageInfo (fst settled) = (3, 3)
  ∧ PDFViewer.pending (fst settled) = None
  ∧ PDFViewer.isRendering (fst settled) = false
  ∧ trace (snd settled) = trace (snd pdfShown).
Proof. cbv zeta. by_computation. Qed.

(** Deactivating the viewer during a render cancels it: the task rejects
    with [RenderingCancelledException], which the [catch] of [renderPage]
    keeps from the console, and nothing is persisted. *)
Example clearPDF_cancels_quietly :
  let st := PDFViewer.run [PDFViewer.ClearPDF; PDFViewer.RenderSettled None]
                          pdfRendering in
  PDFViewer.pending (fst (PDFViewer.step PDFViewer.ClearPDF pdfRendering))
  = Some (PDFViewer.AwaitRender 2 true)
  ∧ PDFViewer.canvas (fst st) = None
  ∧ PDFViewer.isRendering (fst st) = false
  ∧ snd st = snd pdfRendering.
Proof. cbv zeta. by_computation. Qed.

(** C7 fails on the code in its last part. The clamping and the no-op of
    [goToPage] hold, and a render that nothing interrupts persists its
    page; but after [goToPage(2)] and, during its render, [goToPage(3)],
    the render that completes is the one of page 2, and what it persists
    as [lastViewedPage] is 3, the current page at that moment, and not the
    number of the page it rendered. The second request was dropped at the
    guard of [renderPage] instead of replacing the first. *)
Theorem render_persists_a_page_it_did_not_render :
  let before := PDFViewer.run [PDFViewer.GoToPage 2; PDFViewer.GoToPage 3;
                               PDFViewer.GetPageSettled None] pdfShown in
  let after := PDFViewer.step (PDFViewer.RenderSettled None) before in
  PDFViewer.pending (fst before) = Some (PDFViewer.AwaitRender 2 false)
  ∧ MediaFile.lastViewedPage (heap (snd before) !!! 0%nat) = 1
  ∧ PDFViewer.canvas (fst after) = Some 2
  ∧ MediaFile.lastViewedPage (heap (snd after) !!! 0%nat) = 3.
Proof. cbv zeta. by_computation. Qed.

Section GoToPageProperties.

Context {S : Type} `{engine : !Utils.Engine}.

(** What holds of pagination in every state: on a loaded PDF with total
    page count [T], [goToPage(n)] sets the current page to [n] clamped to
    [1, T], and is a no-op (no field changes, nothing is rendered, nothing
    reaches the library) when the clamped value equals the current page; a
    render that completes paints the page it had fetched and persists as
    [lastViewedPage] of the viewer's file, a file of the library, the
    viewer's current page number as it is at that moment. *)
Lemma goToPage_clamps_and_render_persists_current_page
    n p numPages file (v : PDFViewer.t) (w : @World S) :
  PDFViewer.pdfDocument v = Some numPages →
  PDFViewer.currentFile v = Some file →
  file ∈ files w → (file < length (heap w))%nat →
  NoDup (idOf w <$> files w) →
  PDFViewer.pending v = Some (PDFViewer.AwaitRender p false) →
  PDFViewer.currentPage (fst (PDFViewer.goToPage n (v, w)))
  = Z.max 1 (Z.min n (PDFViewer.totalPages v))
  ∧ (Z.max 1 (Z.min n (PDFViewer.totalPages v)) = PDFViewer.currentPage v →
     PDFViewer.goToPage n (v, w) = (v, w))
  ∧ (let st' := PDFViewer.step (PDFViewer.RenderSettled None) (v, w) in
     PDFViewer.canvas (fst st') = Some p
     ∧ MediaFile.lastViewedPage (heap (snd st') !!! file)
       = PDFViewer.currentPage v).
Proof.
  intros Hdoc Hfile Hin Hlt Hnd Hp.
  split; [by eapply goToPage_clamps|]. split; [apply goToPage_noop|].
  cbv zeta. unfold PDFViewer.step. cbn [fst]. rewrite Hp.
  destruct (renderPage_rendered_persists_current_page p file v w)
    as (Hc & Hl & _); done.
Qed.

End GoToPageProperties.

Lemma goToPage_clamps_and_render_persists_current_page_witness :
  PDFViewer.pdfDocument (fst pdfRendering) = Some 3
  ∧ PDFViewer.currentFile (fst pdfRendering) = Some 0%nat
  ∧ PDFViewer.pending (fst pdfRendering) = Some (PDFViewer.AwaitRender 2 false)
  ∧ PDFViewer.currentPage
      (fst (PDFViewer.goToPage 99 (fst pdfRendering, snd pdfRendering)))
    = Z.max 1 (Z.min 99 (PDFViewer.totalPages (fst pdfRendering))).
Proof.
  split; [vm_compute; reflexivity|].
  split; [vm_compute; reflexivity|].
  split; [vm_compute; reflexivity|].
  refine (proj1 (goToPage_clamps_and_render_persists_current_page
                   99 2 3 0%nat (fst pdfRendering) (snd pdfRendering)
                   _ _ _ _ _ _)).
  - vm_compute; reflexivity.
  - vm_compute; reflexivity.
  - apply (bool_decide_unpack _). vm_compute. exact I.
  - apply (bool_decide_unpack _). vm_compute. exact I.
  - apply (bool_decide_unpack _). vm_compute. exact I.
  - vm_compute; reflexivity.
Defined.

(** ** The video player *)

Section VideoPlayerFacts.

Context {S : Type} `{engine : !Utils.Engine}.
Implicit Types (p : VideoPlayer.t) (w : @World S).

Lemma saveCurrentPosition_videoElement p w :
  VideoPlayer.videoElement (fst (VideoPlayer.saveCurrentPosition (p, w)))
  = VideoPlayer.videoElement p.
Proof. unfold VideoPlayer.saveCurrentPosition. by repeat case_match. Qed.

(** [seek(t)] moves the element to [t] clamped to [0, duration]. *)
Lemma seek_clamps t p w x file :
  VideoPlayer.videoElement p = Some x →
  VideoPlayer.currentFile p = Some file →
  VideoPlayer.videoElement (fst (VideoPlayer.seek t (p, w)))
  = Some (Qmax 0 (Qmin (VideoPlayer.duration p) t)).
Proof.
  intros Hv Hf. unfold VideoPlayer.seek. rewrite Hv, Hf.
  by rewrite saveCurrentPosition_videoElement.
Qed.

Lemma clamp_within_duration (d t : Q) :
  (0 <= d)%Q →
  (0 <= Qmax 0 (Qmin d t))%Q ∧ (Qmax 0 (Qmin d t) <= d)%Q.
Proof.
  intros Hd. split; [apply Q.le_max_l|].
  apply Q.max_lub; [done | apply Q.le_min_l].
Qed.

(** What [seek(t)] hands to the library does not depend on [t]: it is
    what [saveCurrentPosition] hands over before the move, from the
    cached [currentTime] and under its threshold. *)
Lemma seek_saves_cached_time t p w x file :
  VideoPlayer.videoElement p = Some x →
  VideoPlayer.currentFile p = Some file →
  snd (VideoPlayer.seek t (p, w)) = snd (VideoPlayer.saveCurrentPosition (p, w)).
Proof.
  intros Hv Hf. unfold VideoPlayer.seek, VideoPlayer.saveCurrentPosition.
  rewrite Hv, Hf. cbn [VideoPlayer.currentFile VideoPlayer.currentTime
                       VideoPlayer.lastSavedPosition].
  rewrite ?Hf. by destruct (VideoPlayer.gt _ _).
Qed.

End VideoPlayerFacts.

(** C6 fails on the code in its second part. On a video of 120 seconds at
    its start, [seek(500)] moves the element to 120 and [seek(-5)] to 0, as
    claimed; but [seek] then calls [saveCurrentPosition], which reads the
    cached [currentTime] (refreshed only by a later [timeupdate] event)
    and saves only when that differs from the last saved position by more
    than a second. So [seek(500)] persists nothing; and of two seeks in a
    row, to 10 and then, once the element has reported 10, to 20, the first
    persists nothing and the second persists 10. The comment in [seek]
    says "Save position immediately when seeking". *)
Theorem seek_does_not_persist_the_new_position :
  let high := VideoPlayer.seek 500 videoShown in
  let low := VideoPlayer.seek (-5) videoShown in
  let first := VideoPlayer.seek 10 videoShown in
  let second := VideoPlayer.seek 20 (VideoPlayer.onTimeUpdate first) in
  VideoPlayer.duration (fst videoShown) = 120%Q
  ∧ VideoPlayer.videoElement (fst high) = Some 120%Q
  ∧ VideoPlayer.videoElement (fst low) = Some 0%Q
  ∧ snd high = snd videoShown
  ∧ MediaFile.lastViewedTime (heap (snd high) !!! 0%nat) = 0%Q
  ∧ VideoPlayer.videoElement (fst first) = Some 10%Q
  ∧ MediaFile.lastViewedTime (heap (snd first) !!! 0%nat) = 0%Q
  ∧ VideoPlayer.videoElement (fst second) = Some 20%Q
  ∧ MediaFile.lastViewedTime (heap (snd second) !!! 0%nat) = 10%Q.
Proof. cbv zeta. by_computation. Qed.

(** * Further properties of the code *)

(** ** Removing files *)

Section RemovalProperties.

Context {S : Type} `{engine : !Utils.Engine}.
Variable subscriber : nat -> Payload -> S -> S * option JsError.

(** [removeAllFiles] never throws and always leaves an empty list with
    nothing selected, whatever the store does; [currentFileChanged] is
    emitted when a file was current, and [filesChanged] only when both
    stores were cleared: after a storage failure the list is empty but
    the subscribers of [filesChanged] have not been told. *)
Theorem removeAllFiles_always_clears uuid clearError (w : @World S) :
  let cleared := match IDB.transaction (db w), clearError with
                 | Normal _, None => true
                 | _, _ => false
                 end in
  let w' := snd (removeAllFiles subscriber uuid clearError w) in
  fst (removeAllFiles subscriber uuid clearError w) = Normal tt
  ∧ files w' = [] ∧ currentFile w' = None ∧ heap w' = heap w
  ∧ (cleared = true → ∃ d, db w = Some d ∧ db w' = Some (IDB.mkDatabase (IDB.closed d) ∅))
  ∧ (cleared = false → db w' = db w)
  ∧ notifications (trace w')
    = notifications (trace w)
      ++ (if currentFile w is Some _
          then [("currentFileChanged", CurrentFile None)] else [])
      ++ (if cleared then [("filesChanged", Files [])] else []).
Proof.
  cbv zeta.
  set (w1 := set_files [] w).
  destruct (setCurrentFile_spec subscriber uuid None w1)
    as (w2 & a2 & E2 & Hh2 & Hf2 & Hd2 & He2 & Hs2 & Hc2 & T2 & N2).
  assert (N2' : notifications a2
                = if currentFile w is Some _
                  then [("currentFileChanged", CurrentFile None)] else []).
  { rewrite N2. cbn [currentFile w1 set_files].
    destruct (currentFile w); by rewrite orb_false_r. }
  clear N2.
  unfold removeAllFiles.
  destruct (IDB.transaction (db w)) as [d|e] eqn:Htx.
  - destruct clearError as [e|].
    + erewrite try_catch_throw.
      2:{ erewrite bind_normal by reflexivity.
          erewrite bind_normal by exact E2.
          erewrite bind_normal
            by (unfold transaction; rewrite Hd2; cbn [db w1 set_files];
                rewrite Htx; reflexivity).
          erewrite bind_throw by reflexivity. reflexivity. }
      cbn -[notifications]. rewrite Hf2, Hc2, Hh2, Hd2, T2.
      repeat split; try done.
      rewrite !notifications_app, N2'. cbn. by rewrite !app_nil_r.
    + destruct (emit_spec subscriber "filesChanged" (Files [])
                  (set_db (Some (IDB.mkDatabase (IDB.closed d) ∅)) w2))
        as (w3 & a3 & E3 & L3 & T3 & N3 & _).
      { right. apply filesChanged_own_or_absent. }
      destruct L3 as (Hh3 & Hf3 & Hc3 & _ & Hd3 & _).
      erewrite try_catch_normal.
      2:{ erewrite bind_normal by reflexivity.
          erewrite bind_normal by exact E2.
          erewrite bind_normal
            by (unfold transaction; rewrite Hd2; cbn [db w1 set_files];
                rewrite Htx; reflexivity).
          erewrite bind_normal by reflexivity.
          erewrite bind_normal
            by (cbn [files set_db]; rewrite Hf2; cbn [files w1 set_files]; exact E3).
          reflexivity. }
      cbn -[notifications]. rewrite Hf3, Hc3, Hh3, Hd3, T3.
      cbn -[notifications]. rewrite Hf2, Hc2, Hh2, T2.
      apply transaction_open in Htx as [Hdb _].
      repeat split; try done.
      * intros _. by exists d.
      * rewrite !notifications_app. cbn. fold (notifications a3).
        rewrite N3, N2'. by rewrite <- !app_assoc.
  - erewrite try_catch_throw.
    2:{ erewrite bind_normal by reflexivity.
        erewrite bind_normal by exact E2.
        erewrite bind_throw
          by (unfold transaction; rewrite Hd2; cbn [db w1 set_files];
              rewrite Htx; reflexivity).
        reflexivity. }
    cbn -[notifications]. rewrite Hf2, Hc2, Hh2, Hd2, T2.
    repeat split; try done.
    rewrite !notifications_app, N2'. cbn. by rewrite !app_nil_r.
Qed.

End RemovalProperties.

(** ** Looking files up *)

Section QueryFacts.

Context {S : Type} `{engine : !Utils.Engine}.
Variable subscriber : nat -> Payload -> S -> S * option JsError.
Implicit Types (w : @World S).

Lemma getFileById_Some id w f :
  getFileById id w = Some f → f ∈ files w ∧ idOf w f = id.
Proof.
  unfold getFileById. intros H. apply fmap_Some in H as [[i g] [H ->]].
  apply list_find_Some in H as (Hi & Hid & _). split; [|done].
  by eapply list_elem_of_lookup_2.
Qed.

Lemma getFileById_None id w :
  getFileById id w = None ↔ id ∉ idOf w <$> files w.
Proof.
  unfold getFileById. rewrite fmap_None, list_find_None, Forall_forall.
  rewrite list_elem_of_fmap. split.
  - intros H (f & -> & Hin). by apply (H f).
  - intros H f Hin Hid. apply H. by exists f.
Qed.

Lemma getFileById_same_library id w w' :
  heap w' = heap w → files w' = files w → getFileById id w' = getFileById id w.
Proof. unfold getFileById, idOf. by intros -> ->. Qed.

(** Finding in a filtered list: what the filter keeps is found as before,
    what it drops is not found. *)
Lemma find_filter_kept {A} (P Q : A → Prop)
    `{!∀ x, Decision (P x)} `{!∀ x, Decision (Q x)} (l : list A) :
  (∀ x, P x → Q x) →
  snd <$> list_find P (filter Q l) = snd <$> list_find P l.
Proof.
  intros HPQ. induction l as [|x l IH]; [done|].
  rewrite filter_cons. destruct (decide (Q x)) as [HQ|HQ].
  - cbn. destruct (decide (P x)); [done|].
    rewrite <- !option_fmap_compose.
    etrans; [|etrans; [exact (f_equal id IH)|]]; unfold id.
    + by destruct (list_find P (filter Q l)) as [[??]|].
    + by destruct (list_find P l) as [[??]|].
  - rewrite IH. cbn. destruct (decide (P x)) as [HP|]; [by apply HPQ in HP|].
    by destruct (list_find P l) as [[??]|].
Qed.

Lemma find_filter_dropped {A} (P Q : A → Prop)
    `{!∀ x, Decision (P x)} `{!∀ x, Decision (Q x)} (l : list A) :
  (∀ x, P x → ¬ Q x) → list_find P (filter Q l) = None.
Proof.
  intros HPQ. apply list_find_None, Forall_forall.
  intros x [HQ _]%list_elem_of_filter HP. by apply (HPQ x).
Qed.

(** [removeFile] in every case: it returns normally, the heap is as
    before and the list has lost the entries with the id of the file. *)
Lemma removeFile_result uuid deleteFails file w :
  ∃ w', removeFile subscriber uuid deleteFails file w = (Normal tt, w')
        ∧ heap w' = heap w
        ∧ files w' = filter (fun f => idOf w f ≠ idOf w file) (files w).
Proof.
  destruct (IDB.transaction (db w)) as [d|e] eqn:Htx.
  - destruct (removeFile_store_open subscriber uuid deleteFails file d w Htx)
      as (w' & E & Hh & Hf & _). by exists w'.
  - eexists. split.
    { unfold removeFile. erewrite try_catch_throw.
      2:{ erewrite bind_normal by reflexivity.
          erewrite bind_throw
            by (unfold transaction; cbn [db set_files]; rewrite Htx; reflexivity).
          reflexivity. }
      reflexivity. }
    done.
Qed.

End QueryFacts.

Section QueryProperties.

Context {S : Type} `{engine : !Utils.Engine}.
Variable subscriber : nat -> Payload -> S -> S * option JsError.
Implicit Types (w : @World S).

(** [removeFile] never throws, whatever the store does; afterwards
    [getFileById] on the id of the removed file finds nothing, and on every
    other id it finds what it found before. *)
Theorem removeFile_forgets_only_that_id uuid deleteFails file w :
  let w' := snd (removeFile subscriber uuid deleteFails file w) in
  fst (removeFile subscriber uuid deleteFails file w) = Normal tt
  ∧ getFileById (idOf w file) w' = None
  ∧ (∀ id, id ≠ idOf w file → getFileById id w' = getFileById id w).
Proof.
  destruct (removeFile_result subscriber uuid deleteFails file w)
    as (w' & E & Hh & Hf).
  cbv zeta. rewrite E. cbn [fst snd]. split; [done|].
  unfold getFileById, idOf. rewrite Hh, Hf. split.
  - rewrite find_filter_dropped; [done|]. intros f Hid Hne. by apply Hne.
  - intros id Hne. apply find_filter_kept. intros f <-. done.
Qed.

End QueryProperties.

(** ** Imports *)

Section ImportFacts.

Context {S : Type} `{engine : !Utils.Engine}.
Variable subscriber : nat -> Payload -> S -> S * option JsError.
Implicit Types (w : @World S).

(** [addFile] is all or nothing: either it returns the new reference, the
    last of a list that has grown by it, or it throws and the library is
    as before. *)
Lemma addFile_outcome env file w :
  (∃ thumbnailDataUrl d w',
      thumbnail env = Normal thumbnailDataUrl
      ∧ IDB.transaction (db w) = Normal d
      ∧ addFile subscriber env file w = (Normal (length (heap w)), w')
      ∧ heap w' = heap w ++ [newMediaFile env file thumbnailDataUrl]
      ∧ files w' = files w ++ [length (heap w)]
      ∧ currentFile w' = Some (length (heap w))
      ∧ db w' = Some (IDB.put (IDB.mkFileData (fileId env) (File.bytes file)
                                 (File.type file) (File.name file)) d)
      ∧ eventListeners w' = eventListeners w
      ∧ debouncedSave w' = debouncedSave w)
  ∨ (∃ e w', addFile subscriber env file w = (Throw e, w') ∧ sameLibrary w w').
Proof.
  destruct (thumbnail env) as [th|e0] eqn:Hth.
  2:{ right. exists e0. eexists. split.
      { unfold addFile. rewrite Hth.
        erewrite try_catch_throw by (erewrite bind_throw by reflexivity; reflexivity).
        reflexivity. }
      by repeat split. }
  destruct (storeFileData (readError env) (putError env) (fileId env) file w)
    as [[[]|e] w1] eqn:Hst.
  2:{ right. exists e. eexists. split.
      { pose proof (storeFileData_throw _ _ _ _ w e (f_equal fst Hst)) as Hst'.
        unfold addFile. rewrite Hth. erewrite try_catch_throw.
        2:{ erewrite bind_normal by reflexivity.
            erewrite bind_throw by exact Hst'. reflexivity. }
        reflexivity. }
      by repeat split. }
  left.
  destruct (storeFileData_normal _ _ _ _ w (f_equal fst Hst))
    as (d & Hdb & Hcl & Hre & Hpe & Hst').
  rewrite Hst' in Hst. injection Hst as <-.
  set (w1 := set_db _ w) in Hst'.
  set (r := length (heap w)).
  set (w2 := set_heap (heap w ++ [newMediaFile env file th]) w1).
  set (w3 := set_files (files w ++ [r]) w2).
  destruct (setCurrentFile_spec subscriber (trigger env) (Some r) w3)
    as (w4 & a1 & E4 & Hh4 & Hf4 & Hd4 & He4 & Hs4 & Hc4 & _).
  destruct (emit_spec subscriber "filesChanged" (Files (files w4)) w4)
    as (w5 & a2 & E5 & L5 & _).
  { right. apply filesChanged_own_or_absent. }
  destruct L5 as (Hh5 & Hf5 & Hc5 & _ & Hd5 & He5 & Hs5).
  exists th, d. eexists. split; [done|].
  split; [by apply transaction_open|]. split.
  { unfold addFile. rewrite Hth. apply try_catch_normal.
    erewrite bind_normal by reflexivity.
    erewrite bind_normal by exact Hst'.
    erewrite bind_normal by reflexivity.
    erewrite bind_normal by reflexivity.
    erewrite bind_normal by exact E4.
    erewrite bind_normal by exact E5.
    reflexivity. }
  cbn [log heap files currentFile db eventListeners debouncedSave].
  rewrite Hh5, Hf5, Hc5, Hd5, He5, Hs5, Hh4, Hf4, Hc4, Hd4, He4, Hs4. done.
Qed.

Lemma list_find_ext_in {A} (P Q : A → Prop)
    `{!∀ x, Decision (P x)} `{!∀ x, Decision (Q x)} (l : list A) :
  (∀ x, x ∈ l → P x ↔ Q x) → list_find P l = list_find Q l.
Proof.
  induction l as [|x l IH]; intros Hagree; [done|]. cbn.
  rewrite (decide_ext (P x) (Q x)) by (apply Hagree; by left).
  rewrite IH; [done|]. intros y Hy. apply Hagree. by right.
Qed.

(** References of the list point into the heap. *)
Lemma lookup_total_app_live (h : list MediaFile.t) x (f : nat) :
  (f < length h)%nat → (h ++ [x]) !!! f = h !!! f.
Proof. intros Hlt. by apply lookup_total_app_l. Qed.

Lemma isValidFile_always file : PinkReaderApp.isValidFile file = true.
Proof.
  unfold PinkReaderApp.isValidFile, Utils.includes, Utils.getMediaType.
  apply bool_decide_eq_true_2. repeat case_match; set_solver.
Qed.

(** The loop of [importFiles]: every job is counted once, and the list
    grows at its end by one reference for each success. *)
Lemma importLoop_counts jobs : ∀ importedCount errorCount w,
  ∃ imported' errors' w' new,
    PinkReaderApp.importLoop subscriber jobs importedCount errorCount w
    = (imported', errors', w')
    ∧ (imported' + errors' = importedCount + errorCount + length jobs)%nat
    ∧ files w' = files w ++ new
    ∧ (imported' = importedCount + length new)%nat.
Proof.
  induction jobs as [|[env file] jobs IH]; intros i e w.
  - exists i, e, w, []. cbn. rewrite app_nil_r. repeat split; lia.
  - cbn [PinkReaderApp.importLoop].
    destruct (addFile_outcome env file w)
      as [(th & d & w1 & _ & _ & E & _ & Hf & _)|(err & w1 & E & L)]; rewrite E.
    + destruct (IH (Datatypes.S i) e w1) as (i' & e' & w' & new & E' & Hsum & Hf' & Hi).
      exists i', e', w', (length (heap w) :: new). rewrite E'.
      split; [done|]. split; [cbn; lia|]. split.
      * by rewrite Hf', Hf, <- app_assoc.
      * cbn. lia.
    + match goal with |- context [PinkReaderApp.importLoop _ _ _ _ ?w2] =>
        destruct (IH i (Datatypes.S e) w2) as (i' & e' & w' & new & E' & Hsum & Hf' & Hi)
      end.
      exists i', e', w', new. rewrite E'. split; [done|]. split; [cbn; lia|].
      split; [|done]. rewrite Hf'. cbn [files log].
      destruct L as (_ & -> & _). done.
Qed.

End ImportFacts.

Section ImportProperties.

Context {S : Type} `{engine : !Utils.Engine}.
Variable subscriber : nat -> Payload -> S -> S * option JsError.
Implicit Types (w : @World S).

(** After a successful [addFile] under an id that no file of the list has,
    [getFileById] on that id returns the new file, whose record is the one
    [addFile] built: named like the raw file, with the media type of its
    name, page 1 and time 0; and every id found before is found as before.
    The references of the list are assumed to point into the heap. *)
Theorem addFile_then_getFileById env file r w :
  fst (addFile subscriber env file w) = Normal r →
  fileId env ∉ idOf w <$> files w →
  Forall (fun f => (f < length (heap w))%nat) (files w) →
  let w' := snd (addFile subscriber env file w) in
  getFileById (fileId env) w' = Some r
  ∧ files w' = files w ++ [r]
  ∧ MediaFile.fileName (heap w' !!! r) = File.name file
  ∧ MediaFile.mediaType (heap w' !!! r) = Utils.getMediaType (File.name file)
  ∧ MediaFile.fileSize (heap w' !!! r) = File.size file
  ∧ MediaFile.lastViewedPage (heap w' !!! r) = 1
  ∧ MediaFile.lastViewedTime (heap w' !!! r) = 0%Q
  ∧ (∀ id, id ∈ idOf w <$> files w → getFileById id w' = getFileById id w).
Proof.
  intros Hok Hfresh Hlive.
  destruct (addFile_outcome subscriber env file w)
    as [(th & d & w' & Hth & Htx & E & Hh & Hf & Hc & _)|(e & w' & E & _)];
    rewrite E in Hok; [|done].
  injection Hok as <-. cbv zeta. rewrite E. cbn [snd].
  assert (Hnew : heap w' !!! length (heap w) = newMediaFile env file th).
  { rewrite Hh. by rewrite lookup_total_app_r, Nat.sub_diag by lia. }
  assert (Hold : ∀ f, f ∈ files w → idOf w' f = idOf w f).
  { intros f Hin. unfold idOf. rewrite Hh.
    rewrite lookup_total_app_live; [done|].
    by eapply Forall_forall in Hlive. }
  rewrite Hnew. repeat split; try done.
  - unfold getFileById. rewrite Hf.
    assert (Hnone : list_find (fun f => idOf w' f = fileId env) (files w) = None).
    { apply list_find_None, Forall_forall. intros f Hin Hid.
      apply Hfresh. rewrite <- Hid, Hold by done. by apply list_elem_of_fmap_2. }
    rewrite list_find_app_r by exact Hnone. cbn.
    rewrite decide_True; [done|]. unfold idOf. by rewrite Hnew.
  - intros id Hin. unfold getFileById. rewrite Hf.
    apply list_elem_of_fmap in Hin as (g & -> & Hg).
    assert (Hext : list_find (fun f => idOf w' f = idOf w g) (files w)
                   = list_find (fun f => idOf w f = idOf w g) (files w)).
    { apply list_find_ext_in. intros f Hin. by rewrite Hold. }
    destruct (list_find_elem_of (fun f => idOf w f = idOf w g) (files w) g)
      as [[i x] Hfind]; [done..|].
    rewrite Hfind in Hext. by rewrite (list_find_app_l _ _ _ _ _ Hext), Hfind.
Qed.

(** [importFiles] goes through all the files it is given, whatever fails
    on the way: the files imported and the files failed add up to the
    files given, and the list has grown at its end by exactly one entry
    for each imported file, the earlier entries in place. [handleFileInput]
    hands on every file chosen, since no name fails [isValidFile]. *)
Theorem importFiles_counts_every_file jobs w :
  ∃ importedCount errorCount w' new,
    PinkReaderApp.importFiles subscriber jobs w = (importedCount, errorCount, w')
    ∧ (importedCount + errorCount = length jobs)%nat
    ∧ files w' = files w ++ new
    ∧ length new = importedCount
    ∧ PinkReaderApp.handleFileInput subscriber jobs w
      = match jobs with [] => w | _ => w' end.
Proof.
  destruct (importLoop_counts subscriber jobs 0 0 w)
    as (i & e & w1 & new & E & Hsum & Hf & Hi).
  assert (Hvalid : filter (fun job => PinkReaderApp.isValidFile (snd job) = true) jobs
                   = jobs).
  { clear. induction jobs as [|job jobs IH]; [done|].
    rewrite filter_cons, decide_True by apply isValidFile_always. by rewrite IH. }
  unfold PinkReaderApp.handleFileInput. rewrite Hvalid.
  unfold PinkReaderApp.importFiles. rewrite E.
  eexists i, e, _, new. split; [reflexivity|].
  split; [lia|]. split.
  { by repeat case_bool_decide. }
  split; [lia|].
  destruct jobs as [|job jobs]; [done|].
  by rewrite bool_decide_eq_true_2 by (cbn; lia).
Qed.

End ImportProperties.

Lemma addFile_then_getFileById_witness :
  fst (addFile quiet (importOk "id-c" None) aVideo onePdf) = Normal 1%nat
  ∧ ("id-c" ∉ idOf onePdf <$> files onePdf)
  ∧ Forall (fun f => (f < length (heap onePdf))%nat) (files onePdf)
  ∧ getFileById "id-c" (snd (addFile quiet (importOk "id-c" None) aVideo onePdf))
    = Some 1%nat.
Proof.
  assert (H1 : fst (addFile quiet (importOk "id-c" None) aVideo onePdf) = Normal 1%nat)
    by (vm_compute; reflexivity).
  assert (H2 : fileId (importOk "id-c" None) ∉ idOf onePdf <$> files onePdf)
    by (apply (bool_decide_unpack _); vm_compute; exact I).
  assert (H3 : Forall (fun f => (f < length (heap onePdf))%nat) (files onePdf))
    by (apply (bool_decide_unpack _); vm_compute; exact I).
  split; [exact H1|]. split; [exact H2|]. split; [exact H3|].
  exact (proj1 (addFile_then_getFileById quiet (importOk "id-c" None) aVideo
                  1%nat onePdf H1 H2 H3)).
Defined.

(** Three files chosen, the second of which the store refuses: two are
    imported, one is counted as failed, and the third is not lost. *)
Example importFiles_goes_on_after_a_failure :
  let '(importedCount, errorCount, w) :=
    PinkReaderApp.importFiles quiet
      [(importOk "id-a" (Some 3), aPdf); (importFull "id-x", aPdf);
       (importOk "id-c" None, aVideo)] (emptyLibrary tt) in
  importedCount = 2%nat ∧ errorCount = 1%nat
  ∧ (idOf w <$> files w) = ["id-a"; "id-c"]
  ∧ currentFile w = Some 1%nat.
Proof. vm_compute. by repeat split. Qed.

(** ** Subscribing and unsubscribing *)

Section SubscriptionFacts.

Context {S : Type} `{engine : !Utils.Engine}.
Variable subscriber : nat -> Payload -> S -> S * option JsError.
Implicit Types (w : @World S).


Lemma find_no_occurrence (l : list Callback) cb :
  cb ∉ l → list_find (fun c => c = cb) l = None.
Proof. intros Hnot. apply list_find_None, Forall_forall. by intros c Hc ->. Qed.

End SubscriptionFacts.

Section SubscriptionProperties.

Context {S : Type} `{engine : !Utils.Engine}.
Variable subscriber : nat -> Payload -> S -> S * option JsError.
Implicit Types (w : @World S).



(** [off] with a callback that is not subscribed to the event, or on an
    event nobody subscribed to, changes nothing, whatever the event name.
    It returns, except on an event that has no listeners and is named
    like a property of [Object.prototype] ([constructor], [toString],
    ...): there it throws a [TypeError], having changed nothing. *)
Theorem off_of_a_stranger_is_a_noop event callback w :
  callback ∉ default [] (eventListeners w !! event) →
  snd (off event callback w) = w
  ∧ (is_Some (eventListeners w !! event) ∨ event ∉ objectPrototype →
       fst (off event callback w) = Normal tt)
  ∧ (eventListeners w !! event = None → event ∈ objectPrototype →
       fst (off event callback w) = Throw (notCallable "indexOf")).
Proof.
  intros Hnot. unfold off, listenersOf.
  destruct (eventListeners w !! event) as [ls|] eqn:Hl; cbn [default] in Hnot.
  - rewrite find_no_occurrence by done. by repeat split.
  - case_bool_decide as Hev; (split; [done|]); split; try done.
    by intros [[? [=]]|Hne].
Qed.

(** After [dispose] no listener is called any more, and the store is
    closed: reading content fails, and so does every import, which leaves
    the library as it is. *)
Theorem dispose_silences_and_closes w :
  let w' := snd (dispose w) in
  fst (dispose w) = Normal tt
  ∧ files w' = files w ∧ currentFile w' = currentFile w ∧ heap w' = heap w
  ∧ (∀ event data, event ∉ objectPrototype →
       fst (emit subscriber event data w') = Normal tt
       ∧ invocations (trace (snd (emit subscriber event data w')))
         = invocations (trace w))
  ∧ (∀ requestError fileId,
       isThrow (fst (getFileData requestError fileId w')) = true)
  ∧ (∀ env file,
       isThrow (fst (addFile subscriber env file w')) = true
       ∧ sameLibrary w' (snd (addFile subscriber env file w'))).
Proof.
  cbv zeta. unfold dispose, bind, modify. cbn [fst snd].
  set (w1 := set_eventListeners ∅ w).
  set (w' := match db w1 with Some d => set_db (Some (IDB.close d)) w1 | None => w1 end).
  assert (Hsame : files w' = files w ∧ currentFile w' = currentFile w
                  ∧ heap w' = heap w ∧ trace w' = trace w
                  ∧ eventListeners w' = ∅
                  ∧ isThrow (IDB.transaction (db w')) = true).
  { subst w' w1. cbn [db set_eventListeners].
    destruct (db w) as [d|] eqn:Hd; cbn; [done|]. by rewrite Hd. }
  destruct Hsame as (Hf & Hc & Hh & Ht & He & Htx).
  split; [done|]. split; [done|]. split; [done|]. split; [done|].
  split; [|split].
  - intros event data Hev.
    destruct (emit_spec subscriber event data w')
      as (w2 & added & E & _ & T & _ & I & _); [by right|].
    rewrite E. cbn [fst snd]. split; [done|].
    rewrite T, invocations_app. cbn. fold (invocations added).
    rewrite I, He, lookup_empty, Ht. cbn. by rewrite app_nil_r.
  - intros requestError fileId. unfold getFileData, bind, transaction.
    by destruct (IDB.transaction (db w')).
  - intros env file.
    destruct (addFile_outcome subscriber env file w')
      as [(th & d & w2 & _ & Hopen & _)|(e & w2 & E & L)].
    + rewrite Hopen in Htx. done.
    + by rewrite E.
Qed.

End SubscriptionProperties.


Lemma off_of_a_stranger_is_a_noop_witness :
  (Subscriber 9 ∉ default [] (eventListeners (emptyLibrary tt) !! "filesChanged"))
  ∧ snd (off "filesChanged" (Subscriber 9) (emptyLibrary tt)) = emptyLibrary tt
  ∧ fst (off "filesChanged" (Subscriber 9) (emptyLibrary tt)) = Normal tt.
Proof.
  assert (H1 : Subscriber 9
               ∉ default [] (eventListeners (emptyLibrary tt) !! "filesChanged"))
    by (apply (bool_decide_unpack _); vm_compute; exact I).
  split; [exact H1|].
  destruct (off_of_a_stranger_is_a_noop "filesChanged" (Subscriber 9)
              (emptyLibrary tt) H1) as (Hsame & Hreturns & _).
  split; [exact Hsame|].
  apply Hreturns. left. by eexists.
Defined.

(** ** Searching *)

Section SearchFacts.

Lemma toLowerCase_ascii_idempotent c :
  Utils.toLowerCase_ascii (Utils.toLowerCase_ascii c) = Utils.toLowerCase_ascii c.
Proof. destruct c as [[] [] [] [] [] [] [] []]; reflexivity. Qed.

Lemma toLowerCase_idempotent s :
  Utils.toLowerCase (Utils.toLowerCase s) = Utils.toLowerCase s.
Proof.
  induction s as [|c s IH]; [done|]. cbn.
  by rewrite toLowerCase_ascii_idempotent, IH.
Qed.

Lemma startsWith_empty s : Utils.startsWith s "" = true.
Proof. by destruct s. Qed.

Lemma startsWith_refl s : Utils.startsWith s s = true.
Proof.
  induction s as [|c s IH]; [done|]. cbn. by rewrite Ascii.eqb_refl, IH.
Qed.

Lemma String_includes_empty s : Utils.String_includes s "" = true.
Proof. destruct s; cbn; by rewrite ?startsWith_empty. Qed.

Lemma String_includes_refl s : Utils.String_includes s s = true.
Proof. destruct s; cbn; by rewrite ?Ascii.eqb_refl, ?startsWith_refl. Qed.

End SearchFacts.

Section SearchProperties.

Context {S : Type} `{engine : !Utils.Engine}.
Implicit Types (w : @World S).

(** [searchFiles]: the empty query finds every file; any query finds a
    sublist of the list, in the order of the list; the case of the query
    does not matter; and every file is found by its own file name and by
    its own display name, in any case of the ASCII letters. *)
Theorem searchFiles_finds_by_name_in_any_case w :
  searchFiles "" w = files w
  ∧ (∀ query, sublist (searchFiles query w) (files w))
  ∧ (∀ query, searchFiles (Utils.toLowerCase query) w = searchFiles query w)
  ∧ (∀ file query,
       file ∈ files w →
       Utils.toLowerCase query
       = Utils.toLowerCase (MediaFile.fileName (heap w !!! file))
       ∨ Utils.toLowerCase query
         = Utils.toLowerCase (MediaFile.displayName (heap w !!! file)) →
       file ∈ searchFiles query w).
Proof.
  unfold searchFiles. split; [|split; [|split]].
  - cbn [Utils.toLowerCase]. induction (files w) as [|f l IH]; [done|].
    rewrite filter_cons, decide_True, IH; [done|].
    by rewrite String_includes_empty.
  - intros query. apply sublist_filter.
  - intros query. by rewrite toLowerCase_idempotent.
  - intros file query Hin Hq. apply list_elem_of_filter. split; [|done].
    apply Is_true_true, orb_true_iff.
    destruct Hq as [-> | ->]; [left|right]; apply String_includes_refl.
Qed.

End SearchProperties.

(** ** Settings *)

Section SettingsFacts.

Context {S : Type} `{engine : !Utils.Engine}.
Variable subscriber : nat -> Payload -> S -> S * option JsError.

Lemma settingsChanged_own_or_absent : "settingsChanged" ∉ objectPrototype.
Proof. eapply bool_decide_eq_false_1. reflexivity. Qed.

(** What [loadSettings] assigns when both reads succeed: the stored flag,
    or the default of the flag when the store has no record of it. *)
Lemma reloaded_flags stored (w0 : @World S) :
  isThrow (IDB.transaction (db w0)) = false →
  isTwoPageMode (reloaded subscriber stored w0)
  = default false (stored !! "isTwoPageMode")
  ∧ sidebarVisible (reloaded subscriber stored w0)
    = default true (stored !! "sidebarVisible").
Proof.
  intros Htx. unfold reloaded, loadSettings, getSetting, defaultPrefs.
  cbn [settings]. destruct (IDB.transaction (db w0)); [|done].
  match goal with
  | |- context [emit subscriber ?ev ?d w0] =>
      destruct (emit_spec subscriber ev d w0) as (w' & added & E & _);
        [right; apply settingsChanged_own_or_absent | rewrite E]
  end.
  done.
Qed.

(** A save that goes through, and a save that does not. *)
Lemma saveSetting_stores key value p (w : @World S) :
  isThrow (IDB.transaction (db w)) = false →
  saveSetting None key value p w
  = (Normal tt,
     mkPrefs (isTwoPageMode p) (sidebarVisible p) (<[key := value]> (settings p))).
Proof. unfold saveSetting. by destruct (IDB.transaction (db w)). Qed.

Lemma saveSetting_fails putError key value p (w : @World S) :
  isThrow (IDB.transaction (db w)) = true ∨ is_Some putError →
  ∃ e, saveSetting putError key value p w = (Throw e, p).
Proof.
  unfold saveSetting. intros [Htx|[e ->]].
  - destruct (IDB.transaction (db w)); [done|]. by eexists.
  - destruct (IDB.transaction (db w)); by eexists.
Qed.

End SettingsFacts.

Section SettingsProperties.

Context {S : Type} `{engine : !Utils.Engine}.
Variable subscriber : nat -> Payload -> S -> S * option JsError.

(** [toggleTwoPageMode] and [toggleSidebar], the store working: the flag
    is flipped and the other one kept, [settingsChanged] is emitted once
    with the new pair of flags, and a manager that later starts on the
    settings store left behind loads the flipped flag, the other flag
    being loaded as it would have been before. *)
Theorem toggles_survive_a_reload p (w w0 : @World S) :
  isThrow (IDB.transaction (db w)) = false →
  isThrow (IDB.transaction (db w0)) = false →
  (∃ p' w' added,
     toggleTwoPageMode subscriber None (p, w) = (Normal tt, (p', w'))
     ∧ isTwoPageMode p' = negb (isTwoPageMode p)
     ∧ sidebarVisible p' = sidebarVisible p
     ∧ trace w' = trace w
                  ++ Notify "settingsChanged"
                       (Settings (negb (isTwoPageMode p)) (sidebarVisible p))
                     :: added
     ∧ notifications added = []
     ∧ isTwoPageMode (reloaded subscriber (settings p') w0)
       = negb (isTwoPageMode p)
     ∧ sidebarVisible (reloaded subscriber (settings p') w0)
       = sidebarVisible (reloaded subscriber (settings p) w0))
  ∧ (∃ p' w' added,
       toggleSidebar subscriber None (p, w) = (Normal tt, (p', w'))
       ∧ sidebarVisible p' = negb (sidebarVisible p)
       ∧ isTwoPageMode p' = isTwoPageMode p
       ∧ trace w' = trace w
                    ++ Notify "settingsChanged"
                         (Settings (isTwoPageMode p) (negb (sidebarVisible p)))
                       :: added
       ∧ notifications added = []
       ∧ sidebarVisible (reloaded subscriber (settings p') w0)
         = negb (sidebarVisible p)
       ∧ isTwoPageMode (reloaded subscriber (settings p') w0)
         = isTwoPageMode (reloaded subscriber (settings p) w0)).
Proof.
  intros Htx Htx0. split.
  - unfold toggleTwoPageMode. rewrite saveSetting_stores by done.
    unfold settingsPayload. cbn [isTwoPageMode sidebarVisible settings].
    destruct (emit_spec subscriber "settingsChanged"
                (Settings (negb (isTwoPageMode p)) (sidebarVisible p)) w)
      as (w' & added & E & _ & T & N & _);
      [right; apply settingsChanged_own_or_absent|].
    eexists _, w', added. rewrite E. split; [done|].
    cbn [isTwoPageMode sidebarVisible settings].
    destruct (reloaded_flags subscriber
                (<["isTwoPageMode" := negb (isTwoPageMode p)]> (settings p)) w0 Htx0)
      as [R1 R2].
    destruct (reloaded_flags subscriber (settings p) w0 Htx0) as [_ R3].
    rewrite R1, R2, R3, lookup_insert_eq, lookup_insert_ne by done. done.
  - unfold toggleSidebar. rewrite saveSetting_stores by done.
    unfold settingsPayload. cbn [isTwoPageMode sidebarVisible settings].
    destruct (emit_spec subscriber "settingsChanged"
                (Settings (isTwoPageMode p) (negb (sidebarVisible p))) w)
      as (w' & added & E & _ & T & N & _);
      [right; apply settingsChanged_own_or_absent|].
    eexists _, w', added. rewrite E. split; [done|].
    cbn [isTwoPageMode sidebarVisible settings].
    destruct (reloaded_flags subscriber
                (<["sidebarVisible" := negb (sidebarVisible p)]> (settings p)) w0 Htx0)
      as [R1 R2].
    destruct (reloaded_flags subscriber (settings p) w0 Htx0) as [R3 _].
    rewrite R1, R2, R3, lookup_insert_eq, lookup_insert_ne by done. done.
Qed.

(** [toggleTwoPageMode] and [toggleSidebar], the save failing (connection
    closed or not yet open, or the put request failing): the call rejects
    with the flag already flipped in memory, while the settings store and
    the rest of the manager are as before and no [settingsChanged] is
    emitted. *)
Theorem toggle_with_failed_save_flips_silently putError p (w : @World S) :
  isThrow (IDB.transaction (db w)) = true ∨ is_Some putError →
  (∃ e p',
     toggleTwoPageMode subscriber putError (p, w) = (Throw e, (p', w))
     ∧ isTwoPageMode p' = negb (isTwoPageMode p)
     ∧ sidebarVisible p' = sidebarVisible p
     ∧ settings p' = settings p)
  ∧ (∃ e p',
       toggleSidebar subscriber putError (p, w) = (Throw e, (p', w))
       ∧ sidebarVisible p' = negb (sidebarVisible p)
       ∧ isTwoPageMode p' = isTwoPageMode p
       ∧ settings p' = settings p).
Proof.
  intros Hfail. split.
  - unfold toggleTwoPageMode.
    match goal with
    | |- context [saveSetting putError ?k ?v ?q w] =>
        destruct (saveSetting_fails putError k v q w Hfail) as [e ->]
    end.
    by eexists _, _.
  - unfold toggleSidebar.
    match goal with
    | |- context [saveSetting putError ?k ?v ?q w] =>
        destruct (saveSetting_fails putError k v q w Hfail) as [e ->]
    end.
    by eexists _, _.
Qed.

End SettingsProperties.

Lemma toggles_survive_a_reload_witness :
  isThrow (IDB.transaction (db (emptyLibrary tt))) = false
  ∧ ∃ p' w' added,
      toggleTwoPageMode quiet None (defaultPrefs ∅, emptyLibrary tt)
      = (Normal tt, (p', w'))
      ∧ isTwoPageMode p' = true
      ∧ trace w' = Notify "settingsChanged" (Settings true true) :: added
      ∧ isTwoPageMode (reloaded quiet (settings p') (emptyLibrary tt)) = true.
Proof.
  split; [reflexivity|].
  destruct (toggles_survive_a_reload quiet (defaultPrefs ∅) (emptyLibrary tt)
              (emptyLibrary tt) eq_refl eq_refl)
    as [(p' & w' & added & E & F1 & _ & T & _ & R & _) _].
  exists p', w', added. repeat split; assumption.
Defined.

Lemma toggle_with_failed_save_flips_silently_witness :
  (isThrow (IDB.transaction (db (connectionLost (emptyLibrary tt)))) = true
   ∨ is_Some (@None JsError))
  ∧ ∃ e p',
      toggleSidebar quiet None (defaultPrefs ∅, connectionLost (emptyLibrary tt))
      = (Throw e, (p', connectionLost (emptyLibrary tt)))
      ∧ sidebarVisible p' = false
      ∧ settings p' = ∅.
Proof.
  assert (H : isThrow (IDB.transaction (db (connectionLost (emptyLibrary tt)))) = true
              ∨ is_Some (@None JsError)) by (left; reflexivity).
  split; [exact H|].
  destruct (toggle_with_failed_save_flips_silently quiet None (defaultPrefs ∅)
              (connectionLost (emptyLibrary tt)) H)
    as [_ (e & p' & E & F1 & _ & F2)].
  exists e, p'. repeat split; assumption.
Defined.

(** ** Viewing positions, continued *)

Section PositionFrameFacts.

Context {S : Type} `{engine : !Utils.Engine}.
Variable subscriber : nat -> Payload -> S -> S * option JsError.
Implicit Types (w : @World S).

Lemma alter_preserves {A} (P : MediaFile.t → A) assign (e g : ref) (h : Heap) :
  (∀ f, P (assign f) = P f) → P (alter assign e h !!! g) = P (h !!! g).
Proof.
  intros HP. rewrite list_lookup_total_alter.
  destruct (decide (e = g ∧ (e < length h)%nat)) as [[-> _]|]; [apply HP|done].
Qed.


(** The objects [updateField] assigns to have the id of the file. *)
Lemma updateField_frame assign file w g :
  (∀ f, MediaFile.id (assign f) = MediaFile.id f) →
  idOf w g ≠ idOf w file →
  heap (snd (updateField assign file w)) !!! g = heap w !!! g.
Proof.
  intros Hid Hne. unfold updateField.
  destruct (list_find _ (files w)) as [[i entry]|] eqn:Hfind; [|done].
  apply list_find_Some in Hfind as (_ & Hentry & _).
  assert (Hge : entry ≠ g) by (intros ->; done).
  unfold bind, modify, callDebouncedSave. cbn [set_heap currentFile heap].
  assert (H1 : alter assign entry (heap w) !!! g = heap w !!! g)
    by by apply list_lookup_total_alter_ne.
  destruct (currentFile w) as [c|].
  - unfold idOf at 1 2. cbn [heap].
    destruct (bool_decide _) eqn:Hb; cbn [debouncedSave set_heap heap].
    + apply bool_decide_eq_true in Hb. cbn [heap set_heap] in Hb.
      rewrite !(alter_preserves MediaFile.id) in Hb by done.
      assert (Hcg : c ≠ g) by (intros ->; done).
      destruct (debouncedSave w); cbn;
        by rewrite list_lookup_total_alter_ne.
    + destruct (debouncedSave w); cbn; done.
  - cbn [debouncedSave set_heap heap]. destruct (debouncedSave w); cbn; done.
Qed.

Lemma updateField_unknown assign file w :
  idOf w file ∉ idOf w <$> files w → updateField assign file w = (Normal tt, w).
Proof.
  intros Hnot. unfold updateField.
  destruct (list_find _ (files w)) as [[i entry]|] eqn:Hfind; [|done].
  apply list_find_Some in Hfind as (Hi & Hentry & _).
  exfalso. apply Hnot. rewrite <- Hentry.
  apply list_elem_of_fmap_2. by eapply list_elem_of_lookup_2.
Qed.

End PositionFrameFacts.

Section PositionProperties.

Context {S : Type} `{engine : !Utils.Engine}.
Variable subscriber : nat -> Payload -> S -> S * option JsError.
Implicit Types (w : @World S).

(** [updateLastViewedPage] and [updateLastViewedTime] on a file of the
    list (ids unique in the list): the record of the file has the new
    page, resp. time, and is otherwise as before; every object with
    another id is untouched; the list and the current file are as before;
    and a save is scheduled once [setupAutoSave] has run. *)
Theorem viewing_position_reaches_only_that_file file page time w :
  file ∈ files w → (file < length (heap w))%nat →
  NoDup (idOf w <$> files w) →
  let w1 := snd (updateLastViewedPage file page w) in
  let w2 := snd (updateLastViewedTime file time w) in
  heap w1 !!! file = MediaFile.set_lastViewedPage page (heap w !!! file)
  ∧ heap w2 !!! file = MediaFile.set_lastViewedTime time (heap w !!! file)
  ∧ (∀ g, idOf w g ≠ idOf w file →
          heap w1 !!! g = heap w !!! g ∧ heap w2 !!! g = heap w !!! g)
  ∧ files w1 = files w ∧ currentFile w1 = currentFile w
  ∧ files w2 = files w ∧ currentFile w2 = currentFile w
  ∧ (debouncedSave w = true → saveTimer w1 = true ∧ saveTimer w2 = true).
Proof.
  intros Hin Hlt Hnd. cbv zeta. unfold updateLastViewedPage, updateLastViewedTime.
  destruct (updateField_listed (MediaFile.set_lastViewedPage page) file w)
    as (P1 & P2 & P3 & P4); [done..|].
  destruct (updateField_listed (MediaFile.set_lastViewedTime time) file w)
    as (T1 & T2 & T3 & T4); [done..|].
  repeat split; try done.
  - by apply updateField_frame.
  - by apply updateField_frame.
  - by apply P4.
  - by apply T4.
Qed.

(** Once [removeFile] has been called on a file, whatever the store did,
    a viewer that still holds the file and reports a page, a time or a
    duration for it changes nothing, schedules no save and gets no error. *)
Theorem position_of_a_removed_file_is_dropped
    uuid deleteFails file page time duration w :
  let w' := snd (removeFile subscriber uuid deleteFails file w) in
  updateLastViewedPage file page w' = (Normal tt, w')
  ∧ updateLastViewedTime file time w' = (Normal tt, w')
  ∧ updateVideoDuration file duration w' = (Normal tt, w').
Proof.
  destruct (removeFile_result subscriber uuid deleteFails file w)
    as (w' & E & Hh & Hf).
  cbv zeta. rewrite E. cbn [snd].
  assert (Hnot : idOf w' file ∉ idOf w' <$> files w').
  { unfold idOf. rewrite Hh, Hf. fold (idOf w).
    intros (g & Hg & Hin)%list_elem_of_fmap.
    apply list_elem_of_filter in Hin as [Hne _]. by apply Hne. }
  unfold updateLastViewedPage, updateLastViewedTime, updateVideoDuration.
  by rewrite !updateField_unknown.
Qed.

End PositionProperties.

Lemma viewing_position_reaches_only_that_file_witness :
  0%nat ∈ files onePdf ∧ (0 < length (heap onePdf))%nat
  ∧ NoDup (idOf onePdf <$> files onePdf)
  ∧ MediaFile.lastViewedPage
      (heap (snd (updateLastViewedPage 0%nat 2 onePdf)) !!! 0%nat) = 2.
Proof.
  assert (H1 : 0%nat ∈ files onePdf)
    by (apply (bool_decide_unpack _); vm_compute; exact I).
  assert (H2 : (0 < length (heap onePdf))%nat)
    by (apply (bool_decide_unpack _); vm_compute; exact I).
  assert (H3 : NoDup (idOf onePdf <$> files onePdf))
    by (apply (bool_decide_unpack _); vm_compute; exact I).
  split; [exact H1|]. split; [exact H2|]. split; [exact H3|].
  destruct (viewing_position_reaches_only_that_file 0%nat 2 0%Q onePdf H1 H2 H3)
    as (P1 & _).
  rewrite P1. reflexivity.
Defined.

(** ** Moving through the list *)

Section NavigationFacts.

Context {S : Type} `{engine : !Utils.Engine}.
Variable subscriber : nat -> Payload -> S -> S * option JsError.
Implicit Types (w : @World S).

(** With ids unique in the list, the index the navigation starts from is
    the position of the current file. *)
Lemma currentIndex_at w i c :
  NoDup (idOf w <$> files w) → files w !! i = Some c → currentFile w = Some c →
  PinkReaderApp.currentIndex w = Z.of_nat i.
Proof.
  intros Hnd Hi Hc. unfold PinkReaderApp.currentIndex. rewrite Hc.
  assert (Hin : c ∈ files w) by by eapply list_elem_of_lookup_2.
  destruct (list_find_elem_of (fun f => idOf w f = idOf w c) (files w) c)
    as [[k e] Hfind]; [done..|].
  rewrite Hfind. apply list_find_Some in Hfind as (Hk & Hsame & _).
  assert (e = c) as ->.
  { apply (unique_id_inj w); [done| |done..]. by eapply list_elem_of_lookup_2. }
  f_equal. eapply NoDup_lookup; [|exact Hk|exact Hi].
  by eapply NoDup_fmap_1.
Qed.

Lemma selectNextFile_at uuid w i c :
  NoDup (idOf w <$> files w) → files w !! i = Some c → currentFile w = Some c →
  ∃ w1, PinkReaderApp.selectNextFile subscriber uuid w = (Normal tt, w1)
        ∧ heap w1 = heap w ∧ files w1 = files w
        ∧ currentFile w1 = files w !! ((i + 1) mod length (files w))%nat.
Proof.
  intros Hnd Hi Hc. unfold PinkReaderApp.selectNextFile.
  assert (Hlen : (i < length (files w))%nat) by by eapply lookup_lt_Some.
  rewrite bool_decide_eq_false_2 by lia.
  rewrite (currentIndex_at w i c) by done.
  assert (Hidx : Z.to_nat (Z.rem (Z.of_nat i + 1) (Z.of_nat (length (files w))))
                 = ((i + 1) mod length (files w))%nat).
  { rewrite Z.rem_mod_nonneg by lia.
    replace (Z.of_nat i + 1) with (Z.of_nat (i + 1)) by lia.
    rewrite <- Nat2Z.inj_mod. apply Nat2Z.id. }
  rewrite Hidx. unfold PinkReaderApp.selectFile.
  destruct (setCurrentFile_spec subscriber uuid
              (files w !! ((i + 1) mod length (files w))%nat) w)
    as (w1 & added & E & Hh & Hf & _ & _ & _ & Hcur & _).
  exists w1. by rewrite E.
Qed.

Lemma selectPreviousFile_at uuid w i c :
  NoDup (idOf w <$> files w) → files w !! i = Some c → currentFile w = Some c →
  ∃ w1, PinkReaderApp.selectPreviousFile subscriber uuid w = (Normal tt, w1)
        ∧ heap w1 = heap w ∧ files w1 = files w
        ∧ currentFile w1
          = files w !! ((i + length (files w) - 1) mod length (files w))%nat.
Proof.
  intros Hnd Hi Hc. unfold PinkReaderApp.selectPreviousFile.
  assert (Hlen : (i < length (files w))%nat) by by eapply lookup_lt_Some.
  rewrite bool_decide_eq_false_2 by lia.
  rewrite (currentIndex_at w i c) by done.
  assert (Hidx : Z.to_nat (if bool_decide (Z.of_nat i <= 0)
                           then Z.of_nat (length (files w)) - 1
                           else Z.of_nat i - 1)
                 = ((i + length (files w) - 1) mod length (files w))%nat).
  { destruct (bool_decide (Z.of_nat i <= 0)) eqn:Hb.
    - apply bool_decide_eq_true in Hb. assert (i = 0%nat) as -> by lia.
      rewrite Nat.add_0_l, Nat.mod_small by lia. lia.
    - apply bool_decide_eq_false in Hb.
      replace (i + length (files w) - 1)%nat
        with ((i - 1) + 1 * length (files w))%nat by lia.
      rewrite Nat.Div0.mod_add, Nat.mod_small by lia. lia. }
  rewrite Hidx. unfold PinkReaderApp.selectFile.
  destruct (setCurrentFile_spec subscriber uuid
              (files w !! ((i + length (files w) - 1) mod length (files w))%nat) w)
    as (w1 & added & E & Hh & Hf & _ & _ & _ & Hcur & _).
  exists w1. by rewrite E.
Qed.

Lemma next_then_previous_index (i n : nat) :
  (i < n)%nat → ((((i + 1) mod n) + n - 1) mod n = i)%nat.
Proof.
  intros Hi. destruct (decide (i + 1 = n)%nat) as [<-|Hne].
  - rewrite Nat.Div0.mod_same, Nat.add_0_l, Nat.mod_small by lia. lia.
  - rewrite (Nat.mod_small (i + 1)) by lia.
    replace (i + 1 + n - 1)%nat with (i + 1 * n)%nat by lia.
    rewrite Nat.Div0.mod_add. apply Nat.mod_small. lia.
Qed.

Lemma previous_then_next_index (i n : nat) :
  (i < n)%nat → ((((i + n - 1) mod n) + 1) mod n = i)%nat.
Proof.
  intros Hi. destruct (decide (i = 0)%nat) as [->|Hne].
  - rewrite Nat.add_0_l, (Nat.mod_small (n - 1)) by lia.
    replace (n - 1 + 1)%nat with n by lia. apply Nat.Div0.mod_same.
  - replace (i + n - 1)%nat with ((i - 1) + 1 * n)%nat by lia.
    rewrite Nat.Div0.mod_add, (Nat.mod_small (i - 1)) by lia.
    replace (i - 1 + 1)%nat with i by lia. apply Nat.mod_small. lia.
Qed.

End NavigationFacts.

Section NavigationProperties.

Context {S : Type} `{engine : !Utils.Engine}.
Variable subscriber : nat -> Payload -> S -> S * option JsError.
Implicit Types (w : @World S).

(** [selectNextFile] and [selectPreviousFile], the current file being the
    [i]-th of the list and ids unique in the list: the next file is the
    one after it, the first after the last; the previous file is the one
    before it, the last before the first; and going to the next and then
    to the previous file, or the other way round, leads back to the
    current file. The list is not changed. *)
Theorem next_and_previous_walk_the_list_in_a_circle uuid w i c :
  NoDup (idOf w <$> files w) → files w !! i = Some c → currentFile w = Some c →
  let n := length (files w) in
  let next w := snd (PinkReaderApp.selectNextFile subscriber uuid w) in
  let previous w := snd (PinkReaderApp.selectPreviousFile subscriber uuid w) in
  fst (PinkReaderApp.selectNextFile subscriber uuid w) = Normal tt
  ∧ fst (PinkReaderApp.selectPreviousFile subscriber uuid w) = Normal tt
  ∧ is_Some (currentFile (next w))
  ∧ currentFile (next w) = files w !! ((i + 1) mod n)%nat
  ∧ is_Some (currentFile (previous w))
  ∧ currentFile (previous w) = files w !! ((i + n - 1) mod n)%nat
  ∧ currentFile (previous (next w)) = Some c
  ∧ currentFile (next (previous w)) = Some c
  ∧ files (next w) = files w ∧ files (previous w) = files w.
Proof.
  intros Hnd Hi Hc. cbv zeta.
  assert (Hlen : (i < length (files w))%nat) by by eapply lookup_lt_Some.
  destruct (selectNextFile_at subscriber uuid w i c Hnd Hi Hc)
    as (w1 & E1 & Hh1 & Hf1 & Hc1).
  destruct (selectPreviousFile_at subscriber uuid w i c Hnd Hi Hc)
    as (w2 & E2 & Hh2 & Hf2 & Hc2).
  rewrite E1, E2. cbn [fst snd].
  assert (Hn : is_Some (files w !! ((i + 1) mod length (files w))%nat)).
  { apply lookup_lt_is_Some. apply Nat.mod_upper_bound. lia. }
  assert (Hp : is_Some (files w !! ((i + length (files w) - 1)
                                    mod length (files w))%nat)).
  { apply lookup_lt_is_Some. apply Nat.mod_upper_bound. lia. }
  split; [done|]. split; [done|].
  split; [by rewrite Hc1|]. split; [done|].
  split; [by rewrite Hc2|]. split; [done|].
  split; [|split; [|done]].
  - destruct Hn as [c1 Hn].
    destruct (selectPreviousFile_at subscriber uuid w1
                ((i + 1) mod length (files w))%nat c1)
      as (w3 & E3 & _ & _ & Hc3).
    + unfold idOf. rewrite Hh1, Hf1. exact Hnd.
    + by rewrite Hf1.
    + by rewrite Hc1.
    + rewrite E3. cbn [snd]. rewrite Hc3, Hf1.
      by rewrite next_then_previous_index.
  - destruct Hp as [c2 Hp].
    destruct (selectNextFile_at subscriber uuid w2
                ((i + length (files w) - 1) mod length (files w))%nat c2)
      as (w3 & E3 & _ & _ & Hc3).
    + unfold idOf. rewrite Hh2, Hf2. exact Hnd.
    + by rewrite Hf2.
    + by rewrite Hc2.
    + rewrite E3. cbn [snd]. rewrite Hc3, Hf2.
      by rewrite previous_then_next_index.
Qed.

End NavigationProperties.

Lemma next_and_previous_walk_the_list_in_a_circle_witness :
  NoDup (idOf twoFiles <$> files twoFiles)
  ∧ files twoFiles !! 1%nat = Some 1%nat
  ∧ currentFile twoFiles = Some 1%nat
  ∧ currentFile (snd (PinkReaderApp.selectNextFile quiet "u" twoFiles)) = Some 0%nat.
Proof.
  assert (H1 : NoDup (idOf twoFiles <$> files twoFiles))
    by (apply (bool_decide_unpack _); vm_compute; exact I).
  assert (H2 : files twoFiles !! 1%nat = Some 1%nat) by (vm_compute; reflexivity).
  assert (H3 : currentFile twoFiles = Some 1%nat) by (vm_compute; reflexivity).
  split; [exact H1|]. split; [exact H2|]. split; [exact H3|].
  destruct (next_and_previous_walk_the_list_in_a_circle quiet "u" twoFiles
              1%nat 1%nat H1 H2 H3) as (_ & _ & _ & Hnext & _).
  rewrite Hnext. vm_compute. reflexivity.
Defined.

(** ** Turning pages *)

Section PageTurnProperties.

Context {S : Type} `{engine : !Utils.Engine}.
Implicit Types (v : PDFViewer.t) (w : @World S).

(** [nextPage] and [previousPage] on a loaded document whose current page
    is within the document: the page moves by one and stays within the
    document, [nextPage] on the last page and [previousPage] on the first
    change nothing at all, the page count is not touched, and turning
    forward and then back from a page that is not the last one leads back
    to it. *)
Theorem page_turns_stay_within_the_document v w numPages :
  PDFViewer.pdfDocument v = Some numPages →
  1 ≤ PDFViewer.currentPage v ≤ PDFViewer.totalPages v →
  let next := PDFViewer.nextPage (v, w) in
  let previous := PDFViewer.previousPage (v, w) in
  PDFViewer.currentPage (fst next)
  = Z.min (PDFViewer.currentPage v + 1) (PDFViewer.totalPages v)
  ∧ PDFViewer.currentPage (fst previous) = Z.max (PDFViewer.currentPage v - 1) 1
  ∧ PDFViewer.totalPages (fst next) = PDFViewer.totalPages v
  ∧ PDFViewer.totalPages (fst previous) = PDFViewer.totalPages v
  ∧ (PDFViewer.currentPage v = PDFViewer.totalPages v → next = (v, w))
  ∧ (PDFViewer.currentPage v = 1 → previous = (v, w))
  ∧ (PDFViewer.currentPage v < PDFViewer.totalPages v →
     PDFViewer.currentPage (fst (PDFViewer.previousPage next))
     = PDFViewer.currentPage v).
Proof.
  intros Hdoc Hrange. cbv zeta.
  assert (Htotal : ∀ n, PDFViewer.totalPages (fst (PDFViewer.goToPage n (v, w)))
                        = PDFViewer.totalPages v).
  { intros n. unfold PDFViewer.goToPage, PDFViewer.renderPage,
      PDFViewer.cancelRenderTask.
    repeat case_match; done. }
  assert (Hdoc' : ∀ n, PDFViewer.pdfDocument (fst (PDFViewer.goToPage n (v, w)))
                       = Some numPages).
  { intros n. unfold PDFViewer.goToPage, PDFViewer.renderPage,
      PDFViewer.cancelRenderTask.
    repeat case_match; done. }
  unfold PDFViewer.nextPage, PDFViewer.previousPage. cbn [fst].
  repeat split.
  - case_bool_decide; [|cbn [fst]; lia].
    rewrite (goToPage_clamps _ numPages) by done. lia.
  - case_bool_decide; [|cbn [fst]; lia].
    rewrite (goToPage_clamps _ numPages) by done. lia.
  - case_bool_decide; [|done]. apply Htotal.
  - case_bool_decide; [|done]. apply Htotal.
  - intros Hlast. rewrite bool_decide_eq_false_2 by lia. done.
  - intros Hfirst. rewrite bool_decide_eq_false_2 by lia. done.
  - intros Hlt. rewrite (bool_decide_eq_true_2 (_ < PDFViewer.totalPages v)) by done.
    assert (Hcur : PDFViewer.currentPage
                     (fst (PDFViewer.goToPage (PDFViewer.currentPage v + 1) (v, w)))
                   = PDFViewer.currentPage v + 1).
    { rewrite (goToPage_clamps _ numPages) by done. lia. }
    rewrite Hcur, bool_decide_eq_true_2 by lia.
    destruct (PDFViewer.goToPage (PDFViewer.currentPage v + 1) (v, w))
      as [v1 w1] eqn:E.
    pose proof (Hdoc' (PDFViewer.currentPage v + 1)) as Hd1.
    pose proof (Htotal (PDFViewer.currentPage v + 1)) as Ht1.
    rewrite E in Hd1, Ht1. cbn [fst] in Hd1, Ht1.
    rewrite (goToPage_clamps _ numPages) by done. rewrite Ht1. lia.
Qed.

End PageTurnProperties.

Lemma page_turns_stay_within_the_document_witness :
  PDFViewer.pdfDocument (fst pdfShown) = Some 3
  ∧ 1 ≤ PDFViewer.currentPage (fst pdfShown) ≤ PDFViewer.totalPages (fst pdfShown)
  ∧ PDFViewer.currentPage (fst (PDFViewer.nextPage pdfShown)) = 2.
Proof.
  assert (H1 : PDFViewer.pdfDocument (fst pdfShown) = Some 3)
    by (vm_compute; reflexivity).
  assert (H2 : 1 ≤ PDFViewer.currentPage (fst pdfShown)
               ≤ PDFViewer.totalPages (fst pdfShown))
    by (vm_compute; split; discriminate).
  split; [exact H1|]. split; [exact H2|].
  destruct (page_turns_stay_within_the_document (fst pdfShown) (snd pdfShown) 3 H1 H2)
    as (Hnext & _).
  rewrite <- surjective_pairing in Hnext. rewrite Hnext.
  vm_compute. reflexivity.
Defined.

(** ** Positions in the video *)

Section VideoFacts.

Context {S : Type} `{engine : !Utils.Engine}.
Implicit Types (p : VideoPlayer.t) (w : @World S).


Lemma gt_false (a b : Q) : VideoPlayer.gt a b = false ↔ (a <= b)%Q.
Proof.
  unfold VideoPlayer.gt. by rewrite negb_false_iff, Qle_bool_iff.
Qed.

(** A time within the video is its own clamp. *)
Lemma clamp_of_a_time_within (d t : Q) :
  (0 <= t)%Q → (t <= d)%Q → (Qmax 0 (Qmin d t) == t)%Q.
Proof.
  intros H0 Hd. rewrite (Q.min_r d t) by done. by apply Q.max_r.
Qed.

Lemma slider_time_within (value d : Q) :
  (0 <= value)%Q → (value <= 100)%Q → (0 <= d)%Q →
  (0 <= value / 100 * d)%Q ∧ (value / 100 * d <= d)%Q.
Proof.
  intros H0 H100 Hd.
  assert (H1 : (0 <= value / 100)%Q).
  { apply Qle_shift_div_l; [reflexivity|]. by rewrite Qmult_0_l. }
  assert (H2 : (value / 100 <= 1)%Q).
  { apply Qle_shift_div_r; [reflexivity|]. by rewrite Qmult_1_l. }
  split.
  - by apply Qmult_le_0_compat.
  - rewrite <- (Qmult_1_l d) at 2. by apply Qmult_le_compat_r.
Qed.

End VideoFacts.

Section VideoProperties.

Context {S : Type} `{engine : !Utils.Engine}.
Implicit Types (p : VideoPlayer.t) (w : @World S).

(** A seek made with the slider ([onSliderInput] and then
    [onSliderChange] with the same value, between 0 and 100): the element
    is moved to that share of the duration, the cached time is that time,
    and, when it is more than a second away from the last saved position,
    that time is what the library holds for the file afterwards; otherwise
    the library is not touched. The file is in the list, ids unique. *)
Theorem slider_seek_persists_its_target value p w x file :
  VideoPlayer.videoElement p = Some x →
  VideoPlayer.currentFile p = Some file →
  file ∈ files w → (file < length (heap w))%nat →
  NoDup (idOf w <$> files w) →
  (0 <= value)%Q → (value <= 100)%Q → (0 <= VideoPlayer.duration p)%Q →
  let target := (value / 100 * VideoPlayer.duration p)%Q in
  let st' := VideoPlayer.onSliderChange value
               (VideoPlayer.onSliderInput value (p, w)) in
  (∃ e, VideoPlayer.videoElement (fst st') = Some e ∧ (e == target)%Q)
  ∧ VideoPlayer.currentTime (fst st') = target
  ∧ if VideoPlayer.gt (Qabs (target - VideoPlayer.lastSavedPosition p)) 1
    then MediaFile.lastViewedTime (heap (snd st') !!! file) = target
         ∧ VideoPlayer.lastSavedPosition (fst st') = target
    else snd st' = w
         ∧ VideoPlayer.lastSavedPosition (fst st') = VideoPlayer.lastSavedPosition p.
Proof.
  intros Hv Hf Hin Hlt Hnd H0 H100 Hd. cbv zeta.
  destruct (slider_time_within value (VideoPlayer.duration p) H0 H100 Hd)
    as [Ht0 Htd].
  unfold VideoPlayer.onSliderInput, VideoPlayer.onSliderChange. rewrite Hv, Hf.
  cbn [VideoPlayer.videoElement VideoPlayer.currentFile VideoPlayer.duration].
  unfold VideoPlayer.seek.
  cbn [VideoPlayer.videoElement VideoPlayer.currentFile VideoPlayer.duration
       VideoPlayer.currentTime VideoPlayer.isSeeking VideoPlayer.lastSavedPosition].
  unfold VideoPlayer.saveCurrentPosition.
  cbn [VideoPlayer.videoElement VideoPlayer.currentFile VideoPlayer.duration
       VideoPlayer.currentTime VideoPlayer.isSeeking VideoPlayer.lastSavedPosition].
  destruct (VideoPlayer.gt _ 1) eqn:Hgt; cbn [fst snd VideoPlayer.videoElement
    VideoPlayer.currentTime VideoPlayer.lastSavedPosition].
  - split; [eexists; split; [done|by apply clamp_of_a_time_within]|].
    split; [done|]. split; [|done].
    destruct (updateField_listed
                (MediaFile.set_lastViewedTime
                   (value / 100 * VideoPlayer.duration p)) file w)
      as (P1 & _); [done..|].
    unfold updateLastViewedTime. by rewrite P1.
  - split; [eexists; split; [done|by apply clamp_of_a_time_within]|].
    done.
Qed.

(** [rewind] and [forward] with a file loaded and a duration that is not
    negative: the element ends up within the video, ten seconds before,
    resp. after, the cached time when that is within the video, and at the
    start, resp. the end, otherwise. *)
Theorem rewind_and_forward_stay_within_the_video p w x file :
  VideoPlayer.videoElement p = Some x →
  VideoPlayer.currentFile p = Some file →
  (0 <= VideoPlayer.duration p)%Q →
  ∃ r f,
    VideoPlayer.videoElement (fst (VideoPlayer.rewind (p, w))) = Some r
    ∧ VideoPlayer.videoElement (fst (VideoPlayer.forward (p, w))) = Some f
    ∧ (0 <= r)%Q ∧ (r <= VideoPlayer.duration p)%Q
    ∧ (0 <= f)%Q ∧ (f <= VideoPlayer.duration p)%Q
    ∧ ((10 <= VideoPlayer.currentTime p)%Q →
       (VideoPlayer.currentTime p - 10 <= VideoPlayer.duration p)%Q →
       (r == VideoPlayer.currentTime p - 10)%Q)
    ∧ ((VideoPlayer.currentTime p <= 10)%Q → (r == 0)%Q)
    ∧ ((0 <= VideoPlayer.currentTime p + 10)%Q →
       (VideoPlayer.currentTime p + 10 <= VideoPlayer.duration p)%Q →
       (f == VideoPlayer.currentTime p + 10)%Q)
    ∧ ((VideoPlayer.duration p <= VideoPlayer.currentTime p + 10)%Q →
       (f == VideoPlayer.duration p)%Q).
Proof.
  intros Hv Hf Hd. unfold VideoPlayer.rewind, VideoPlayer.forward. cbn [fst].
  rewrite !(seek_clamps _ p w x file) by done.
  eexists _, _. split; [done|]. split; [done|].
  destruct (clamp_within_duration (VideoPlayer.duration p)
              (VideoPlayer.currentTime p - 10) Hd) as [R0 Rd].
  destruct (clamp_within_duration (VideoPlayer.duration p)
              (VideoPlayer.currentTime p + 10) Hd) as [F0 Fd].
  repeat split; try done.
  - intros H10 Hle. apply clamp_of_a_time_within; [|done].
    apply (Qplus_le_l _ _ 10). ring_simplify. done.
  - intros H10. apply Q.max_l.
    eapply Qle_trans; [apply Q.le_min_r|].
    apply (Qplus_le_l _ _ 10). ring_simplify. done.
  - intros H0 Hle. by apply clamp_of_a_time_within.
  - intros Hle. rewrite (Q.min_l _ _ Hle). by apply Q.max_r.
Qed.


End VideoProperties.

Lemma slider_seek_persists_its_target_witness :
  VideoPlayer.videoElement (fst videoShown) = Some 0%Q
  ∧ VideoPlayer.currentFile (fst videoShown) = Some 0%nat
  ∧ 0%nat ∈ files (snd videoShown)
  ∧ (0 < length (heap (snd videoShown)))%nat
  ∧ NoDup (idOf (snd videoShown) <$> files (snd videoShown))
  ∧ (0 <= 50)%Q ∧ (50 <= 100)%Q
  ∧ (0 <= VideoPlayer.duration (fst videoShown))%Q
  ∧ VideoPlayer.currentTime
      (fst (VideoPlayer.onSliderChange 50
              (VideoPlayer.onSliderInput 50 (fst videoShown, snd videoShown))))
    = (50 / 100 * VideoPlayer.duration (fst videoShown))%Q.
Proof.
  assert (H1 : VideoPlayer.videoElement (fst videoShown) = Some 0%Q)
    by (vm_compute; reflexivity).
  assert (H2 : VideoPlayer.currentFile (fst videoShown) = Some 0%nat)
    by (vm_compute; reflexivity).
  assert (H3 : 0%nat ∈ files (snd videoShown))
    by (apply (bool_decide_unpack _); vm_compute; exact I).
  assert (H4 : (0 < length (heap (snd videoShown)))%nat)
    by (apply (bool_decide_unpack _); vm_compute; exact I).
  assert (H5 : NoDup (idOf (snd videoShown) <$> files (snd videoShown)))
    by (apply (bool_decide_unpack _); vm_compute; exact I).
  assert (H6 : (0 <= 50)%Q) by discriminate.
  assert (H7 : (50 <= 100)%Q) by discriminate.
  assert (H8 : (0 <= VideoPlayer.duration (fst videoShown))%Q)
    by (vm_compute; discriminate).
  split; [exact H1|]. split; [exact H2|]. split; [exact H3|]. split; [exact H4|].
  split; [exact H5|]. split; [exact H6|]. split; [exact H7|]. split; [exact H8|].
  exact (proj1 (proj2 (slider_seek_persists_its_target 50 (fst videoShown)
                         (snd videoShown) 0%Q 0%nat H1 H2 H3 H4 H5 H6 H7 H8))).
Defined.

Lemma rewind_and_forward_stay_within_the_video_witness :
  VideoPlayer.videoElement (fst videoShown) = Some 0%Q
  ∧ VideoPlayer.currentFile (fst videoShown) = Some 0%nat
  ∧ (0 <= VideoPlayer.duration (fst videoShown))%Q
  ∧ ∃ r, VideoPlayer.videoElement
           (fst (VideoPlayer.rewind (fst videoShown, snd videoShown))) = Some r
         ∧ (0 <= r)%Q.
Proof.
  assert (H1 : VideoPlayer.videoElement (fst videoShown) = Some 0%Q)
    by (vm_compute; reflexivity).
  assert (H2 : VideoPlayer.currentFile (fst videoShown) = Some 0%nat)
    by (vm_compute; reflexivity).
  assert (H3 : (0 <= VideoPlayer.duration (fst videoShown))%Q)
    by (vm_compute; discriminate).
  split; [exact H1|]. split; [exact H2|]. split; [exact H3|].
  destruct (rewind_and_forward_stay_within_the_video (fst videoShown)
              (snd videoShown) 0%Q 0%nat H1 H2 H3)
    as (r & f & Hr & _ & Hr0 & _).
  exists r. split; [exact Hr | exact Hr0].
Defined.

(** ** Identifiers *)

Section IdentifierFacts.

(** What [Math.random() * 16 | 0] is for a draw in [0, 1). *)
Lemma random_digit (q : Q) :
  (0 <= q)%Q → (q < 1)%Q →
  0 ≤ Utils.toInt32 (Utils.truncate (q * 16)) < 16.
Proof.
  destruct q as [n d]. unfold Qle, Qlt, Utils.truncate, Utils.toInt32. cbn.
  intros H0 H1.
  assert (Hq : 0 ≤ Z.quot (n * 16) (Z.pos (d * 1)) < 16).
  { rewrite Z.quot_div_nonneg by lia. split.
    - apply Z.div_pos; lia.
    - apply Z.div_lt_upper_bound; lia. }
  rewrite Z.mod_small by lia. lia.
Qed.

Lemma toString16_digit (v : Z) :
  0 ≤ v < 16 → Utils.toString16 v = String (Utils.hexDigit v) EmptyString.
Proof.
  intros Hv. unfold Utils.toString16.
  destruct (Z.ltb_spec v 0) as [|_]; [lia|]. cbn [Utils.digits16].
  rewrite Z.mod_small, Z.div_small by lia. reflexivity.
Qed.

Lemma hexDigit_hex (v : Z) : Utils.hexDigit v ∈ hexDigits.
Proof.
  unfold Utils.hexDigit, hexDigits.
  repeat case_match; apply (bool_decide_unpack _); reflexivity.
Qed.

Lemma variant_digit (r : Z) :
  0 ≤ r < 16 →
  0 ≤ Z.lor (Z.land r 3) 8 < 16
  ∧ Utils.hexDigit (Z.lor (Z.land r 3) 8) ∈ ["8"; "9"; "a"; "b"]%char.
Proof.
  intros Hr.
  assert (r = 0 ∨ r = 1 ∨ r = 2 ∨ r = 3 ∨ r = 4 ∨ r = 5 ∨ r = 6 ∨ r = 7
          ∨ r = 8 ∨ r = 9 ∨ r = 10 ∨ r = 11 ∨ r = 12 ∨ r = 13 ∨ r = 14
          ∨ r = 15) as Hcases by lia.
  clear Hr.
  repeat (destruct Hcases as [Hcases|Hcases];
          [subst r; split; [split; [discriminate | reflexivity]
                           | apply (bool_decide_unpack _); reflexivity] |]).
  subst r. split; [split; [discriminate | reflexivity]
                  | apply (bool_decide_unpack _); reflexivity].
Qed.

(** Every place of the template is filled as [fills] says, one character
    for one character. *)
Lemma replaceXY_fills (random : nat → Q) :
  (∀ i, (0 <= random i)%Q ∧ (random i < 1)%Q) →
  ∀ template calls,
    Forall2 fills (String.list_ascii_of_string template)
            (String.list_ascii_of_string (Utils.replaceXY random calls template)).
Proof.
  intros Hrandom template. induction template as [|c rest IH]; intros calls.
  - constructor.
  - cbn [Utils.replaceXY String.list_ascii_of_string].
    destruct (Hrandom calls) as [H0 H1].
    pose proof (random_digit _ H0 H1) as Hr.
    destruct (Ascii.eqb c "x") eqn:Hx; cbn [orb].
    + rewrite toString16_digit by done. cbn. constructor; [|apply IH].
      unfold fills. rewrite Hx. apply hexDigit_hex.
    + destruct (Ascii.eqb c "y") eqn:Hy.
      * destruct (variant_digit _ Hr) as [Hv Hd].
        rewrite toString16_digit by done. cbn. constructor; [|apply IH].
        unfold fills. by rewrite Hx, Hy.
      * cbn. constructor; [|apply IH]. unfold fills. by rewrite Hx, Hy.
Qed.

End IdentifierFacts.

Section IdentifierProperties.

(** [generateUUID], whatever [Math.random] draws in [0, 1): the identifier
    has 36 characters, hyphens at the places 8, 13, 18 and 23, the version
    digit 4 at place 14, one of 8, 9, a, b at place 19, and lower-case
    hexadecimal digits everywhere else. *)
Theorem generateUUID_is_a_version_4_uuid (random : nat → Q) :
  (∀ i, (0 <= random i)%Q ∧ (random i < 1)%Q) →
  let u := String.list_ascii_of_string (Utils.generateUUID random) in
  length u = 36%nat
  ∧ ∀ (i : nat) c, u !! i = Some c →
      if bool_decide (i ∈ [8; 13; 18; 23]%nat) then c = "-"%char
      else if bool_decide (i = 14%nat) then c = "4"%char
      else if bool_decide (i = 19%nat) then c ∈ ["8"; "9"; "a"; "b"]%char
      else c ∈ hexDigits.
Proof.
  intros Hrandom. cbv zeta.
  assert (Hfills : Forall2 fills (String.list_ascii_of_string Utils.uuidTemplate)
                     (String.list_ascii_of_string (Utils.generateUUID random)))
    by exact (replaceXY_fills random Hrandom Utils.uuidTemplate 0%nat).
  generalize dependent (String.list_ascii_of_string (Utils.generateUUID random)).
  intros u Hfills.
  split.
  - by rewrite <- (Forall2_length _ _ _ Hfills).
  - intros i c Hi.
    destruct (Forall2_lookup_r _ _ _ _ _ Hfills Hi) as (t & Ht & Hf).
    clear Hi Hfills.
    do 36 (destruct i as [|i]; [injection Ht as <-; exact Hf|]).
    discriminate Ht.
Qed.

End IdentifierProperties.

Lemma generateUUID_is_a_version_4_uuid_witness :
  (∀ i : nat, (0 <= (fun _ => 5 # 8) i)%Q ∧ ((fun _ => 5 # 8) i < 1)%Q)
  ∧ Utils.generateUUID (fun _ => 5 # 8) = "aaaaaaaa-aaaa-4aaa-aaaa-aaaaaaaaaaaa"
  ∧ length (String.list_ascii_of_string (Utils.generateUUID (fun _ => 5 # 8))) = 36%nat.
Proof.
  assert (H : ∀ i : nat, (0 <= (fun _ => 5 # 8) i)%Q ∧ ((fun _ => 5 # 8) i < 1)%Q)
    by (intros i; split; [discriminate | reflexivity]).
  split; [exact H|]. split; [vm_compute; reflexivity|].
  exact (proj1 (generateUUID_is_a_version_4_uuid (fun _ => 5 # 8) H)).
Defined.

(** ** Debounced calls *)

Section DebounceFacts.

Context {A : Type}.
Variable wait : Z.

Lemma timerRun_snoc (events : list (@Utils.TimerEvent A)) e :
  Utils.timerRun wait (events ++ [e])
  = Utils.timerStep wait (Utils.timerRun wait events) e.
Proof. unfold Utils.timerRun. by rewrite fold_left_app. Qed.

Lemma answersCall_later (events : list (@Utils.TimerEvent A)) e x :
  answersCall wait events x → answersCall wait (events ++ [e]) x.
Proof.
  intros (pre & mid & post & t0 & -> & Hwait & Hmid).
  exists pre, mid, (post ++ [e]), t0. split; [|done].
  by rewrite <- !app_assoc, <- !app_comm_cons, <- app_assoc.
Qed.

(** What the pending timer remembers, and what every call of [func] so
    far answers. *)
Lemma timerRun_invariant (events : list (@Utils.TimerEvent A)) :
  match Utils.timeout (Utils.timerRun wait events) with
  | Some (due, args) =>
      ∃ pre mid t0,
        events = pre ++ Utils.Call t0 args :: mid
        ∧ due = t0 + Z.max 0 wait
        ∧ Forall (fun e => ∃ t', e = Utils.Elapse t' ∧ t' < due) mid
  | None => True
  end
  ∧ Forall (answersCall wait events) (Utils.executed (Utils.timerRun wait events)).
Proof.
  induction events as [|e events [IHt IHe]] using rev_ind.
  - split; [done|constructor].
  - rewrite timerRun_snoc.
    assert (IHe' : Forall (answersCall wait (events ++ [e]))
                     (Utils.executed (Utils.timerRun wait events))).
    { eapply Forall_impl; [exact IHe|]. intros x. apply answersCall_later. }
    destruct e as [now args|now]; cbn [Utils.timerStep].
    + unfold Utils.executedFunction. cbn [Utils.timeout Utils.executed].
      split; [|done]. exists events, [], now. by repeat split.
    + unfold Utils.later.
      destruct (Utils.timeout (Utils.timerRun wait events)) as [[due args]|] eqn:Ht;
        [|by rewrite Ht].
      destruct IHt as (pre & mid & t0 & -> & -> & Hmid).
      case_bool_decide as Hdue; cbn [Utils.timeout Utils.executed].
      * split; [done|]. apply Forall_app. split; [done|].
        constructor; [|constructor].
        exists pre, mid, [], t0. cbn [fst snd].
        split; [by rewrite <- app_assoc, <- app_comm_cons|]. done.
      * rewrite Ht. split; [|done].
        exists pre, (mid ++ [Utils.Elapse now]), t0.
        split; [by rewrite <- app_assoc, <- app_comm_cons|]. split; [done|].
        apply Forall_app. split; [done|]. constructor; [|constructor].
        exists now. split; [done|lia].
Qed.

End DebounceFacts.

Section DebounceProperties.

Context {A : Type}.
Variable wait : Z.

(** A function debounced by [Utils.debounce], through any sequence of
    calls and of runs of its timer: every call of [func] answers a call of
    the debounced function made with the same arguments at least [wait]
    milliseconds before, with no other call in between and no earlier run
    of [func] for it; a call followed by a run of the timer after the
    delay leads to [func] being called once, with the arguments of that
    call, whatever came before; and a run of the timer within the delay
    calls nothing. So of a burst of calls less than [wait] apart only the
    last one is carried out. *)
Theorem debounce_carries_out_the_last_call_only
    (events : list (@Utils.TimerEvent A)) :
  Forall (answersCall wait events) (Utils.executed (Utils.timerRun wait events))
  ∧ ∀ t0 args t,
      Utils.executed (Utils.timerRun wait (events ++ [Utils.Call t0 args; Utils.Elapse t]))
      = Utils.executed (Utils.timerRun wait events)
        ++ (if bool_decide (t0 + Z.max 0 wait ≤ t) then [(t, args)] else []).
Proof.
  split; [apply timerRun_invariant|].
  intros t0 args t.
  replace (events ++ [Utils.Call t0 args; Utils.Elapse t])
    with ((events ++ [Utils.Call t0 args]) ++ [Utils.Elapse t])
    by by rewrite <- app_assoc.
  rewrite !timerRun_snoc. cbn [Utils.timerStep].
  unfold Utils.later, Utils.executedFunction. cbn [Utils.timeout Utils.executed].
  case_bool_decide; cbn [Utils.executed]; by rewrite ?app_nil_r.
Qed.

End DebounceProperties.

Example debounce_burst :
  Utils.executed
    (Utils.timerRun 1000
       [Utils.Call 0 "a"; Utils.Elapse 500; Utils.Call 600 "b"; Utils.Elapse 1000;
        Utils.Call 1500 "c"; Utils.Elapse 2499; Utils.Elapse 2500; Utils.Elapse 4000])
  = [(2500, "c")].
Proof. vm_compute. reflexivity. Qed.

(** ** Thumbnails *)

Section ThumbnailFacts.

Lemma round_between (q : Q) (a b : Z) :
  (inject_Z a <= q)%Q → (q <= inject_Z b)%Q → a ≤ Utils.round q ≤ b.
Proof.
  intros Ha Hb. unfold Utils.round. split.
  - rewrite <- (Qfloor_Z a). apply Qfloor_resp_le. lra.
  - apply Z.lt_succ_r. rewrite Zlt_Qlt. unfold Z.succ. rewrite inject_Z_plus.
    pose proof (Qfloor_le (q + (1 # 2))) as Hfloor.
    change (inject_Z 1) with 1%Q. lra.
Qed.

End ThumbnailFacts.

Section ThumbnailProperties.

(** [calculateThumbnailSize] with its default bounds, for an original of
    positive width and height: the thumbnail is at most 100 wide and 140
    high, neither size is negative, and it is exactly 100 wide or exactly
    140 high. *)
Theorem thumbnail_fits_its_box (originalWidth originalHeight : Q) :
  (0 < originalWidth)%Q → (0 < originalHeight)%Q →
  let size := Utils.calculateThumbnailSize originalWidth originalHeight 100 140 in
  0 ≤ fst size ≤ 100 ∧ 0 ≤ snd size ≤ 140 ∧ (fst size = 100 ∨ snd size = 140).
Proof.
  intros Hw Hh. cbv zeta. unfold Utils.calculateThumbnailSize.
  set (a := (originalWidth / originalHeight)%Q).
  assert (Ha : (0 < a)%Q).
  { apply Qlt_shift_div_l; [done|]. lra. }
  assert (Hinv : (100 / a * a == 100)%Q) by (field; lra).
  destruct (Qle_bool (100 / a) 140) eqn:Hle; cbn [negb fst snd].
  - apply Qle_bool_iff in Hle.
    assert (H0 : (0 <= 100 / a)%Q).
    { apply Qle_shift_div_l; [done|]. lra. }
    split; [|split].
    + apply (round_between 100 0 100); [discriminate|apply Qle_refl].
    + apply (round_between _ 0 140); [exact H0 | exact Hle].
    + left. reflexivity.
  - assert (Hgt : (140 < 100 / a)%Q).
    { apply Qnot_le_lt. intros Hle'%Qle_bool_iff. congruence. }
    assert (Hlt : (140 * a < 100)%Q).
    { apply (Qmult_lt_compat_r _ _ a) in Hgt; [|done]. by rewrite Hinv in Hgt. }
    split; [|split].
    + apply (round_between _ 0 100).
      * change (inject_Z 0) with 0%Q. nra.
      * change (inject_Z 100) with 100%Q. lra.
    + apply (round_between 140 0 140); [discriminate|apply Qle_refl].
    + right. reflexivity.
Qed.

End ThumbnailProperties.

Lemma thumbnail_fits_its_box_witness :
  (0 < 4000)%Q ∧ (0 < 3000)%Q
  ∧ Utils.calculateThumbnailSize 4000 3000 100 140 = (100, 75)
  ∧ 0 ≤ snd (Utils.calculateThumbnailSize 4000 3000 100 140) ≤ 140.
Proof.
  assert (H1 : (0 < 4000)%Q) by reflexivity.
  assert (H2 : (0 < 3000)%Q) by reflexivity.
  split; [exact H1|]. split; [exact H2|]. split; [vm_compute; reflexivity|].
  exact (proj1 (proj2 (thumbnail_fits_its_box 4000 3000 H1 H2))).
Defined.

(** ** Zooming an image *)

Section ImageViewerFacts.

Implicit Types (v : ImageViewer.t).

Lemma setScale_inRange newScale zoomCenter v :
  scaleInRange v → scaleInRange (ImageViewer.setScale newScale zoomCenter v).
Proof.
  intros (Hmin & Hmax & Hlo & Hhi). unfold ImageViewer.setScale.
  destruct (Qeq_bool _ _); [done|].
  unfold scaleInRange.
  assert (Hfields : ∀ v', ImageViewer.minScale v' = ImageViewer.minScale v →
                          ImageViewer.maxScale v' = ImageViewer.maxScale v →
    let v'' := ImageViewer.set_scale
                 (Qmax (ImageViewer.minScale v) (Qmin (ImageViewer.maxScale v) newScale))
                 v' in
    ImageViewer.minScale v'' = (1 # 10)%Q ∧ ImageViewer.maxScale v'' = 5%Q
    ∧ ((1 # 10) <= ImageViewer.scale v'')%Q ∧ (ImageViewer.scale v'' <= 5)%Q).
  { intros v' E1 E2. cbn. rewrite E1, E2, Hmin, Hmax. repeat split.
    - apply Q.le_max_l.
    - apply Q.max_lub; [discriminate | apply Q.le_min_l]. }
  destruct zoomCenter as [[x y]|]; by apply Hfields.
Qed.

Lemma fitImageToContainer_inRange v :
  scaleInRange v → scaleInRange (ImageViewer.fitImageToContainer v).
Proof.
  intros Hv. unfold ImageViewer.fitImageToContainer.
  destruct (ImageViewer.imageNaturalSize v), (ImageViewer.containerSize v).
  destruct (_ || _)%bool; [done|]. by apply setScale_inRange.
Qed.

Lemma step_inRange v e : scaleInRange v → scaleInRange (ImageViewer.step v e).
Proof.
  intros Hv. destruct e; cbn [ImageViewer.step].
  - destruct Hv as (Hmin & Hmax & _). by repeat split.
  - exact Hv.
  - destruct Hv as (Hmin & Hmax & _). by repeat split.
  - by apply setScale_inRange.
  - by apply setScale_inRange.
  - unfold ImageViewer.resetZoom.
    destruct (fitImageToContainer_inRange v Hv) as (?&?&?&?). by repeat split.
  - by apply fitImageToContainer_inRange.
  - unfold ImageViewer.handleWheel.
    destruct (ImageViewer.currentFile v); [|done]. by apply setScale_inRange.
  - unfold ImageViewer.handleDoubleClick.
    destruct (ImageViewer.currentFile v); [|done].
    destruct (ImageViewer.gt _ _);
      [by apply fitImageToContainer_inRange | by apply setScale_inRange].
  - by apply setScale_inRange.
  - unfold ImageViewer.handlePointerStart.
    by destruct (ImageViewer.currentFile v).
  - unfold ImageViewer.handlePointerMove.
    destruct (ImageViewer.currentFile v); [|done].
    by destruct (ImageViewer.isDragging v).
  - exact Hv.
Qed.

Lemma run_inRange events : scaleInRange (ImageViewer.run events).
Proof.
  induction events as [|e events IH] using rev_ind.
  - by repeat split.
  - unfold ImageViewer.run in *. rewrite fold_left_app. by apply step_inRange.
Qed.

End ImageViewerFacts.

Section ImageViewerProperties.

Implicit Types (v : ImageViewer.t).

(** Whatever the user does to the image viewer (loading and clearing
    images, the zoom buttons, the wheel, double clicks, pinching, with any
    numbers), its scale stays between 0.1 and 5; zooming in at scale 5 and
    zooming out at scale 0.1 change nothing. *)
Theorem scale_stays_within_its_bounds (events : list ImageViewer.Event) :
  let v := ImageViewer.run events in
  ((1 # 10) <= ImageViewer.scale v)%Q ∧ (ImageViewer.scale v <= 5)%Q
  ∧ ((ImageViewer.scale v == 5)%Q → ImageViewer.zoomIn v = v)
  ∧ ((ImageViewer.scale v == 1 # 10)%Q → ImageViewer.zoomOut v = v).
Proof.
  cbv zeta. destruct (run_inRange events) as (Hmin & Hmax & Hlo & Hhi).
  set (v := ImageViewer.run events) in *.
  split; [done|]. split; [done|]. split.
  - intros Hs. unfold ImageViewer.zoomIn, ImageViewer.setScale.
    rewrite Hmin, Hmax.
    assert (Heq : (Qmax (1 # 10) (Qmin 5 (ImageViewer.scale v * (5 # 4)))
                   == ImageViewer.scale v)%Q).
    { apply Qle_antisym.
      - rewrite Hs. apply Q.max_lub; [discriminate | apply Q.le_min_l].
      - eapply Qle_trans; [|apply Q.le_max_r].
        apply Q.min_glb; lra. }
    apply Qeq_bool_iff in Heq. by rewrite Heq.
  - intros Hs. unfold ImageViewer.zoomOut, ImageViewer.setScale.
    rewrite Hmin, Hmax.
    assert (Heq : (Qmax (1 # 10) (Qmin 5 (ImageViewer.scale v * (4 # 5)))
                   == ImageViewer.scale v)%Q).
    { apply Qle_antisym.
      - apply Q.max_lub; [lra|].
        eapply Qle_trans; [apply Q.le_min_r|]. lra.
      - eapply Qle_trans; [|apply Q.le_max_l]. lra. }
    apply Qeq_bool_iff in Heq. by rewrite Heq.
Qed.

End ImageViewerProperties.

(** ** The library across sessions *)

Section PersistenceFacts.

Context {S : Type} `{engine : !Utils.Engine}.
Variable subscriber : nat -> Payload -> S -> S * option JsError.
Implicit Types (w : @World S).

(** Filling the store from a list with unique ids, no request failing:
    every file is added. *)
Lemma addAll_ok (h : list MediaFile.t) (l : list nat) :
  ∀ stored : gmap string MediaFile.t,
    NoDup ((fun f => MediaFile.id (h !!! f)) <$> l) →
    (∀ f, f ∈ l → stored !! MediaFile.id (h !!! f) = None) →
    ∃ stored',
      addAll (fun _ => None) h l stored = Normal stored'
      ∧ snd <$> map_to_list stored'
        ≡ₚ (snd <$> map_to_list stored) ++ ((fun f => h !!! f) <$> l).
Proof.
  induction l as [|file l IH]; intros stored Hnd Hfresh.
  - exists stored. by rewrite app_nil_r.
  - rewrite fmap_cons in Hnd. apply NoDup_cons in Hnd as [Hfile Hnd].
    cbn [addAll]. rewrite (Hfresh file) by apply list_elem_of_here.
    destruct (IH (<[MediaFile.id (h !!! file) := h !!! file]> stored))
      as (stored' & E & Hperm); [done| |].
    { intros f Hf. rewrite lookup_insert_ne.
      - apply Hfresh. by apply list_elem_of_further.
      - intros Heq. apply Hfile. rewrite Heq.
        by apply (list_elem_of_fmap_2 (fun f => MediaFile.id (h !!! f))). }
    exists stored'. split; [done|]. rewrite Hperm.
    rewrite map_to_list_insert by (apply Hfresh; apply list_elem_of_here).
    rewrite fmap_cons. cbn [snd fmap]. rewrite fmap_cons.
    by rewrite <- Permutation_middle.
Qed.

(** The records appended to a heap are what the references to them
    stand for. *)
Lemma appended_records (rs : list MediaFile.t) :
  ∀ h : list MediaFile.t,
    (fun f => (h ++ rs) !!! f) <$> seq (length h) (length rs) = rs.
Proof.
  induction rs as [|r rs IH]; intros h; [done|].
  cbn [length seq]. rewrite fmap_cons. f_equal.
  - by rewrite list_lookup_total_middle.
  - specialize (IH (h ++ [r])). rewrite <- app_assoc in IH. cbn in IH.
    rewrite length_app in IH. cbn in IH.
    by rewrite Nat.add_1_r in IH.
Qed.

Lemma byId_total : Total byId.
Proof. intros a b. unfold byId. apply String.leb_total. Qed.

(** [loadFiles] when the store answers. *)
Lemma loadFiles_reads stored w :
  isThrow (IDB.transaction (db w)) = false →
  ∃ w' added,
    loadFiles subscriber None stored w = (Normal tt, w')
    ∧ recordsOf w' = getAll stored
    ∧ currentFile w' = currentFile w ∧ db w' = db w
    ∧ eventListeners w' = eventListeners w ∧ debouncedSave w' = debouncedSave w
    ∧ trace w' = trace w ++ Notify "filesChanged" (Files (files w')) :: added
    ∧ notifications added = [].
Proof.
  intros Htx. unfold loadFiles.
  destruct (IDB.transaction (db w)); [|done].
  set (w2 := set_files _ _).
  destruct (emit_spec subscriber "filesChanged" (Files (files w2)) w2)
    as (w' & added & E & L & T & N & _);
    [right; apply filesChanged_own_or_absent|].
  destruct L as (Hh & Hf & Hc & _ & Hd & He & Hs).
  exists w', added. rewrite E. split; [done|].
  split; [unfold recordsOf; rewrite Hh, Hf; apply appended_records|].
  rewrite Hc, Hd, He, Hs, Hf. done.
Qed.

(** [loadSettings] never throws and leaves the library alone. *)
Lemma loadSettings_returns requestError0 requestError1 p w :
  ∃ p' w',
    loadSettings subscriber requestError0 requestError1 (p, w)
    = (Normal tt, (p', w'))
    ∧ sameLibrary w w'.
Proof.
  unfold loadSettings.
  destruct (IDB.transaction (db w)); [|by eexists _, _].
  destruct (getSetting requestError0 _ p w) as [s0|e0];
    [|by eexists _, _].
  destruct (getSetting requestError1 _ p w) as [s1|e1];
    [|by eexists _, _].
  match goal with
  | |- context [emit subscriber ?ev ?d w] =>
      destruct (emit_spec subscriber ev d w) as (w' & added & E & L & _);
        [right; apply settingsChanged_own_or_absent | rewrite E]
  end.
  by eexists _, _.
Qed.

Lemma setupAutoSave_subscribes w :
  ∃ w',
    setupAutoSave w = (Normal tt, w')
    ∧ debouncedSave w' = true
    ∧ eventListeners w'
      = <["filesChanged" := default [] (eventListeners w !! "filesChanged")
                            ++ [DebouncedSave]]> (eventListeners w)
    ∧ heap w' = heap w ∧ files w' = files w ∧ db w' = db w
    ∧ currentFile w' = currentFile w ∧ trace w' = trace w.
Proof.
  unfold setupAutoSave, bind, modify, on, listenersOf. cbn [eventListeners].
  destruct (eventListeners w !! "filesChanged") as [l|] eqn:El.
  - by eexists.
  - rewrite bool_decide_eq_false_2 by apply filesChanged_own_or_absent.
    by eexists.
Qed.

End PersistenceFacts.

Section PersistenceProperties.

Context {S : Type} `{engine : !Utils.Engine}.
Variable subscriber : nat -> Payload -> S -> S * option JsError.
Implicit Types (w : @World S).

(** What [saveFiles] writes, a later [loadFiles] reads (the store
    working, ids unique in the list): the manager that loads has the same
    file records, as many as were saved, but in the order of their ids,
    which need not be the order of the list that was saved; it tells the
    subscribers of [filesChanged] and selects no file. [saveFiles] changes
    nothing in the manager that saves. *)
Theorem saved_library_comes_back_in_id_order stored w w0 :
  NoDup (idOf w <$> files w) →
  isThrow (IDB.transaction (db w)) = false →
  isThrow (IDB.transaction (db w0)) = false →
  let saved := saveFiles None (fun _ => None) stored w in
  let loaded := loadFiles subscriber None (fst saved) w0 in
  snd saved = w
  ∧ fst loaded = Normal tt
  ∧ recordsOf (snd loaded) ≡ₚ recordsOf w
  ∧ Sorted byId (recordsOf (snd loaded))
  ∧ length (files (snd loaded)) = length (files w)
  ∧ currentFile (snd loaded) = currentFile w0
  ∧ ∃ added,
      trace (snd loaded)
      = trace w0 ++ Notify "filesChanged" (Files (files (snd loaded))) :: added
      ∧ notifications added = [].
Proof.
  intros Hnd Htx Htx0. cbv zeta.
  destruct (addAll_ok (heap w) (files w) ∅) as (stored' & Eadd & Hperm);
    [exact Hnd | by intros; apply lookup_empty |].
  assert (Esave : saveFiles None (fun _ => None) stored w = (stored', w)).
  { unfold saveFiles. destruct (IDB.transaction (db w)); [|done].
    by rewrite Eadd. }
  rewrite Esave. cbn [fst snd].
  destruct (loadFiles_reads subscriber stored' w0 Htx0)
    as (w1 & added & Eload & Hrec & Hc & _ & _ & _ & T & N).
  rewrite Eload. cbn [fst snd].
  assert (Hall : getAll stored' ≡ₚ recordsOf w).
  { unfold getAll. rewrite merge_sort_Permutation, Hperm.
    by rewrite map_to_list_empty. }
  split; [done|]. split; [done|].
  split; [by rewrite Hrec|].
  split; [rewrite Hrec; apply (@Sorted_merge_sort _ byId _ byId_total)|].
  split.
  - assert (Hlen : length (recordsOf w1) = length (recordsOf w))
      by by rewrite Hrec, Hall.
    unfold recordsOf in Hlen. by rewrite !length_fmap in Hlen.
  - split; [done|]. by exists added.
Qed.

(** [init], on any manager and whatever the platform answers: it never
    throws. The connection is the one opened, if any. The debounced save
    is created and subscribed to [filesChanged], after the listeners
    already there, exactly when the database was opened and the read of
    the files was not rejected; otherwise the failure is logged, the toast
    [初期化に失敗しました] is shown last, and the manager is left without
    saving: no listener is added. After a read that succeeded the list
    holds the stored records in the order of their ids. *)
Theorem init_sets_up_saving_only_after_loading
    opened getAllError requestError0 requestError1 stored p w :
  let ok := match opened with
            | Normal d => IDB.closed d || bool_decide (getAllError = None)
            | Throw _ => false
            end in
  let result := init subscriber opened getAllError requestError0 requestError1
                     stored (p, w) in
  let w' := snd (snd result) in
  fst result = Normal tt
  ∧ db w' = match opened with Normal d => Some d | Throw _ => db w end
  ∧ debouncedSave w' = ok || debouncedSave w
  ∧ eventListeners w' !! "filesChanged"
    = (if ok
       then Some (default [] (eventListeners w !! "filesChanged") ++ [DebouncedSave])
       else eventListeners w !! "filesChanged")
  ∧ (ok = false →
     ∃ tr e, trace w' = tr ++ [ConsoleError "Failed to initialize MediaManager:" e;
                               Toast "初期化に失敗しました" "error"])
  ∧ match opened with
    | Normal d =>
        if IDB.closed d then files w' = []
        else if getAllError is None then recordsOf w' = getAll stored
             else files w' = files w
    | Throw _ => files w' = files w
    end.
Proof.
  cbv zeta. unfold init, initDB.
  destruct opened as [d|e]; cbn [fst snd].
  2:{ unfold bind, consoleError, showToast, modify. cbn.
      repeat split; try done. intros _. eexists _, _.
      by rewrite <- app_assoc. }
  destruct (IDB.closed d) eqn:Hclosed; cbn [orb].
  - (* the connection is closed: [loadFiles] catches *)
    unfold loadFiles. cbn [db set_db IDB.transaction]. rewrite Hclosed.
    set (w2 := set_files [] _).
    destruct (loadSettings_returns subscriber requestError0 requestError1 p w2)
      as (p' & w3 & E3 & L3).
    rewrite E3.
    destruct (setupAutoSave_subscribes w3)
      as (w4 & E4 & Hs4 & He4 & Hh4 & Hf4 & Hd4 & Hc4 & T4).
    rewrite E4. cbn [fst snd].
    destruct L3 as (Hh3 & Hf3 & Hc3 & _ & Hd3 & He3 & Hs3).
    split; [done|]. split; [by rewrite Hd4, Hd3|].
    split; [done|].
    split; [by rewrite He4, lookup_insert_eq, He3|].
    split; [done|]. by rewrite Hf4, Hf3.
  - destruct getAllError as [e|].
    + (* the read is rejected *)
      unfold loadFiles. cbn [db set_db IDB.transaction]. rewrite Hclosed.
      unfold bind, consoleError, showToast, modify. cbn.
      repeat split; try done. intros _. eexists _, _.
      by rewrite <- app_assoc.
    + rewrite bool_decide_eq_true_2 by done.
      assert (Htx : isThrow (IDB.transaction (db (set_db (Some d) w))) = false)
        by (cbn; by rewrite Hclosed).
      destruct (loadFiles_reads subscriber stored (set_db (Some d) w) Htx)
        as (w2 & added & E2 & Hrec & _ & Hd2 & He2 & Hs2 & _).
      rewrite E2.
      destruct (loadSettings_returns subscriber requestError0 requestError1 p w2)
        as (p' & w3 & E3 & L3).
      rewrite E3.
      destruct (setupAutoSave_subscribes w3)
        as (w4 & E4 & Hs4 & He4 & Hh4 & Hf4 & Hd4 & Hc4 & T4).
      rewrite E4. cbn [fst snd].
      destruct L3 as (Hh3 & Hf3 & Hc3 & _ & Hd3 & He3 & Hs3).
      split; [done|]. split; [by rewrite Hd4, Hd3, Hd2|].
      split; [done|].
      split; [by rewrite He4, lookup_insert_eq, He3, He2|].
      split; [done|].
      unfold recordsOf in *. by rewrite Hh4, Hf4, Hh3, Hf3.
Qed.

End PersistenceProperties.

Lemma saved_library_comes_back_in_id_order_witness :
  NoDup (idOf twoFiles <$> files twoFiles)
  ∧ isThrow (IDB.transaction (db twoFiles)) = false
  ∧ isThrow (IDB.transaction (db (emptyLibrary tt))) = false
  ∧ recordsOf
      (snd (loadFiles quiet None
              (fst (saveFiles None (fun _ => None) ∅ twoFiles)) (emptyLibrary tt)))
    ≡ₚ recordsOf twoFiles.
Proof.
  assert (H1 : NoDup (idOf twoFiles <$> files twoFiles))
    by (apply (bool_decide_unpack _); vm_compute; exact I).
  assert (H2 : isThrow (IDB.transaction (db twoFiles)) = false)
    by (vm_compute; reflexivity).
  assert (H3 : isThrow (IDB.transaction (db (emptyLibrary tt))) = false)
    by reflexivity.
  split; [exact H1|]. split; [exact H2|]. split; [exact H3|].
  exact (proj1 (proj2 (proj2 (saved_library_comes_back_in_id_order quiet ∅
                                twoFiles (emptyLibrary tt) H1 H2 H3)))).
Defined.

(** The order of the list is not what comes back: a library in which the
    video was imported before the PDF is reloaded with the PDF first. *)
Example reloaded_library_is_reordered :
  let w := snd (addFile quiet (importOk "id-a" (Some 3)) aPdf oneVideo) in
  let loaded := snd (loadFiles quiet None
                       (fst (saveFiles None (fun _ => None) ∅ w)) (emptyLibrary tt)) in
  MediaFile.id <$> recordsOf w = ["id-c"; "id-a"]
  ∧ MediaFile.id <$> recordsOf loaded = ["id-a"; "id-c"].
Proof. cbv zeta. by_computation. Qed.

(** ** The service worker *)

Section ServiceWorkerFacts.

Import ServiceWorker.

Variable selfOrigin : string.
Variable base : string.
Variable fetchUrl : string → Completion Response.

Implicit Types (caches : gmap string (gmap string Response)).
Implicit Types (cache : gmap string Response).

Lemma cacheOf_open name name' caches :
  cacheOf name (open name' caches) = cacheOf name caches.
Proof.
  unfold open, cacheOf. destruct (caches !! name') eqn:E; [done|].
  destruct (decide (name = name')) as [->|Hne].
  - by rewrite lookup_insert_eq, E.
  - by rewrite lookup_insert_ne.
Qed.

Lemma open_existing name caches :
  is_Some (caches !! name) → open name caches = caches.
Proof. unfold open. by intros [c ->]. Qed.

Lemma cacheOf_cachePut name request response caches :
  method request = "GET" → storable response = true →
  cacheOf name (cachePut name request response caches) !! url request = Some response.
Proof.
  intros Hget Hst. unfold cachePut, cacheOf.
  rewrite bool_decide_eq_true_2, Hst by done. cbn [andb].
  by rewrite lookup_insert_eq; cbn; rewrite lookup_insert_eq.
Qed.

Lemma cacheOf_cachePut_other name name' request response caches :
  name ≠ name' →
  cacheOf name (cachePut name' request response caches) = cacheOf name caches.
Proof.
  intros Hne. unfold cachePut, cacheOf.
  destruct (_ && _); [|done]. by rewrite lookup_insert_ne.
Qed.

(** A URL under which the cache holds what its fetch answers. *)
Lemma addAll_keeps files : ∀ cache cache' u r,
  addAll base fetchUrl files cache = Some cache' →
  cache !! u = Some r → fetchUrl u = Normal r →
  ∃ r', cache' !! u = Some r' ∧ fetchUrl u = Normal r'.
Proof.
  induction files as [|f files IH]; intros cache cache' u r Hadd Hu Hfetch.
  - injection Hadd as <-. by exists r.
  - cbn [addAll] in Hadd.
    destruct (fetchUrl (resolve base f)) as [response|] eqn:Hf; [|done].
    destruct (ok response && storable response); [|done].
    destruct (decide (u = resolve base f)) as [->|Hne].
    + eapply IH; [exact Hadd | apply lookup_insert_eq | exact Hf].
    + eapply IH; [exact Hadd | by rewrite lookup_insert_ne | exact Hfetch].
Qed.

Lemma addAll_stores files : ∀ cache,
  (∀ f, f ∈ files →
        ∃ r, fetchUrl (resolve base f) = Normal r
             ∧ ok r = true ∧ storable r = true) →
  ∃ cache',
    addAll base fetchUrl files cache = Some cache'
    ∧ ∀ f, f ∈ files →
           ∃ r, cache' !! resolve base f = Some r
                ∧ fetchUrl (resolve base f) = Normal r.
Proof.
  induction files as [|f files IH]; intros cache Hall.
  - exists cache. split; [done|]. intros f Hf. by apply elem_of_nil in Hf.
  - destruct (Hall f) as (r & Hf & Hok & Hst); [apply list_elem_of_here|].
    cbn [addAll]. rewrite Hf, Hok, Hst. cbn [andb].
    destruct (IH (<[resolve base f := r]> cache)) as (cache' & Hadd & Hin).
    { intros g Hg. apply Hall. by apply list_elem_of_further. }
    exists cache'. split; [done|].
    intros g [->|Hg]%elem_of_cons; [|by apply Hin].
    eapply addAll_keeps; [exact Hadd | apply lookup_insert_eq | exact Hf].
Qed.

(** After an [install] whose fetches of the core files all succeed, the
    cache of this version holds every core file. *)
Lemma install_precaches caches :
  (∀ f, f ∈ CORE_FILES →
        ∃ r, fetchUrl (resolve base f) = Normal r
             ∧ ok r = true ∧ storable r = true) →
  is_Some (install base fetchUrl caches !! CACHE_NAME)
  ∧ ∀ f, f ∈ CORE_FILES →
         ∃ r, cacheOf CACHE_NAME (install base fetchUrl caches) !! resolve base f
              = Some r
              ∧ fetchUrl (resolve base f) = Normal r.
Proof.
  intros Hall. unfold install.
  destruct (addAll_stores CORE_FILES (cacheOf CACHE_NAME (open CACHE_NAME caches)) Hall)
    as (cache & Hadd & Hin).
  rewrite Hadd. split; [by rewrite lookup_insert_eq|].
  intros f Hf. unfold cacheOf at 1. rewrite lookup_insert_eq. cbn [default].
  destruct (Hin f Hf) as (r & Hr & Hfetch).
  clear Hadd Hin Hall.
  revert cache r Hr Hfetch. generalize EXTERNAL_DEPS.
  intros deps. induction deps as [|dep deps IH]; intros cache r Hr Hfetch.
  - by exists r.
  - cbn [fold_left].
    destruct (addAll base fetchUrl [dep] cache) as [cache1|] eqn:Hadd.
    + destruct (addAll_keeps [dep] cache cache1 _ r Hadd Hr Hfetch)
        as (r1 & Hr1 & Hfetch1).
      by apply (IH cache1 r1).
    + by apply (IH cache r).
Qed.

Lemma activate_keeps_current caches :
  activate caches !! CACHE_NAME = caches !! CACHE_NAME.
Proof.
  unfold activate. rewrite map_lookup_filter.
  destruct (caches !! CACHE_NAME); [|done]. cbn.
  by rewrite option_guard_True.
Qed.

Lemma isCoreFile_of_a_core_file request file :
  file ∈ CORE_FILES →
  origin request = selfOrigin →
  pathname request = replaceFirst "./" "/" file →
  isCoreFile selfOrigin request = true.
Proof.
  intros Hin Ho Hp. unfold isCoreFile.
  rewrite bool_decide_eq_true_2 by done.
  apply existsb_exists. exists file. split.
  - by apply list_elem_of_In.
  - by rewrite (bool_decide_eq_true_2 _ Hp).
Qed.

End ServiceWorkerFacts.

Section ServiceWorkerProperties.

Import ServiceWorker.

Variable selfOrigin : string.
Variable base : string.

Implicit Types (caches : gmap string (gmap string Response)).

(** Once the worker has been installed with every core file fetched, and
    activated, a GET request for a core file at the root of the worker's
    origin is answered from the cache with the response fetched at the
    installation, whatever the network does, online or offline, and the
    caches are left as they are. *)
Theorem precached_files_are_served_without_the_network
    fetchUrl caches0 request file network :
  (∀ f, f ∈ CORE_FILES →
        ∃ r, fetchUrl (resolve base f) = Normal r
             ∧ ok r = true ∧ storable r = true) →
  file ∈ CORE_FILES →
  url request = resolve base file → method request = "GET" →
  origin request = selfOrigin →
  pathname request = replaceFirst "./" "/" file →
  let caches := activate (install base fetchUrl caches0) in
  ∃ r, fetchUrl (url request) = Normal r
       ∧ handleFetch selfOrigin base network request caches = (Some r, caches).
Proof.
  intros Hall Hin Hurl Hget Ho Hp. cbv zeta.
  destruct (install_precaches base fetchUrl caches0 Hall) as [Hsome Hcached].
  destruct (Hcached file Hin) as (r & Hr & Hfetch).
  set (caches := activate (install base fetchUrl caches0)).
  assert (Hcur : caches !! CACHE_NAME = install base fetchUrl caches0 !! CACHE_NAME)
    by apply activate_keeps_current.
  assert (Hopen : open CACHE_NAME caches = caches).
  { apply open_existing. by rewrite Hcur. }
  exists r. rewrite Hurl. split; [done|].
  unfold handleFetch.
  rewrite (isCoreFile_of_a_core_file selfOrigin request file) by done.
  unfold cacheFirst. rewrite Hopen. unfold cacheMatch.
  rewrite bool_decide_eq_true_2 by done.
  unfold cacheOf in *. rewrite Hcur, Hurl, Hr. done.
Qed.

(** What the worker has fetched once for a GET request, with a response
    that is [ok] and storable, it can answer later without the network:
    when the same request comes again and the fetch fails, it is answered
    with that response, or with the response it was answered with the
    first time (a core file or an image that was cached before). *)
Theorem fetched_once_is_answered_offline request r e caches :
  method request = "GET" → ok r = true → storable r = true →
  let first := handleFetch selfOrigin base (Normal r) request caches in
  let second := handleFetch selfOrigin base (Throw e) request (snd first) in
  ∃ a, fst second = Some a ∧ (a = r ∨ fst first = Some a).
Proof.
  intros Hget Hok Hst. cbv zeta. unfold handleFetch.
  assert (Hcf : ∀ caches,
    let first := cacheFirst (Normal r) request caches in
    ∃ a, cacheFirst (Throw e) request (snd first) = (Normal (Some a), snd first)
         ∧ (a = r ∨ fst first = Normal (Some a))).
  { intros cs. cbv zeta. unfold cacheFirst.
    destruct (cacheMatch request (cacheOf CACHE_NAME (open CACHE_NAME cs)))
      as [c|] eqn:Hm; cbn [fst snd].
    - exists c. rewrite open_existing.
      2:{ unfold open. destruct (cs !! CACHE_NAME) eqn:E; [by rewrite E|].
          by rewrite lookup_insert_eq. }
      rewrite Hm. auto.
    - rewrite Hok. exists r.
      assert (Hput : cacheOf CACHE_NAME
                       (cachePut CACHE_NAME request r (open CACHE_NAME cs))
                     !! url request = Some r)
        by by apply cacheOf_cachePut.
      rewrite open_existing.
      2:{ unfold cachePut. rewrite bool_decide_eq_true_2, Hst by done. cbn.
          by rewrite lookup_insert_eq. }
      unfold cacheMatch. rewrite bool_decide_eq_true_2, Hput by done. auto. }
  assert (Hnf : ∀ caches,
    let first := networkFirst (Normal r) request caches in
    networkFirst (Throw e) request (snd first) = (Normal (Some r), snd first)
    ∧ fst first = Normal (Some r)).
  { intros cs. cbv zeta. unfold networkFirst. cbn [fst snd].
    rewrite Hok, bool_decide_eq_true_2 by done. cbn [andb].
    assert (Hput : cacheOf RUNTIME_CACHE
                     (cachePut RUNTIME_CACHE request r (open RUNTIME_CACHE cs))
                   !! url request = Some r)
      by by apply cacheOf_cachePut.
    rewrite open_existing.
    2:{ unfold cachePut. rewrite bool_decide_eq_true_2, Hst by done. cbn.
        by rewrite lookup_insert_eq. }
    unfold cacheMatch. by rewrite bool_decide_eq_true_2, Hput. }
  destruct (isCoreFile selfOrigin request).
  { destruct (Hcf caches) as (a & E & Ha).
    destruct (cacheFirst (Normal r) request caches) as [[o|?] cs] eqn:E1;
      cbn [fst snd] in *.
    - rewrite E. cbn. exists a. split; [done|].
      destruct Ha as [->|[= ->]]; auto.
    - unfold cacheFirst in E1. by repeat case_match. }
  destruct (isExternalDependency request).
  { unfold staleWhileRevalidate at 2. cbn [fst snd]. rewrite Hok.
    unfold staleWhileRevalidate. cbn [fst snd].
    assert (Hput : cacheOf CACHE_NAME
                     (cachePut CACHE_NAME request r (open CACHE_NAME caches))
                   !! url request = Some r)
      by by apply cacheOf_cachePut.
    rewrite cacheOf_open. unfold cacheMatch at 1.
    rewrite bool_decide_eq_true_2, Hput by done.
    exists r. auto. }
  destruct (isImageOrMedia request).
  { destruct (Hcf caches) as (a & E & Ha).
    destruct (cacheFirst (Normal r) request caches) as [[o|?] cs] eqn:E1;
      cbn [fst snd] in *.
    - rewrite E. cbn. exists a. split; [done|].
      destruct Ha as [->|[= ->]]; auto.
    - unfold cacheFirst in E1. by repeat case_match. }
  assert (Hnet : ∃ a,
    (let (attempt, caches0) :=
       networkFirst (Throw e) request
         (let (attempt, caches0) := networkFirst (Normal r) request caches in
          match attempt with
          | Normal response => (response, caches0)
          | Throw _ =>
              if bool_decide (mode request = "navigate")
              then (cacheOf CACHE_NAME (open CACHE_NAME caches0)
                      !! resolve base "./index.html", open CACHE_NAME caches0)
              else (Some (mkResponse 408 "Request Timeout" ""), caches0)
          end).2 in
     match attempt with
     | Normal response => (response, caches0)
     | Throw _ =>
         if bool_decide (mode request = "navigate")
         then (cacheOf CACHE_NAME (open CACHE_NAME caches0)
                 !! resolve base "./index.html", open CACHE_NAME caches0)
         else (Some (mkResponse 408 "Request Timeout" ""), caches0)
     end).1 = Some a ∧ (a = r ∨ False)).
  { destruct (Hnf caches) as [E Hfirst].
    destruct (networkFirst (Normal r) request caches) as [[o|?] cs] eqn:E1;
      cbn [fst snd] in *; [|done].
    rewrite E. cbn. exists r. auto. }
  destruct Hnet as (a & Ha & [->|[]]).
  destruct (isDynamicContent selfOrigin request); exists r; auto.
Qed.

(** Offline, a request that is not for one of the external dependencies
    is always answered, the page [index.html] being in the cache of this
    version: with a cached copy of what is asked for, or else with
    [index.html] for a navigation and with an empty response of status
    408 for anything else. *)
Theorem offline_requests_are_answered request e caches index :
  isExternalDependency request = false →
  cacheOf CACHE_NAME caches !! resolve base "./index.html" = Some index →
  ∃ a, fst (handleFetch selfOrigin base (Throw e) request caches) = Some a
       ∧ (cacheMatch request (cacheOf CACHE_NAME caches) = Some a
          ∨ cacheMatch request (cacheOf RUNTIME_CACHE caches) = Some a
          ∨ (mode request = "navigate" ∧ a = index)
          ∨ (mode request ≠ "navigate"
             ∧ a = mkResponse 408 "Request Timeout" "")).
Proof.
  intros Hext Hindex. unfold handleFetch. rewrite Hext.
  assert (Hfallback : ∀ cs,
    (∀ name, cacheOf name cs = cacheOf name caches) →
    ∃ a,
      fst (if bool_decide (mode request = "navigate")
           then (cacheOf CACHE_NAME (open CACHE_NAME cs)
                   !! resolve base "./index.html", open CACHE_NAME cs)
           else (Some (mkResponse 408 "Request Timeout" ""), cs)) = Some a
      ∧ ((mode request = "navigate" ∧ a = index)
         ∨ (mode request ≠ "navigate"
            ∧ a = mkResponse 408 "Request Timeout" ""))).
  { intros cs Hcs. case_bool_decide as Hnav; cbn [fst].
    - exists index. rewrite cacheOf_open, Hcs. auto.
    - eexists. split; [done|]. auto. }
  assert (Hcf :
    ∃ a, fst (let (attempt, caches0) := cacheFirst (Throw e) request caches in
              match attempt with
              | Normal response => (response, caches0)
              | Throw _ =>
                  if bool_decide (mode request = "navigate")
                  then (cacheOf CACHE_NAME (open CACHE_NAME caches0)
                          !! resolve base "./index.html", open CACHE_NAME caches0)
                  else (Some (mkResponse 408 "Request Timeout" ""), caches0)
              end) = Some a
         ∧ (cacheMatch request (cacheOf CACHE_NAME caches) = Some a
            ∨ cacheMatch request (cacheOf RUNTIME_CACHE caches) = Some a
            ∨ (mode request = "navigate" ∧ a = index)
            ∨ (mode request ≠ "navigate"
               ∧ a = mkResponse 408 "Request Timeout" ""))).
  { unfold cacheFirst. rewrite cacheOf_open.
    destruct (cacheMatch request (cacheOf CACHE_NAME caches)) as [c|] eqn:Hm.
    - exists c. auto.
    - destruct (Hfallback (open CACHE_NAME caches)) as (a & Ha & Hcase).
      { intros name. apply cacheOf_open. }
      exists a. auto. }
  assert (Hnf :
    ∃ a, fst (let (attempt, caches0) := networkFirst (Throw e) request caches in
              match attempt with
              | Normal response => (response, caches0)
              | Throw _ =>
                  if bool_decide (mode request = "navigate")
                  then (cacheOf CACHE_NAME (open CACHE_NAME caches0)
                          !! resolve base "./index.html", open CACHE_NAME caches0)
                  else (Some (mkResponse 408 "Request Timeout" ""), caches0)
              end) = Some a
         ∧ (cacheMatch request (cacheOf CACHE_NAME caches) = Some a
            ∨ cacheMatch request (cacheOf RUNTIME_CACHE caches) = Some a
            ∨ (mode request = "navigate" ∧ a = index)
            ∨ (mode request ≠ "navigate"
               ∧ a = mkResponse 408 "Request Timeout" ""))).
  { unfold networkFirst. rewrite cacheOf_open.
    destruct (cacheMatch request (cacheOf RUNTIME_CACHE caches)) as [c|] eqn:Hm.
    - exists c. auto.
    - destruct (Hfallback (open RUNTIME_CACHE caches)) as (a & Ha & Hcase).
      { intros name. apply cacheOf_open. }
      exists a. auto. }
  destruct (isCoreFile selfOrigin request); [exact Hcf|].
  destruct (isImageOrMedia request); [exact Hcf|].
  destruct (isDynamicContent selfOrigin request); exact Hnf.
Qed.

End ServiceWorkerProperties.

Lemma precached_files_are_served_without_the_network_witness :
  (∀ f, f ∈ ServiceWorker.CORE_FILES →
        ∃ r, siteOnline (ServiceWorker.resolve "https://reader.example/" f) = Normal r
             ∧ ServiceWorker.ok r = true ∧ ServiceWorker.storable r = true)
  ∧ "./index.html" ∈ ServiceWorker.CORE_FILES
  ∧ ServiceWorker.url indexRequest
    = ServiceWorker.resolve "https://reader.example/" "./index.html"
  ∧ ServiceWorker.method indexRequest = "GET"
  ∧ ServiceWorker.origin indexRequest = "https://reader.example"
  ∧ ServiceWorker.pathname indexRequest
    = ServiceWorker.replaceFirst "./" "/" "./index.html"
  ∧ ∃ r, siteOnline (ServiceWorker.url indexRequest) = Normal r
         ∧ ServiceWorker.handleFetch "https://reader.example"
             "https://reader.example/" (Throw offline) indexRequest installed
           = (Some r, installed).
Proof.
  assert (H1 : ∀ f, f ∈ ServiceWorker.CORE_FILES →
             ∃ r, siteOnline (ServiceWorker.resolve "https://reader.example/" f)
                  = Normal r
                  ∧ ServiceWorker.ok r = true ∧ ServiceWorker.storable r = true)
    by (intros f _; eexists; split; [reflexivity | split; reflexivity]).
  assert (H2 : "./index.html" ∈ ServiceWorker.CORE_FILES)
    by (apply (bool_decide_unpack _); vm_compute; exact I).
  assert (H3 : ServiceWorker.url indexRequest
               = ServiceWorker.resolve "https://reader.example/" "./index.html")
    by reflexivity.
  assert (H4 : ServiceWorker.method indexRequest = "GET") by reflexivity.
  assert (H5 : ServiceWorker.origin indexRequest = "https://reader.example")
    by reflexivity.
  assert (H6 : ServiceWorker.pathname indexRequest
               = ServiceWorker.replaceFirst "./" "/" "./index.html")
    by reflexivity.
  split; [exact H1|]. split; [exact H2|]. split; [exact H3|]. split; [exact H4|].
  split; [exact H5|]. split; [exact H6|].
  exact (precached_files_are_served_without_the_network "https://reader.example"
           "https://reader.example/" siteOnline ∅ indexRequest "./index.html"
           (Throw offline) H1 H2 H3 H4 H5 H6).
Defined.

Lemma fetched_once_is_answered_offline_witness :
  ServiceWorker.method aboutRequest = "GET"
  ∧ ServiceWorker.ok (ServiceWorker.mkResponse 200 "OK" "about") = true
  ∧ ServiceWorker.storable (ServiceWorker.mkResponse 200 "OK" "about") = true
  ∧ ∃ a,
      fst (ServiceWorker.handleFetch "https://reader.example"
             "https://reader.example/" (Throw offline) aboutRequest
             (snd (ServiceWorker.handleFetch "https://reader.example"
                     "https://reader.example/"
                     (Normal (ServiceWorker.mkResponse 200 "OK" "about"))
                     aboutRequest ∅)))
      = Some a
      ∧ (a = ServiceWorker.mkResponse 200 "OK" "about"
         ∨ fst (ServiceWorker.handleFetch "https://reader.example"
                  "https://reader.example/"
                  (Normal (ServiceWorker.mkResponse 200 "OK" "about"))
                  aboutRequest ∅)
           = Some a).
Proof.
  split; [reflexivity|]. split; [reflexivity|]. split; [reflexivity|].
  exact (fetched_once_is_answered_offline "https://reader.example"
           "https://reader.example/" aboutRequest
           (ServiceWorker.mkResponse 200 "OK" "about") offline ∅
           eq_refl eq_refl eq_refl).
Defined.

Lemma offline_requests_are_answered_witness :
  ServiceWorker.isExternalDependency aboutRequest = false
  ∧ ServiceWorker.cacheOf ServiceWorker.CACHE_NAME installed
    !! ServiceWorker.resolve "https://reader.example/" "./index.html"
    = Some (ServiceWorker.mkResponse 200 "OK" "https://reader.example/index.html")
  ∧ fst (ServiceWorker.handleFetch "https://reader.example"
           "https://reader.example/" (Throw offline) aboutRequest installed)
    = Some (ServiceWorker.mkResponse 200 "OK" "https://reader.example/index.html").
Proof.
  assert (H1 : ServiceWorker.isExternalDependency aboutRequest = false)
    by (vm_compute; reflexivity).
  assert (H2 : ServiceWorker.cacheOf ServiceWorker.CACHE_NAME installed
               !! ServiceWorker.resolve "https://reader.example/" "./index.html"
               = Some (ServiceWorker.mkResponse 200 "OK"
                         "https://reader.example/index.html"))
    by (vm_compute; reflexivity).
  split; [exact H1|]. split; [exact H2|].
  destruct (offline_requests_are_answered "https://reader.example"
              "https://reader.example/" aboutRequest offline installed _ H1 H2)
    as (a & Ha & _).
  rewrite Ha. revert Ha. vm_compute. intros [= <-]. reflexivity.
Defined.

(** ** Files by type *)

Section TypeFacts.

Context {S : Type} `{engine : !Utils.Engine}.
Variable subscriber : nat -> Payload -> S -> S * option JsError.
Implicit Types (w : @World S).

Lemma getMediaType_known fileName :
  Utils.getMediaType fileName ∈ ["pdf"; "image"; "video"].
Proof. unfold Utils.getMediaType. repeat case_match; set_solver. Qed.

Lemma addFile_wellTyped env file w :
  wellTyped w → wellTyped (snd (addFile subscriber env file w)).
Proof.
  intros Hw.
  destruct (addFile_outcome subscriber env file w)
    as [(th & d & w' & _ & _ & E & Hh & Hf & _)|(e & w' & E & L)];
    rewrite E; cbn [snd]; unfold wellTyped in *.
  - rewrite Hh, Hf, length_app. cbn [length]. apply Forall_app. split.
    + eapply Forall_impl; [exact Hw|]. intros f [Hlt Hty]. split; [lia|].
      by rewrite lookup_total_app_l.
    + constructor; [|constructor]. split; [lia|].
      rewrite list_lookup_total_middle by done. apply getMediaType_known.
  - destruct L as (Hh & Hf & _). by rewrite Hh, Hf.
Qed.

Lemma importLoop_wellTyped jobs : ∀ importedCount errorCount w,
  wellTyped w →
  wellTyped (snd (PinkReaderApp.importLoop subscriber jobs importedCount errorCount w)).
Proof.
  induction jobs as [|[env file] jobs IH]; intros i e w Hw; [done|].
  cbn [PinkReaderApp.importLoop].
  pose proof (addFile_wellTyped env file w Hw) as Hw1.
  destruct (addFile subscriber env file w) as [[r|err] w1]; cbn [snd] in Hw1.
  - by apply IH.
  - by apply IH.
Qed.

(** A list whose elements all have one of three labels is its three
    filtered parts put together. *)
Lemma filter_three {A B} `{EqDecision B} (label : A → B) (a b c : B) (l : list A) :
  a ≠ b → a ≠ c → b ≠ c →
  Forall (fun x => label x ∈ [a; b; c]) l →
  l ≡ₚ filter (fun x => label x = a) l
       ++ filter (fun x => label x = b) l
       ++ filter (fun x => label x = c) l.
Proof.
  intros Hab Hac Hbc Hall. induction Hall as [|x l Hx Hall IH]; [done|].
  rewrite !filter_cons.
  apply elem_of_cons in Hx as [Hx|Hx]; [|apply elem_of_cons in Hx as [Hx|Hx]];
    [| |apply list_elem_of_singleton in Hx].
  - rewrite decide_True, decide_False, decide_False by congruence.
    cbn. by constructor.
  - rewrite decide_False, decide_True, decide_False by congruence.
    rewrite <- app_comm_cons, <- Permutation_middle. by constructor.
  - rewrite decide_False, decide_False, decide_True by congruence.
    rewrite app_assoc, <- Permutation_middle, <- app_assoc. by constructor.
Qed.

End TypeFacts.

Section TypeProperties.

Context {S : Type} `{engine : !Utils.Engine}.
Variable subscriber : nat -> Payload -> S -> S * option JsError.
Implicit Types (w : @World S).

(** After [importFiles], whatever was imported and whatever failed, every
    file of the list is listed by [getFilesByType] under exactly one of
    [pdf], [image] and [video]: the three lists together are the file
    list, up to order, and no file is in two of them. The library before
    is assumed to be so, as the empty library is. *)
Theorem imported_files_are_listed_under_one_type jobs w :
  wellTyped w →
  let w' := snd (PinkReaderApp.importFiles subscriber jobs w) in
  wellTyped w'
  ∧ files w' ≡ₚ getFilesByType "pdf" w' ++ getFilesByType "image" w'
                ++ getFilesByType "video" w'
  ∧ ∀ file type type',
      file ∈ getFilesByType type w' → file ∈ getFilesByType type' w' →
      type = type'.
Proof.
  intros Hw. cbv zeta.
  assert (Hw' : wellTyped (snd (PinkReaderApp.importFiles subscriber jobs w))).
  { unfold PinkReaderApp.importFiles.
    pose proof (importLoop_wellTyped subscriber jobs 0 0 w Hw) as Hloop.
    destruct (PinkReaderApp.importLoop subscriber jobs 0 0 w) as [[i e] w1].
    cbn [snd] in *. by repeat case_bool_decide. }
  split; [exact Hw'|]. split.
  - unfold getFilesByType.
    apply (filter_three (fun file => MediaFile.mediaType (heap _ !!! file)));
      [done..|].
    eapply Forall_impl; [exact Hw'|]. by intros f [_ Hty].
  - unfold getFilesByType. intros file type type'.
    intros [<- _]%list_elem_of_filter [<- _]%list_elem_of_filter. done.
Qed.

End TypeProperties.

Lemma imported_files_are_listed_under_one_type_witness :
  wellTyped (emptyLibrary tt)
  ∧ wellTyped
      (snd (PinkReaderApp.importFiles quiet
              [(importOk "id-a" (Some 3), aPdf); (importOk "id-c" None, aVideo)]
              (emptyLibrary tt))).
Proof.
  assert (H : wellTyped (emptyLibrary tt)) by constructor.
  split; [exact H|].
  exact (proj1 (imported_files_are_listed_under_one_type quiet
                  [(importOk "id-a" (Some 3), aPdf); (importOk "id-c" None, aVideo)]
                  (emptyLibrary tt) H)).
Defined.

(** ** Saving the position during playback *)

Section PlaybackProperties.

Context {S : Type} `{engine : !Utils.Engine}.
Implicit Types (p : VideoPlayer.t) (w : @World S).

(** The save made during playback, on pause and at the end (the element's
    [timeupdate] event, then [saveCurrentPosition]), the user not dragging
    the slider and the file being in the list with ids unique: the cached
    time is the position [t] the element reports; when [t] is more than a
    second away from the last saved position it becomes the
    [lastViewedTime] the library holds for the file and the last saved
    position, otherwise the library is not touched; either way the last
    saved position is then within a second of [t]. *)
Theorem playback_save_persists_the_reported_position p w t file :
  VideoPlayer.videoElement p = Some t →
  VideoPlayer.isSeeking p = false →
  VideoPlayer.currentFile p = Some file →
  file ∈ files w → (file < length (heap w))%nat →
  NoDup (idOf w <$> files w) →
  let st' := VideoPlayer.saveCurrentPosition (VideoPlayer.onTimeUpdate (p, w)) in
  VideoPlayer.currentTime (fst st') = t
  ∧ (Qabs (t - VideoPlayer.lastSavedPosition (fst st')) <= 1)%Q
  ∧ if VideoPlayer.gt (Qabs (t - VideoPlayer.lastSavedPosition p)) 1
    then MediaFile.lastViewedTime (heap (snd st') !!! file) = t
         ∧ VideoPlayer.lastSavedPosition (fst st') = t
    else snd st' = w
         ∧ VideoPlayer.lastSavedPosition (fst st') = VideoPlayer.lastSavedPosition p.
Proof.
  intros Hv Hseek Hf Hin Hlt Hnd. cbv zeta.
  unfold VideoPlayer.onTimeUpdate. rewrite Hv, Hseek.
  unfold VideoPlayer.saveCurrentPosition.
  cbn [VideoPlayer.videoElement VideoPlayer.currentFile VideoPlayer.duration
       VideoPlayer.currentTime VideoPlayer.isSeeking VideoPlayer.lastSavedPosition].
  rewrite Hf.
  destruct (VideoPlayer.gt _ 1) eqn:Hgt;
    cbn [fst snd VideoPlayer.currentTime VideoPlayer.lastSavedPosition].
  - split; [done|]. split.
    + apply Qabs_Qle_condition. split; lra.
    + split; [|done].
      destruct (updateField_listed (MediaFile.set_lastViewedTime t) file w)
        as (P1 & _); [done..|].
      unfold updateLastViewedTime. by rewrite P1.
  - split; [done|]. split; [by apply gt_false|done].
Qed.

End PlaybackProperties.

Lemma playback_save_persists_the_reported_position_witness :
  VideoPlayer.videoElement (fst (VideoPlayer.seek 30 videoShown)) = Some 30%Q
  ∧ VideoPlayer.isSeeking (fst (VideoPlayer.seek 30 videoShown)) = false
  ∧ VideoPlayer.currentFile (fst (VideoPlayer.seek 30 videoShown)) = Some 0%nat
  ∧ 0%nat ∈ files (snd (VideoPlayer.seek 30 videoShown))
  ∧ (0 < length (heap (snd (VideoPlayer.seek 30 videoShown))))%nat
  ∧ NoDup (idOf (snd (VideoPlayer.seek 30 videoShown))
             <$> files (snd (VideoPlayer.seek 30 videoShown)))
  ∧ VideoPlayer.currentTime
      (fst (VideoPlayer.saveCurrentPosition
              (VideoPlayer.onTimeUpdate
                 (fst (VideoPlayer.seek 30 videoShown),
                  snd (VideoPlayer.seek 30 videoShown)))))
    = 30%Q.
Proof.
  assert (H1 : VideoPlayer.videoElement (fst (VideoPlayer.seek 30 videoShown))
               = Some 30%Q) by (vm_compute; reflexivity).
  assert (H2 : VideoPlayer.isSeeking (fst (VideoPlayer.seek 30 videoShown)) = false)
    by (vm_compute; reflexivity).
  assert (H3 : VideoPlayer.currentFile (fst (VideoPlayer.seek 30 videoShown))
               = Some 0%nat) by (vm_compute; reflexivity).
  assert (H4 : 0%nat ∈ files (snd (VideoPlayer.seek 30 videoShown)))
    by (apply (bool_decide_unpack _); vm_compute; exact I).
  assert (H5 : (0 < length (heap (snd (VideoPlayer.seek 30 videoShown))))%nat)
    by (apply (bool_decide_unpack _); vm_compute; exact I).
  assert (H6 : NoDup (idOf (snd (VideoPlayer.seek 30 videoShown))
                        <$> files (snd (VideoPlayer.seek 30 videoShown))))
    by (apply (bool_decide_unpack _); vm_compute; exact I).
  split; [exact H1|]. split; [exact H2|]. split; [exact H3|]. split; [exact H4|].
  split; [exact H5|]. split; [exact H6|].
  exact (proj1 (playback_save_persists_the_reported_position
                  (fst (VideoPlayer.seek 30 videoShown))
                  (snd (VideoPlayer.seek 30 videoShown)) 30 0%nat
                  H1 H2 H3 H4 H5 H6)).
Defined.
